(** * dedupe: the photo organizer (package [photo])

    A shallow embedding of [photo/organizer.go]: the progress [State], the
    path planning of [processFile], [resolveNamingConflict], the file
    transfer functions, the metadata strategies and the worker pool of
    [ProcessFiles], together with the properties of the written
    specification that concern them.

    Go strings are byte strings; they are modelled as [string] (a list of
    8-bit characters).  The duplicates map is a [gmap string (list string)].
    The operating system is modelled by a finite path table. *)

From Stdlib Require Import ZArith NArith Ascii String Lia.
From stdpp Require Import gmap strings list fin_maps pretty.

Open Scope string_scope.

(** ** Byte strings *)

Module Str.

Abbreviation chars := (list ascii).

Definition of_chars : chars -> string := string_of_list_ascii.
Definition to_chars : string -> chars := list_ascii_of_string.

Definition slash : ascii := "/"%char.
Definition dot : ascii := "."%char.

Definition is_slash (c : ascii) : bool := Ascii.eqb c slash.
Definition is_dot (c : ascii) : bool := Ascii.eqb c dot.

(** [strings.HasPrefix]. *)
Fixpoint HasPrefix (s p : string) : bool :=
  match p, s with
  | EmptyString, _ => true
  | String b p', String a s' => Ascii.eqb a b && HasPrefix s' p'
  | String _ _, EmptyString => false
  end.

(** [strings.HasSuffix]. *)
Definition HasSuffix (s suffix : string) : bool :=
  HasPrefix (of_chars (rev (to_chars s))) (of_chars (rev (to_chars suffix))).

(** [strings.TrimSuffix]: [s] without the trailing [suffix], or [s] itself. *)
Definition TrimSuffix (s suffix : string) : string :=
  if HasSuffix s suffix
  then of_chars (take (String.length s - String.length suffix) (to_chars s))
  else s.

(** Case mapping on the ASCII letters; the other bytes are left alone. *)
Definition lower_ascii (c : ascii) : ascii :=
  let n := nat_of_ascii c in
  if (65 <=? n)%nat && (n <=? 90)%nat then ascii_of_nat (n + 32) else c.

(** [strings.ToLower]. *)
Definition ToLower (s : string) : string :=
  of_chars (map lower_ascii (to_chars s)).

(** [strings.EqualFold]: equality under case folding. *)
Definition EqualFold (s t : string) : bool :=
  String.eqb (ToLower s) (ToLower t).

(** [s[:n]] when [n <= len(s)]. *)
Definition prefix (n : nat) (s : string) : string := of_chars (take n (to_chars s)).

(** A decimal number padded with zeros to at least [w] digits
    ([appendInt] of package [time]). *)
Definition pad (w n : nat) : string :=
  let d := pretty n in
  of_chars (replicate (w - String.length d) "0"%char) +:+ d.

End Str.

(** ** Package [path/filepath] (Unix) *)

Module filepath.
Import Str.

(** The elements of a path: the pieces between separators. *)
Fixpoint split_sep (cs : chars) : list chars :=
  match cs with
  | [] => [[]]
  | c :: r =>
      if is_slash c then [] :: split_sep r
      else match split_sep r with
           | e :: es => (c :: e) :: es
           | [] => [[c]]
           end
  end.

Definition dotdot : chars := [dot; dot].

Definition is_dotdot (e : chars) : bool := bool_decide (e = dotdot).

(** An element that [Clean] keeps or interprets: neither empty nor [.]. *)
Definition proper (e : chars) : bool :=
  negb (bool_decide (e = [])) && negb (bool_decide (e = [dot])).

(** One element of the lexical processing of [Clean]; [st] is the output so
    far, last element first. *)
Definition clean_step (rooted : bool) (st : list chars) (e : chars) : list chars :=
  if is_dotdot e then
    match st with
    | top :: rest => if is_dotdot top then e :: st else rest
    | [] => if rooted then [] else [e]
    end
  else e :: st.

Fixpoint join_sep (es : list chars) : chars :=
  match es with
  | [] => []
  | [e] => e
  | e :: es' => e ++ slash :: join_sep es'
  end.

Definition clean_chars (cs : chars) : chars :=
  let rooted := match cs with c :: _ => is_slash c | [] => false end in
  let st := fold_left (clean_step rooted) (filter (fun e => Is_true (proper e)) (split_sep cs)) [] in
  if rooted then slash :: join_sep (rev st)
  else match st with [] => [dot] | _ => join_sep (rev st) end.

(** [filepath.Clean]. *)
Definition Clean (p : string) : string := of_chars (clean_chars (to_chars p)).

(** [strings.Join(elem, "/")]. *)
Fixpoint concat_sep (elem : list string) : string :=
  match elem with
  | [] => ""
  | [e] => e
  | e :: r => e +:+ "/" +:+ concat_sep r
  end.

(** [filepath.Join]: the leading empty elements are skipped, the others are
    joined with separators and the result is cleaned. *)
Fixpoint Join (elem : list string) : string :=
  match elem with
  | [] => ""
  | e :: r => if bool_decide (e = "") then Join r else Clean (concat_sep elem)
  end.

(** The scan of [Ext] from the end of the path: [acc] is what was read. *)
Fixpoint ext_scan (rcs : chars) (acc : chars) : chars :=
  match rcs with
  | [] => []
  | c :: r =>
      if is_slash c then []
      else if is_dot c then c :: acc
      else ext_scan r (c :: acc)
  end.

(** [filepath.Ext]: the suffix that starts at the last dot of the last
    element, empty when there is no dot. *)
Definition Ext (p : string) : string := of_chars (ext_scan (rev (to_chars p)) []).

(** The scan of [Split]: the reversed directory part and the file part. *)
Fixpoint split_scan (rcs : chars) (acc : chars) : chars * chars :=
  match rcs with
  | [] => ([], acc)
  | c :: r => if is_slash c then (rcs, acc) else split_scan r (c :: acc)
  end.

(** [filepath.Split]: the path cut after its last separator. *)
Definition Split (p : string) : string * string :=
  let '(rdir, file) := split_scan (rev (to_chars p)) [] in
  (of_chars (rev rdir), of_chars file).

Fixpoint drop_slashes (rcs : chars) : chars :=
  match rcs with
  | c :: r => if is_slash c then drop_slashes r else rcs
  | [] => []
  end.

(** [filepath.Base]: the last element of the path. *)
Definition Base (p : string) : string :=
  if bool_decide (p = "") then "."
  else
    let rcs := drop_slashes (rev (to_chars p)) in
    match snd (split_scan rcs []) with
    | [] => "/"
    | file => of_chars file
    end.

End filepath.

(** ** Packages [crypto/md5] and [encoding/hex] *)

Module md5.

Definition mask32 (x : N) : N := N.land x 0xffffffff.
Definition add32 (x y : N) : N := mask32 (x + y).
Definition not32 (x : N) : N := N.lxor (mask32 x) 0xffffffff.
Definition rotl32 (x n : N) : N :=
  mask32 (N.lor (N.shiftl x n) (N.shiftr (mask32 x) (32 - n))).

Definition K : list N :=
  [ 0xd76aa478; 0xe8c7b756; 0x242070db; 0xc1bdceee; 0xf57c0faf; 0x4787c62a; 0xa8304613; 0xfd469501;
    0x698098d8; 0x8b44f7af; 0xffff5bb1; 0x895cd7be; 0x6b901122; 0xfd987193; 0xa679438e; 0x49b40821;
    0xf61e2562; 0xc040b340; 0x265e5a51; 0xe9b6c7aa; 0xd62f105d; 0x02441453; 0xd8a1e681; 0xe7d3fbc8;
    0x21e1cde6; 0xc33707d6; 0xf4d50d87; 0x455a14ed; 0xa9e3e905; 0xfcefa3f8; 0x676f02d9; 0x8d2a4c8a;
    0xfffa3942; 0x8771f681; 0x6d9d6122; 0xfde5380c; 0xa4beea44; 0x4bdecfa9; 0xf6bb4b60; 0xbebfbc70;
    0x289b7ec6; 0xeaa127fa; 0xd4ef3085; 0x04881d05; 0xd9d4d039; 0xe6db99e5; 0x1fa27cf8; 0xc4ac5665;
    0xf4292244; 0x432aff97; 0xab9423a7; 0xfc93a039; 0x655b59c3; 0x8f0ccc92; 0xffeff47d; 0x85845dd1;
    0x6fa87e4f; 0xfe2ce6e0; 0xa3014314; 0x4e0811a1; 0xf7537e82; 0xbd3af235; 0x2ad7d2bb; 0xeb86d391 ]%N.

Definition S : list N :=
  [ 7; 12; 17; 22; 7; 12; 17; 22; 7; 12; 17; 22; 7; 12; 17; 22;
    5; 9; 14; 20; 5; 9; 14; 20; 5; 9; 14; 20; 5; 9; 14; 20;
    4; 11; 16; 23; 4; 11; 16; 23; 4; 11; 16; 23; 4; 11; 16; 23;
    6; 10; 15; 21; 6; 10; 15; 21; 6; 10; 15; 21; 6; 10; 15; 21 ]%N.

(** The four chaining words. *)
Record digest := Digest { dA : N; dB : N; dC : N; dD : N }.

Definition init : digest :=
  Digest 0x67452301%N 0xefcdab89%N 0x98badcfe%N 0x10325476%N.

(** A 32-bit word as four bytes and a 64-bit length as eight, least
    significant byte first. *)
Definition le_bytes (n : nat) (x : N) : list N :=
  map (fun i => N.land (N.shiftr x (8 * N.of_nat i)) 0xff) (seq 0 n).

Fixpoint le_word (bs : list N) : N :=
  match bs with
  | [] => 0
  | b :: r => N.lor b (N.shiftl (le_word r) 8)
  end.

Definition padding (msg : list N) : list N :=
  let len := length msg in
  msg ++ [0x80%N] ++ replicate ((119 - len mod 64) mod 64) 0%N
      ++ le_bytes 8 (8 * N.of_nat len).

Fixpoint blocks (n : nat) (bs : list N) : list (list N) :=
  match n with
  | O => []
  | Datatypes.S n' => take 64 bs :: blocks n' (drop 64 bs)
  end.

Definition words (block : list N) : list N :=
  map (fun i => le_word (take 4 (drop (4 * i) block))) (seq 0 16).

Definition step (M : list N) (d : digest) (i : nat) : digest :=
  let '(Digest a b c d') := d in
  let f :=
    if (i <? 16)%nat then N.lor (N.land b c) (N.land (not32 b) d')
    else if (i <? 32)%nat then N.lor (N.land d' b) (N.land (not32 d') c)
    else if (i <? 48)%nat then N.lxor b (N.lxor c d')
    else N.lxor c (N.lor b (not32 d')) in
  let g :=
    if (i <? 16)%nat then i
    else if (i <? 32)%nat then (5 * i + 1) mod 16
    else if (i <? 48)%nat then (3 * i + 5) mod 16
    else (7 * i) mod 16 in
  let f' := add32 (add32 (add32 f a) (K !!! i)) (M !!! g) in
  Digest d' (add32 b (rotl32 f' (S !!! i))) b c.

Definition block_step (d : digest) (block : list N) : digest :=
  let r := fold_left (step (words block)) (seq 0 64) d in
  Digest (add32 (dA d) (dA r)) (add32 (dB d) (dB r))
         (add32 (dC d) (dC r)) (add32 (dD d) (dD r)).

(** [md5.Sum]: the sixteen bytes of the digest. *)
Definition Sum (data : string) : list N :=
  let msg := map N_of_ascii (Str.to_chars data) in
  let p := padding msg in
  let d := fold_left block_step (blocks (length p / 64) p) init in
  le_bytes 4 (dA d) ++ le_bytes 4 (dB d) ++ le_bytes 4 (dC d) ++ le_bytes 4 (dD d).

End md5.

Module hex.

Definition hextable : list ascii := Str.to_chars "0123456789abcdef".

Definition digit (n : N) : ascii :=
  nth (N.to_nat (N.land n 0xf)) hextable "0"%char.

(** [hex.EncodeToString]: two lower-case digits a byte. *)
Definition EncodeToString (bs : list N) : string :=
  Str.of_chars (flat_map (fun b => [digit (N.shiftr b 4); digit b]) bs).

End hex.

(** ** Package [time] *)

Module time.
Import Str.

(** A [time.Time] as its wall clock.  The zero value [time.Time{}] is
    January 1, year 1, 00:00:00. *)
Record Time := mkTime {
  Year : nat; Month : nat; Day : nat;
  Hour : nat; Minute : nat; Second : nat; Nanosecond : N
}.

#[global] Instance Time_eq_dec : EqDecision Time.
Proof. solve_decision. Defined.

Definition zero : Time := mkTime 1 1 1 0 0 0 0.

(** [t.IsZero()]. *)
Definition IsZero (t : Time) : bool := bool_decide (t = zero).

(** [t.Format("2006")], [t.Format("01")] and [t.Format("02")]. *)
Definition Format_year (t : Time) : string := pad 4 (Year t).
Definition Format_month (t : Time) : string := pad 2 (Month t).
Definition Format_day (t : Time) : string := pad 2 (Day t).

(** A [time.Duration] counts nanoseconds. *)
Definition Duration := N.
Definition Second_ : Duration := 1000000000%N.

Definition isDigit (c : ascii) : bool :=
  let n := nat_of_ascii c in (48 <=? n)%nat && (n <=? 57)%nat.

Definition digit_val (c : ascii) : nat := nat_of_ascii c - 48.

(** The value of a string of digits. *)
Definition atoi (cs : chars) : nat :=
  fold_left (fun acc c => 10 * acc + digit_val c) cs 0.

Definition is_space (c : ascii) : bool := Ascii.eqb c " "%char.

Fixpoint cutspace (cs : chars) : chars :=
  match cs with
  | c :: r => if is_space c then cutspace r else cs
  | [] => []
  end.

(** [getnum]: a number of one or two digits, of exactly two when [fixed]. *)
Definition getnum (cs : chars) (fixed : bool) : option (nat * chars) :=
  match cs with
  | a :: r =>
      if isDigit a then
        match r with
        | b :: r' =>
            if isDigit b then Some (10 * digit_val a + digit_val b, r')
            else if fixed then None else Some (digit_val a, r)
        | [] => if fixed then None else Some (digit_val a, r)
        end
      else None
  | [] => None
  end.

(** The four digits of the layout element [2006]. *)
Definition getyear (cs : chars) : option (nat * chars) :=
  if (4 <=? length cs)%nat && forallb isDigit (take 4 cs)
  then Some (atoi (take 4 cs), drop 4 cs) else None.

(** [skip]: the literal text of the layout; a run of spaces in the layout
    matches any run of spaces of the value.  [sp] tells that the previous
    layout character was a space. *)
Fixpoint skip (value prefix : chars) (sp : bool) : option chars :=
  match prefix with
  | [] => Some value
  | p :: prefix' =>
      if is_space p then
        if sp then skip value prefix' true
        else match value with
             | v :: _ => if is_space v then skip (cutspace value) prefix' true else None
             | [] => skip [] prefix' true
             end
      else match value with
           | v :: value' => if Ascii.eqb v p then skip value' prefix' false else None
           | [] => None
           end
  end.

Definition isLeap (year : nat) : bool :=
  (year mod 4 =? 0)%nat && (negb (year mod 100 =? 0)%nat || (year mod 400 =? 0)%nat).

Definition daysIn (month year : nat) : nat :=
  match month with
  | 2 => if isLeap year then 29 else 28
  | 4 | 6 | 9 | 11 => 30
  | _ => 31
  end.

Definition commaOrPeriod (c : ascii) : bool :=
  Ascii.eqb c "."%char || Ascii.eqb c ","%char.

Fixpoint span_digits (cs : chars) : chars * chars :=
  match cs with
  | c :: r => if isDigit c then let '(d, r') := span_digits r in (c :: d, r') else ([], cs)
  | [] => ([], [])
  end.

(** A fractional second of the value where the layout has none: it is read
    and kept, at most nine digits of it. *)
Definition fraction (cs : chars) : N * chars :=
  match cs with
  | c :: d :: _ =>
      if commaOrPeriod c && isDigit d then
        let '(ds, r) := span_digits (tail cs) in
        let ds9 := take 9 ds in
        ((N.of_nat (atoi ds9) * 10 ^ N.of_nat (9 - length ds9))%N, r)
      else (0%N, cs)
  | _ => (0%N, cs)
  end.

(** [time.Parse("2006-01-02 15:04:05 UTC", value)].  The layout elements
    are [2006], [01], [02], [15], [04] and [05]; package [time] has no
    layout element [UTC] (a zone abbreviation is [MST]), so these three
    letters are literal text that the value must carry. *)
Definition Parse_tagged (value : string) : option Time :=
  '(year, v) ← getyear (to_chars value);
  v ← skip v (to_chars "-") false;
  '(month, v) ← getnum v true;
  guard (1 <= month <= 12);;
  v ← skip v (to_chars "-") false;
  '(day, v) ← getnum v true;
  v ← skip v (to_chars " ") false;
  '(hour, v) ← getnum v false;
  guard (hour < 24);;
  v ← skip v (to_chars ":") false;
  '(min, v) ← getnum v true;
  guard (min < 60);;
  v ← skip v (to_chars ":") false;
  '(sec, v) ← getnum v true;
  guard (sec < 60);;
  let '(nsec, v) := fraction v in
  v ← skip v (to_chars " UTC") false;
  guard (v = []);;
  guard (1 <= day <= daysIn month year);;
  Some (mkTime year month day hour min sec nsec).

End time.

(** ** The embedded tag decoder and the media prober

    Both are external libraries ([goexif] and [yami]); what they find in a
    file is part of the file's content. *)

Module exif.

(** A decoded tag block; [DateTime] is its creation timestamp, if any. *)
Record Exif := mkExif { DateTime : option time.Time }.

End exif.

Module yami.

Record Track := mkTrack { TaggedDate : string }.

(** What the prober reports: the first video track, if there is one. *)
Record MediaInfo := mkInfo { GetFirstVideoTrack : option Track }.

(** A probe takes [probe_time] and then fails or reports. *)
Record Probe := mkProbe { probe_time : time.Duration; probe_info : option MediaInfo }.

End yami.

(** ** Package [os]: a finite file system *)

Module os.

(** The bytes of a file and what the decoders make of them. *)
Record content := mkContent {
  data : string;
  tags : option exif.Exif;      (* [exif.Decode]: [None] is a decode error *)
  media : yami.Probe
}.

Definition empty_content : content :=
  mkContent "" None (yami.mkProbe 0%N None).

Record file := mkFile {
  body : content;
  mode : N;
  seekable : bool;    (* a pipe or a device is not *)
  readable : bool     (* reads of it succeed *)
}.

Inductive node :=
| Dir
| Reg (f : file).

(** The path table.  A path of [denied] is one on which every call fails
    with an error other than "does not exist" (permission denied, I/O error);
    [dev] is the volume a path lies on. *)
Record FS := mkFS {
  nodes : gmap string node;
  denied : gset string;
  dev : string -> nat
}.

Definition with_nodes (fs : FS) (m : gmap string node) : FS :=
  mkFS m (denied fs) (dev fs).

Inductive StatResult :=
| StatOk (isDir : bool) (perm : N)
| StatNotExist          (* [os.IsNotExist(err)] *)
| StatError.            (* any other error *)

Definition ModePerm : N := 0x1ff.            (* 0777 *)
Definition dir_mode : N := 0x800001ed.       (* ModeDir | 0755 *)

(** [os.Stat]. *)
Definition Stat (fs : FS) (p : string) : StatResult :=
  if decide (p ∈ denied fs) then StatError
  else match nodes fs !! p with
       | Some Dir => StatOk true dir_mode
       | Some (Reg f) => StatOk false (mode f)
       | None => StatNotExist
       end.

Definition stat_ok (r : StatResult) : bool :=
  match r with StatOk _ _ => true | _ => false end.

Definition stat_not_exist (r : StatResult) : bool :=
  match r with StatNotExist => true | _ => false end.

(** [os.Open]: a handle is the path it was opened at. *)
Definition Open (fs : FS) (p : string) : bool :=
  if decide (p ∈ denied fs) then false
  else bool_decide (is_Some (nodes fs !! p)).

(** Reading an open file to its end. *)
Definition read_all (fs : FS) (p : string) : option content :=
  match nodes fs !! p with
  | Some (Reg f) => if readable f then Some (body f) else None
  | _ => None
  end.

(** [file.Seek(0, io.SeekStart)]. *)
Definition Seek_start (fs : FS) (p : string) : bool :=
  match nodes fs !! p with
  | Some (Reg f) => seekable f
  | Some Dir => true
  | None => false
  end.

(** [os.MkdirAll]. *)
Definition MkdirAll (fs : FS) (p : string) : option FS :=
  if decide (p ∈ denied fs) then None
  else match nodes fs !! p with
       | Some Dir => Some fs
       | Some (Reg _) => None
       | None => Some (with_nodes fs (<[p := Dir]> (nodes fs)))
       end.

(** [os.Create]: the file is created, or truncated when it exists. *)
Definition Create (fs : FS) (p : string) : option FS :=
  if decide (p ∈ denied fs) then None
  else match nodes fs !! p with
       | Some Dir => None
       | Some (Reg f) =>
           Some (with_nodes fs (<[p := Reg (mkFile empty_content (mode f) (seekable f) (readable f))]> (nodes fs)))
       | None =>
           Some (with_nodes fs (<[p := Reg (mkFile empty_content 0x1a4 true true)]> (nodes fs)))
       end.

(** Writing [c] to the open file at [p]. *)
Definition write_all (fs : FS) (p : string) (c : content) : option FS :=
  match nodes fs !! p with
  | Some (Reg f) =>
      Some (with_nodes fs (<[p := Reg (mkFile c (mode f) (seekable f) (readable f))]> (nodes fs)))
  | _ => None
  end.

(** [os.Chmod]. *)
Definition Chmod (fs : FS) (p : string) (m : N) : option FS :=
  if decide (p ∈ denied fs) then None
  else match nodes fs !! p with
       | Some (Reg f) =>
           Some (with_nodes fs (<[p := Reg (mkFile (body f) m (seekable f) (readable f))]> (nodes fs)))
       | Some Dir => Some fs
       | None => None
       end.

(** [os.Rename]: within one volume only. *)
Definition Rename (fs : FS) (src dest : string) : option FS :=
  if decide (src ∈ denied fs) then None
  else if decide (dest ∈ denied fs) then None
  else if negb (dev fs src =? dev fs dest)%nat then None
  else match nodes fs !! src with
       | Some n =>
           match nodes fs !! dest with
           | Some Dir => None
           | _ => Some (with_nodes fs (<[dest := n]> (delete src (nodes fs))))
           end
       | None => None
       end.

End os.

(** [exif.Decode] of an open file. *)
Definition exif_Decode (fs : os.FS) (p : string) : option exif.Exif :=
  c ← os.read_all fs p; os.tags c.

(** [yami.GetMediaInfo(path, timeout, "--Language=raw")]. *)
Definition yami_GetMediaInfo (fs : os.FS) (p : string) (timeout : time.Duration)
  : option yami.MediaInfo :=
  c ← os.read_all fs p;
  if (yami.probe_time (os.media c) <=? timeout)%N then yami.probe_info (os.media c) else None.

(** ** Package [photo]: [organizer.go] *)

Module photo.
Import Str.

(** *** Progress state *)

(** Go's [int] is a 64-bit two's complement integer. *)
Definition int_wrap (z : Z) : Z := ((z + 2 ^ 63) mod 2 ^ 64 - 2 ^ 63)%Z.

Definition max_int : Z := (2 ^ 63 - 1)%Z.

(** [State]; the mutex [mu] makes each method one atomic step. *)
Record State := mkState {
  processed : Z;
  total : Z;
  message : string;
  duplicates : Z;
  errorCount : Z
}.

Definition NewState (total : Z) : State :=
  {| total := total; processed := 0; message := "Initializing...";
     duplicates := 0; errorCount := 0 |}.

Definition GetTotalCount (s : State) : Z := total s.
Definition GetProcessedCount (s : State) : Z := processed s.
Definition GetDuplicateCount (s : State) : Z := duplicates s.
Definition GetErrorCount (s : State) : Z := errorCount s.

Definition IncrementProcessed (s : State) : State :=
  mkState (int_wrap (processed s + 1)) (total s) (message s) (duplicates s) (errorCount s).

Definition IncrementDuplicates (s : State) : State :=
  mkState (processed s) (total s) (message s) (int_wrap (duplicates s + 1)) (errorCount s).

Definition IncrementError (s : State) : State :=
  mkState (processed s) (total s) (message s) (duplicates s) (int_wrap (errorCount s + 1)).

Definition UpdateMessage (s : State) (message : string) : State :=
  mkState (processed s) (total s) message (duplicates s) (errorCount s).

(** [Status] returns a copy of the state. *)
Definition Status (s : State) : State := s.

(** *** Directory enumeration *)

(** One call of the function that [filepath.Walk] is given: an entry with
    its [os.FileInfo], or the error met on the way to it. *)
Inductive visit :=
| Entry (path : string) (name : string) (isDir : bool)
| WalkError (path : string).

(** [CountFiles]: the walk stops at the first error. *)
Fixpoint count_walk (vs : list visit) (total : Z) : option Z :=
  match vs with
  | [] => Some total
  | WalkError _ :: _ => None
  | Entry _ name isDir :: vs' =>
      if negb isDir && negb (HasPrefix name ".")
      then count_walk vs' (int_wrap (total + 1))
      else count_walk vs' total
  end.

Definition CountFiles (vs : list visit) : option Z := count_walk vs 0.

(** *** Metadata *)

(** [isVideoFile]. *)
Definition videoExtensions : list string := [".mp4"; ".avi"; ".mov"; ".mkv"; ".wmv"].

Definition isVideoFile (extension : string) : bool :=
  existsb (fun ext => EqualFold extension ext) videoExtensions.

Inductive video_error :=
| NotVideo | ProbeFailed | NoVideoTrack | NoTaggedDate | BadTaggedDate.

(** [getVideoCreationDate]. *)
Definition getVideoCreationDate (fs : os.FS) (filePath : string)
  : time.Time * option video_error :=
  if negb (isVideoFile (filepath.Ext filePath)) then (time.zero, Some NotVideo)
  else match yami_GetMediaInfo fs filePath (10 * time.Second_)%N with
       | None => (time.zero, Some ProbeFailed)
       | Some info =>
           match yami.GetFirstVideoTrack info with
           | None => (time.zero, Some NoVideoTrack)
           | Some videoTrack =>
               if bool_decide (yami.TaggedDate videoTrack = "")
               then (time.zero, Some NoTaggedDate)
               else match time.Parse_tagged (yami.TaggedDate videoTrack) with
                    | None => (time.zero, Some BadTaggedDate)
                    | Some creationDate => (creationDate, None)
                    end
           end
       end.

(** [getPhotoCreationDate]. *)
Definition getPhotoCreationDate (fs : os.FS) (file : string) (date : time.Time) : time.Time :=
  match exif_Decode fs file with
  | Some x =>
      match exif.DateTime x with
      | Some date => date
      | None => time.zero
      end
  | None => time.zero
  end.

(** [calculateChecksum]. *)
Definition calculateChecksum (fs : os.FS) (file : string) : option string :=
  c ← os.read_all fs file;
  Some (hex.EncodeToString (md5.Sum (os.data c))).

(** *** Naming conflicts and transfers *)

(** [fmt.Sprintf("%s_%d%s", base, i, ext)] under [dir]. *)
Definition candidate (dir base ext : string) (i : nat) : string :=
  filepath.Join [dir; base +:+ "_" +:+ pretty i +:+ ext].

(** The loop of [resolveNamingConflict], at most [fuel] rounds of it. *)
Fixpoint resolve_loop (fuel : nat) (fs : os.FS) (dir base ext : string) (i : nat)
  : option string :=
  match fuel with
  | O => None
  | S fuel' =>
      let newPath := candidate dir base ext i in
      if os.stat_not_exist (os.Stat fs newPath) then Some newPath
      else resolve_loop fuel' fs dir base ext (S i)
  end.

(** The number of paths the file system knows of. *)
Definition occupied (fs : os.FS) : gset string := dom (os.nodes fs) ∪ os.denied fs.

(** [resolveNamingConflict].  One round more than there are paths always
    finds a free name. *)
Definition resolveNamingConflict (fs : os.FS) (path : string) : string :=
  let '(dir, file) := filepath.Split path in
  let ext := filepath.Ext file in
  let base := TrimSuffix file ext in
  default path (resolve_loop (S (size (occupied fs))) fs dir base ext 1).

Inductive copy_error :=
| CopyOpen | CopyCreate | CopyContents | CopyStat | CopyChmod.

(** [copyFile]: what the file system is afterwards, and the error. *)
Definition copyFile (fs : os.FS) (src dest : string) : os.FS * option copy_error :=
  if negb (os.Open fs src) then (fs, Some CopyOpen)
  else match os.Create fs dest with
       | None => (fs, Some CopyCreate)
       | Some fs1 =>
           match c ← os.read_all fs1 src; os.write_all fs1 dest c with
           | None => (fs1, Some CopyContents)
           | Some fs2 =>
               match os.Stat fs2 src with
               | os.StatOk _ perm =>
                   match os.Chmod fs2 dest perm with
                   | Some fs3 => (fs3, None)
                   | None => (fs2, Some CopyChmod)
                   end
               | _ => (fs2, Some CopyStat)
               end
           end
       end.

(** [moveFile]. *)
Definition moveFile (fs : os.FS) (src dest : string) : os.FS * bool :=
  match os.Rename fs src dest with
  | Some fs' => (fs', true)
  | None => (fs, false)
  end.

(** *** One file *)

(** What the workers share: the file system, the [duplicates] map, the
    lines appended to [logFile] and the progress [state]. *)
Record World := mkWorld {
  w_fs : os.FS;
  w_duplicates : gmap string (list string);
  w_logFile : list string;
  w_state : State
}.

Inductive error :=
| ErrOpen | ErrSeek | ErrChecksum | ErrCopyDuplicate | ErrMkdir | ErrCopy.

(** How a call ends: it returns [nil] or an error, or it panics. *)
Inductive outcome :=
| Returned (err : option error)
| Panicked.

(** The creation date as [processFile] resolves it. *)
Definition resolveDate (fs : os.FS) (path : string) : time.Time :=
  let extension := ToLower (filepath.Ext path) in
  if isVideoFile extension then
    let '(date, err) := getVideoCreationDate fs path in
    match err with
    | Some _ => time.zero
    | None => date
    end
  else getPhotoCreationDate fs path time.zero.

(** The part of [processFile] before the lock is taken. *)
Definition prepare (fs : os.FS) (path : string) : error + time.Time * string :=
  if negb (os.Open fs path) then inl ErrOpen
  else
    let date := resolveDate fs path in
    if negb (os.Seek_start fs path) then inl ErrSeek
    else match calculateChecksum fs path with
         | None => inl ErrChecksum
         | Some checksum => inr (date, checksum)
         end.

(** A computed target, moved out of the way of an existing file. *)
Definition unconflicted (fs : os.FS) (target : string) : string :=
  if os.stat_ok (os.Stat fs target) then resolveNamingConflict fs target else target.

Definition duplicate_line (path first : string) : string :=
  "Duplicate detected: " +:+ path +:+ " (duplicate of: " +:+ first +:+ ")
".

(** The name of a dated file: stem, eight digits of the checksum, extension. *)
Definition destFileName (path checksum : string) : string :=
  TrimSuffix (filepath.Base path) (filepath.Ext path)
    +:+ "_" +:+ prefix 8 checksum +:+ filepath.Ext path.

Definition destFolder (destDir : string) (date : time.Time) : string :=
  filepath.Join [destDir; time.Format_year date; time.Format_month date; time.Format_day date].

(** "Determine the destination path": the no-data directory for a zero
    date, the year/month/day folder otherwise, which is created on the way.
    [None] is the failure of [os.MkdirAll]. *)
Definition destination (path destDir noDataDir : string) (date : time.Time)
    (checksum : string) (fs : os.FS) : option (os.FS * string) :=
  if time.IsZero date then
    Some (fs, unconflicted fs (filepath.Join [noDataDir; filepath.Base path]))
  else
    match os.MkdirAll fs (destFolder destDir date) with
    | None => None
    | Some fs1 =>
        Some (fs1, unconflicted fs1
                     (filepath.Join [destFolder destDir date; destFileName path checksum]))
    end.

(** The part of [processFile] under [mapLock]. *)
Definition critical (path destDir duplicatesDir noDataDir : string)
    (date : time.Time) (checksum : string) (w : World) : World * outcome :=
  let fs := w_fs w in
  match w_duplicates w !! checksum with
  | Some paths =>
      let duplicatePath := unconflicted fs (filepath.Join [duplicatesDir; filepath.Base path]) in
      match copyFile fs path duplicatePath with
      | (fs1, Some _) =>
          (mkWorld fs1 (w_duplicates w) (w_logFile w) (w_state w), Returned (Some ErrCopyDuplicate))
      | (fs1, None) =>
          let duplicates' := <[checksum := (paths ++ [path])%list]> (w_duplicates w) in
          let state' := IncrementDuplicates (w_state w) in
          match paths with
          | first :: _ =>
              (mkWorld fs1 duplicates' (w_logFile w ++ [duplicate_line path first])%list state',
               Returned None)
          | [] => (mkWorld fs1 duplicates' (w_logFile w) state', Panicked)
          end
      end
  | None =>
      match destination path destDir noDataDir date checksum fs with
      | None => (w, Returned (Some ErrMkdir))
      | Some (fs1, destPath) =>
          match copyFile fs1 path destPath with
          | (fs2, Some _) =>
              (mkWorld fs2 (w_duplicates w) (w_logFile w) (w_state w), Returned (Some ErrCopy))
          | (fs2, None) =>
              (mkWorld fs2 (<[checksum := [destPath]]> (w_duplicates w)) (w_logFile w) (w_state w),
               Returned None)
          end
      end
  end.

(** [processFile]. *)
Definition processFile (path destDir duplicatesDir noDataDir : string) (w : World)
  : World * outcome :=
  match prepare (w_fs w) path with
  | inl err => (w, Returned (Some err))
  | inr (date, checksum) => critical path destDir duplicatesDir noDataDir date checksum w
  end.

(** *** The worker pool of [ProcessFiles] *)

(** A worker goroutine, by the point of its loop body it has reached. *)
Inductive worker :=
| Waiting                                            (* at [range filePathChan] *)
| Received (path : string)                           (* in [processFile], before the lock *)
| Locking (path : string) (date : time.Time) (checksum : string)
| Finished (path : string) (err : option error)      (* [processFile] has returned *)
| ErrorCounted (path : string)                       (* after [state.IncrementError()] *)
| Counted (path : string) (failed : bool)            (* after [state.IncrementProcessed()] *)
| Crashed (path : string)                            (* a panic *)
| Exited.                                            (* the channel was closed: [wg.Done()] *)

(** The producer: the visits the walk still has to make, or the closed
    channel together with the error of the walk. *)
Inductive producer :=
| Walking (vs : list visit)
| Closed (err : bool).

(** [ticks] holds one entry for each [ProgressTickMsg] the messenger was
    sent: the file it was sent for and whether that file had failed. *)
Record Pool := mkPool {
  p_producer : producer;
  p_workers : list worker;
  p_world : World;
  p_ticks : list (string * bool)
}.

Definition eligible (name : string) (isDir : bool) : bool :=
  negb isDir && negb (HasPrefix name ".").

(** [os.OpenFile(logFilePath, O_APPEND|O_CREATE|O_WRONLY, 0644)]. *)
Definition open_log (fs : os.FS) (p : string) : option os.FS :=
  if decide (p ∈ os.denied fs) then None
  else match os.nodes fs !! p with
       | Some os.Dir => None
       | Some (os.Reg _) => Some fs
       | None => Some (os.with_nodes fs (<[p := os.Reg (os.mkFile os.empty_content 0x1a4 true true)]> (os.nodes fs)))
       end.

Definition duplicatesDir_of (destDir : string) : string := filepath.Join [destDir; "duplicates"].
Definition noDataDir_of (destDir : string) : string := filepath.Join [destDir; "nodata"].

(** [ProcessFiles] up to the start of the walk: the two directories, the
    log file, an empty [duplicates] map and [numWorkers] goroutines.
    [None] is a structural error. *)
Definition ProcessFiles_start (vs : list visit) (destDir logFilePath : string)
    (state : State) (fs : os.FS) (numWorkers : nat) : option Pool :=
  fs1 ← os.MkdirAll fs (duplicatesDir_of destDir);
  fs2 ← os.MkdirAll fs1 (noDataDir_of destDir);
  fs3 ← open_log fs2 logFilePath;
  Some (mkPool (Walking vs) (replicate numWorkers Waiting) (mkWorld fs3 ∅ [] state) []).

Definition set_state (w : World) (s : State) : World :=
  mkWorld (w_fs w) (w_duplicates w) (w_logFile w) s.

(** One atomic step of worker [i] or of the producer.  The channel has no
    buffer, so a path goes from the walk straight to a waiting worker. *)
Inductive step (destDir : string) : Pool -> Pool -> Prop :=
| step_skip path name isDir vs ws w t :
    eligible name isDir = false ->
    step destDir (mkPool (Walking (Entry path name isDir :: vs)) ws w t)
                 (mkPool (Walking vs) ws w t)
| step_send path name isDir vs ws w t i :
    eligible name isDir = true ->
    ws !! i = Some Waiting ->
    step destDir (mkPool (Walking (Entry path name isDir :: vs)) ws w t)
                 (mkPool (Walking vs) (<[i := Received path]> ws) w t)
| step_walk_error path vs ws w t :
    step destDir (mkPool (Walking (WalkError path :: vs)) ws w t)
                 (mkPool (Closed true) ws w t)
| step_walk_end ws w t :
    step destDir (mkPool (Walking []) ws w t) (mkPool (Closed false) ws w t)
| step_exit err ws w t i :
    ws !! i = Some Waiting ->
    step destDir (mkPool (Closed err) ws w t) (mkPool (Closed err) (<[i := Exited]> ws) w t)
| step_prepare pr ws w t i path :
    ws !! i = Some (Received path) ->
    step destDir (mkPool pr ws w t)
      (mkPool pr (<[i := match prepare (w_fs w) path with
                         | inl err => Finished path (Some err)
                         | inr (date, checksum) => Locking path date checksum
                         end]> ws) w t)
| step_critical pr ws w t i path date checksum w' out :
    ws !! i = Some (Locking path date checksum) ->
    critical path destDir (duplicatesDir_of destDir) (noDataDir_of destDir) date checksum w
      = (w', out) ->
    step destDir (mkPool pr ws w t)
      (mkPool pr (<[i := match out with
                         | Returned err => Finished path err
                         | Panicked => Crashed path
                         end]> ws) w' t)
| step_error pr ws w t i path err :
    ws !! i = Some (Finished path (Some err)) ->
    step destDir (mkPool pr ws w t)
      (mkPool pr (<[i := ErrorCounted path]> ws) (set_state w (IncrementError (w_state w))) t)
| step_processed_ok pr ws w t i path :
    ws !! i = Some (Finished path None) ->
    step destDir (mkPool pr ws w t)
      (mkPool pr (<[i := Counted path false]> ws) (set_state w (IncrementProcessed (w_state w))) t)
| step_processed_failed pr ws w t i path :
    ws !! i = Some (ErrorCounted path) ->
    step destDir (mkPool pr ws w t)
      (mkPool pr (<[i := Counted path true]> ws) (set_state w (IncrementProcessed (w_state w))) t)
| step_tick pr ws w t i path failed :
    ws !! i = Some (Counted path failed) ->
    step destDir (mkPool pr ws w t)
      (mkPool pr (<[i := Waiting]> ws) w (t ++ [(path, failed)])%list).

(** [wg.Wait()] returns: every worker has left its loop. *)
Definition completed (p : Pool) : Prop :=
  (exists err, p_producer p = Closed err) /\ Forall (fun wk => wk = Exited) (p_workers p).

(** The error [ProcessFiles] returns. *)
Definition ProcessFiles_result (p : Pool) : bool :=
  match p_producer p with Closed err => err | Walking _ => false end.

(** The files a walk hands to the workers. *)
Fixpoint walked (vs : list visit) : list string :=
  match vs with
  | [] => []
  | WalkError _ :: _ => []
  | Entry path name isDir :: vs' =>
      if eligible name isDir then path :: walked vs' else walked vs'
  end.

End photo.

(** * Notions used in the statements *)

Import Str filepath photo.

Definition slash_free (cs : chars) : Prop := Forall (fun c => is_slash c = false) cs.

(** What [Clean] puts in front of a last element. *)
Definition clean_front (rooted : bool) (dir : chars) : chars :=
  let st := fold_left (clean_step rooted) (filter (fun e => Is_true (proper e)) (split_sep dir)) [] in
  ((if rooted then [slash] else []) ++
   match rev st with [] => [] | es => join_sep es ++ [slash] end)%list.

(** A name that [Clean] leaves alone: an element that is neither empty,
    nor a dot, nor two dots. *)
Definition plain_name (name : chars) : Prop :=
  slash_free name /\ proper name = true /\ is_dotdot name = false.

Definition digits (cs : chars) : Prop := Forall (fun c => time.isDigit c = true) cs.

Definition underscore : ascii := "_"%char.

Definition suffixed (base ext : string) (i : nat) : string :=
  base +:+ "_" +:+ pretty i +:+ ext.

Definition free (fs : os.FS) (p : string) : Prop := os.Stat fs p = os.StatNotExist.

#[global] Instance free_dec fs p : Decision (free fs p).
Proof. unfold free. destruct (os.Stat fs p); (by left) || (right; congruence). Defined.

(** What one call changes: at most the node at [p]. *)
Definition touches (p : string) (fs fs' : os.FS) : Prop :=
  os.denied fs' = os.denied fs /\ os.dev fs' = os.dev fs /\
  (forall q, q <> p -> os.nodes fs' !! q = os.nodes fs !! q) /\
  (forall q, is_Some (os.nodes fs !! q) -> is_Some (os.nodes fs' !! q)).

(** The [duplicates] map of a pool. *)
Definition index (p : Pool) : gmap string (list string) := w_duplicates (p_world p).

(** ** A source tree

    Two photos with the same bytes and the same embedded date, a text file
    without metadata, and the three destination directories. *)

Module Sample.

Definition no_probe : yami.Probe := yami.mkProbe 0%N None.

Definition may_2020 : time.Time := time.mkTime 2020 5 1 10 0 0 0.

Definition photo_X : os.node :=
  os.Reg (os.mkFile (os.mkContent "X" (Some (exif.mkExif (Some may_2020))) no_probe) 0x1a4 true true).

Definition text_Y : os.node :=
  os.Reg (os.mkFile (os.mkContent "Y" None no_probe) 0x1a4 true true).

Definition tree : gmap string os.node :=
  list_to_map [("src/A.jpg", photo_X); ("src/B.jpg", photo_X); ("src/C.txt", text_Y);
               ("dest", os.Dir); ("dest/duplicates", os.Dir); ("dest/nodata", os.Dir)].

Definition fs0 : os.FS := os.mkFS tree ∅ (fun _ => 0).

(** The same tree with the duplicates directory out of reach. *)
Definition fs_denied : os.FS := os.mkFS tree {["dest/duplicates/B.jpg"]} (fun _ => 0).

(** The tree of the unit test of [resolveNamingConflict]. *)
Definition fs_test : os.FS :=
  os.mkFS (list_to_map [("tmp", os.Dir); ("tmp/test.txt", text_Y)]) ∅ (fun _ => 0).

Definition w0 : World := mkWorld fs0 ∅ [] (NewState 3).

Definition run (path : string) (w : World) : World * outcome :=
  processFile path "dest" (duplicatesDir_of "dest") (noDataDir_of "dest") w.

Definition wA : World := (run "src/A.jpg" w0).1.
Definition wAB : World := (run "src/B.jpg" wA).1.
Definition wABC : World := (run "src/C.txt" wAB).1.

(** The run on the tree whose duplicates directory is out of reach. *)
Definition wd0 : World := mkWorld fs_denied ∅ [] (NewState 3).
Definition wdA : World := (run "src/A.jpg" wd0).1.

(** One worker about to enter the critical section for the second photo. *)
Definition pool_B : Pool :=
  mkPool (Closed false) [Locking "src/B.jpg" may_2020 "02129bb861061d1a052c592e2dc6b383"] wA [].

Definition pool_B' : Pool := mkPool (Closed false) [Finished "src/B.jpg" None] wAB [].

Definition sum_X : string := "02129bb861061d1a052c592e2dc6b383".
Definition sum_Y : string := "57cec4137b614c87cb4e24a3d003a3e0".

End Sample.

(** ** Accounting of a run *)

(** The file a worker holds. *)
Definition holding (wk : worker) : option string :=
  match wk with
  | Received path | Locking path _ _ | Finished path _
  | ErrorCounted path | Counted path _ | Crashed path => Some path
  | Waiting | Exited => None
  end.

Definition in_flight (ws : list worker) : list string := omap holding ws.

(** The files the producer has still to send. *)
Definition remaining (pr : producer) : list string :=
  match pr with Walking vs => walked vs | Closed _ => [] end.

(** [i++] on a Go [int], and [n] of them. *)
Definition bump (z : Z) : Z := int_wrap (z + 1).
Definition after (n : nat) (z : Z) : Z := Nat.iter n bump z.

(** The number of workers that satisfy [f]. *)
Definition tally (f : worker -> bool) (ws : list worker) : nat :=
  sum_list_with (fun wk => if f wk then 1 else 0) ws.

Definition is_counted (wk : worker) : bool :=
  match wk with Counted _ _ => true | _ => false end.

Definition is_error_counted (wk : worker) : bool :=
  match wk with ErrorCounted _ | Counted _ true => true | _ => false end.

Definition is_succeeded (wk : worker) : bool :=
  match wk with Finished _ None | Counted _ false => true | _ => false end.

Definition is_crashed (wk : worker) : bool :=
  match wk with Crashed _ => true | _ => false end.

Definition is_exited (wk : worker) : bool :=
  match wk with Exited => true | _ => false end.

(** The walk meets an error. *)
Definition walk_fails (vs : list visit) : bool :=
  existsb (fun v => match v with WalkError _ => true | Entry _ _ _ => false end) vs.

Definition producer_fails (pr : producer) : bool :=
  match pr with Walking vs => walk_fails vs | Closed err => err end.

(** The ticks of the files that failed. *)
Definition failures (ticks : list (string * bool)) : list (string * bool) :=
  filter (fun t => Is_true t.2) ticks.

(** The paths the index holds, all entries together. *)
Definition recorded (m : gmap string (list string)) : nat :=
  map_fold (fun _ paths n => length paths + n) 0 m.

(** How far a worker is from the end of its loop, and the producer from
    the end of the walk. *)
Definition rank (wk : worker) : nat :=
  match wk with
  | Received _ => 6
  | Locking _ _ _ => 5
  | Finished _ _ => 4
  | ErrorCounted _ => 3
  | Counted _ _ => 2
  | Waiting => 1
  | Crashed _ | Exited => 0
  end.

Definition measure (p : Pool) : nat :=
  match p_producer p with
  | Walking vs => 7 * length vs + 1
  | Closed _ => 0
  end + sum_list_with rank (p_workers p).

(** What holds of every pool of a run that [ProcessFiles] starts on the
    walk [vs0] with the counters of [s0]. *)
Record accounted (vs0 : list visit) (s0 : State) (p : Pool) : Prop := {
  acc_files :
    walked vs0 ≡ₚ map fst (p_ticks p) ++ in_flight (p_workers p) ++ remaining (p_producer p);
  acc_processed :
    processed (w_state (p_world p))
    = after (length (p_ticks p) + tally is_counted (p_workers p)) (processed s0);
  acc_errors :
    errorCount (w_state (p_world p))
    = after (length (failures (p_ticks p)) + tally is_error_counted (p_workers p))
        (errorCount s0);
  acc_duplicates :
    duplicates (w_state (p_world p)) = after (length (w_logFile (p_world p))) (duplicates s0);
  acc_total : total (w_state (p_world p)) = total s0;
  acc_fails : producer_fails (p_producer p) = walk_fails vs0;
  acc_nonempty : map_Forall (fun _ paths => paths <> []) (index p);
  acc_no_crash : tally is_crashed (p_workers p) = 0;
  acc_outcomes :
    size (index p) + length (w_logFile (p_world p)) + length (failures (p_ticks p))
    = length (p_ticks p) + tally is_succeeded (p_workers p);
  acc_recorded : recorded (index p) = size (index p) + length (w_logFile (p_world p));
  acc_open :
    match p_producer p with
    | Walking _ => tally is_exited (p_workers p) = 0
    | Closed _ => True
    end
}.

(** ** A schedule

    One way to run the pool: a worker that holds a file goes on before
    anything else happens, the lowest such worker first. *)

Definition busy (wk : worker) : Prop := 2 <= rank wk.
Definition idle (wk : worker) : Prop := rank wk = 1.

#[global] Instance busy_dec wk : Decision (busy wk).
Proof. unfold busy. apply _. Defined.

#[global] Instance idle_dec wk : Decision (idle wk).
Proof. unfold idle. apply _. Defined.

Definition advance (destDir : string) (p : Pool) : option Pool :=
  let '(mkPool pr ws w t) := p in
  match list_find busy ws with
  | Some (i, Received path) =>
      Some (mkPool pr (<[i := match prepare (w_fs w) path with
                              | inl err => Finished path (Some err)
                              | inr (date, checksum) => Locking path date checksum
                              end]> ws) w t)
  | Some (i, Locking path date checksum) =>
      let '(w', out) :=
        critical path destDir (duplicatesDir_of destDir) (noDataDir_of destDir)
          date checksum w in
      Some (mkPool pr (<[i := match out with
                              | Returned err => Finished path err
                              | Panicked => Crashed path
                              end]> ws) w' t)
  | Some (i, Finished path (Some _)) =>
      Some (mkPool pr (<[i := ErrorCounted path]> ws)
              (set_state w (IncrementError (w_state w))) t)
  | Some (i, Finished path None) =>
      Some (mkPool pr (<[i := Counted path false]> ws)
              (set_state w (IncrementProcessed (w_state w))) t)
  | Some (i, ErrorCounted path) =>
      Some (mkPool pr (<[i := Counted path true]> ws)
              (set_state w (IncrementProcessed (w_state w))) t)
  | Some (i, Counted path failed) =>
      Some (mkPool pr (<[i := Waiting]> ws) w (t ++ [(path, failed)])%list)
  | Some (_, (Waiting | Crashed _ | Exited)) => None
  | None =>
      match pr with
      | Walking [] => Some (mkPool (Closed false) ws w t)
      | Walking (WalkError _ :: _) => Some (mkPool (Closed true) ws w t)
      | Walking (Entry path name isDir :: vs) =>
          if eligible name isDir then
            match list_find idle ws with
            | Some (i, _) => Some (mkPool (Walking vs) (<[i := Received path]> ws) w t)
            | None => None
            end
          else Some (mkPool (Walking vs) ws w t)
      | Closed err =>
          match list_find idle ws with
          | Some (i, _) => Some (mkPool (Closed err) (<[i := Exited]> ws) w t)
          | None => None
          end
      end
  end.

(** At most [n] steps of the schedule, and how many were taken. *)
Fixpoint schedule (destDir : string) (n : nat) (p : Pool) : nat * Pool :=
  match n with
  | O => (0, p)
  | S n' =>
      match advance destDir p with
      | Some p' => let '(k, q) := schedule destDir n' p' in (S k, q)
      | None => (0, p)
      end
  end.

(** ** A run on the source tree *)

Module Run.

Definition walk : list visit :=
  [Entry "src" "src" true; Entry "src/.hidden" ".hidden" false;
   Entry "src/A.jpg" "A.jpg" false; Entry "src/B.jpg" "B.jpg" false;
   Entry "src/C.txt" "C.txt" false; Entry "src/gone.jpg" "gone.jpg" false].

Definition nowhere : Pool := mkPool (Closed true) [] Sample.w0 [].

(** Two workers on the sample tree. *)
Definition start : Pool :=
  default nowhere
    (ProcessFiles_start walk "dest" "duplicates.log" (NewState 4) Sample.fs0 2).

Definition finish : Pool := (schedule "dest" 100 start).2.

(** The run whose walk is empty. *)
Definition start_empty : Pool :=
  default nowhere
    (ProcessFiles_start [] "dest" "duplicates.log" (NewState 0) Sample.fs0 2).

End Run.

(** ** Files that stay

    Every path of [fs] is a path of [fs'], with the node it had; the paths
    out of reach and the volumes are the same. *)
Definition extends (fs fs' : os.FS) : Prop :=
  os.denied fs' = os.denied fs /\ os.dev fs' = os.dev fs /\
  forall q n, os.nodes fs !! q = Some n -> os.nodes fs' !! q = Some n.

(** The sample tree with the destination on a volume of its own. *)
Definition fs_two_volumes : os.FS :=
  os.mkFS Sample.tree ∅ (fun p => if HasPrefix p "dest" then 1 else 0).


(** ** The methods of [State]

    Each method holds the mutex [mu] for its whole body, so that calls from
    several goroutines take effect one after the other, in some order. *)
Inductive method :=
| CallIncrementProcessed
| CallIncrementDuplicates
| CallIncrementError
| CallUpdateMessage (message : string).

Definition call (s : State) (m : method) : State :=
  match m with
  | CallIncrementProcessed => IncrementProcessed s
  | CallIncrementDuplicates => IncrementDuplicates s
  | CallIncrementError => IncrementError s
  | CallUpdateMessage message => UpdateMessage s message
  end.

Definition calls (ms : list method) (s : State) : State := fold_left call ms s.

(** How many of the calls satisfy [f]. *)
Definition times (f : method -> bool) (ms : list method) : nat :=
  sum_list_with (fun m => if f m then 1 else 0) ms.

Definition is_IncrementProcessed (m : method) : bool :=
  match m with CallIncrementProcessed => true | _ => false end.
Definition is_IncrementDuplicates (m : method) : bool :=
  match m with CallIncrementDuplicates => true | _ => false end.
Definition is_IncrementError (m : method) : bool :=
  match m with CallIncrementError => true | _ => false end.

Definition message_of (m : method) : option string :=
  match m with CallUpdateMessage message => Some message | _ => None end.

(** ** Package [main]: [main.go] *)

Module main.

(** The ways [main] ends before the pool starts: [os.Exit(1)] after the
    usage line, or one of the calls of [log.Fatalf]. *)
Inductive exit :=
| Usage
| SourceMissing
| DestinationFailed
| CountFailed
| ProcessFailed.

Definition logFilePath : string := "duplicates.log".

(** [main] up to the start of the workers.  [Args] is [os.Args];
    [counted] and [walked] are what [filepath.Walk] visits under the source
    directory in [CountFiles] and in [ProcessFiles]; [numCPU] is
    [runtime.NumCPU()].  The result is the destination directory together
    with the pool. *)
Definition start (Args : list string) (fs : os.FS) (counted walked : list visit)
    (numCPU : nat) : exit + string * Pool :=
  match Args with
  | _ :: sourceDir :: destDir :: _ =>
      if os.stat_not_exist (os.Stat fs sourceDir) then inl SourceMissing
      else match os.MkdirAll fs destDir with
           | None => inl DestinationFailed
           | Some fs1 =>
               match CountFiles counted with
               | None => inl CountFailed
               | Some totalFiles =>
                   match ProcessFiles_start walked destDir logFilePath
                           (NewState totalFiles) fs1 numCPU with
                   | None => inl ProcessFailed
                   | Some p => inr (destDir, p)
                   end
               end
           end
  | _ => inl Usage
  end.

End main.

(** The sample tree with its source directory, and the run of [main] on it. *)
Definition fs_main : os.FS :=
  os.with_nodes Sample.fs0 (<["src" := os.Dir]> Sample.tree).

Definition main_start : Pool :=
  match main.start ["dedupe"; "src"; "dest"] fs_main Run.walk Run.walk 2 with
  | inr (_, p) => p
  | inl _ => Run.nowhere
  end.

Definition main_finish : Pool := (schedule "dest" 100 main_start).2.

(** ** Strings of ASCII bytes

    On these, the case mapping of [Str] is that of package [strings]. *)
Definition ascii_only (s : string) : Prop :=
  Forall (fun c => nat_of_ascii c < 128) (to_chars s).

#[global] Instance ascii_only_dec s : Decision (ascii_only s).
Proof. unfold ascii_only. apply _. Defined.

(** The digits of [hex.EncodeToString]. *)
Definition lower_hex (c : ascii) : Prop := c ∈ hex.hextable.

(** A video with a tagged date, which the prober reports in two seconds. *)
Definition video_V : os.node :=
  os.Reg (os.mkFile
            (os.mkContent "V" None
               (yami.mkProbe 2000000000%N
                  (Some (yami.mkInfo (Some (yami.mkTrack "2021-07-04 12:30:45 UTC"))))))
            0x1a4 true true).

Definition fs_video : os.FS :=
  os.with_nodes Sample.fs0 (<["src/V.MP4" := video_V]> Sample.tree).

(** [t.Format("2006-01-02 15:04:05 UTC")], the layout of the tagged date. *)
Definition Format_tagged (t : time.Time) : string :=
  pad 4 (time.Year t) +:+ "-" +:+ pad 2 (time.Month t) +:+ "-" +:+ pad 2 (time.Day t)
    +:+ " " +:+ pad 2 (time.Hour t) +:+ ":" +:+ pad 2 (time.Minute t) +:+ ":"
    +:+ pad 2 (time.Second t) +:+ " UTC".

(** A date and a time of day that exist, in a year of four digits. *)
Definition valid (t : time.Time) : Prop :=
  (Z.of_nat (time.Year t) <= 9999)%Z /\ 1 <= time.Month t <= 12 /\
  1 <= time.Day t <= time.daysIn (time.Month t) (time.Year t) /\
  time.Hour t < 24 /\ time.Minute t < 60 /\ time.Second t < 60.

(** Two digits are read back as the number they were written for, and so
    are four. *)
Definition reads_back2 (n : nat) : bool :=
  match to_chars (pad 2 n) with
  | [a; b] => time.isDigit a && time.isDigit b
              && Nat.eqb (10 * time.digit_val a + time.digit_val b) n
  | _ => false
  end.

Definition reads_back4 (n : nat) : bool :=
  match to_chars (pad 4 n) with
  | [a; b; c; d] =>
      forallb time.isDigit [a; b; c; d] && Nat.eqb (time.atoi [a; b; c; d]) n
  | _ => false
  end.


(** ** Paths in clean form

    A path that [Clean] leaves as it is: plain names with one separator
    between them, after the root or not. *)
Definition simple (s : string) : Prop :=
  exists (rooted : bool) (es : list chars),
    es <> [] /\ Forall plain_name es /\
    to_chars s = ((if rooted then [slash] else []) ++ join_sep es)%list.

#[global] Instance lower_hex_dec c : Decision (lower_hex c).
Proof. unfold lower_hex. apply _. Defined.

#[global] Instance slash_free_dec cs : Decision (slash_free cs).
Proof. unfold slash_free. apply _. Defined.


(** ** The duplicate log

    The lines the index accounts for: one for each path after the first of
    an entry, naming that path and the first path of the entry. *)
Definition entry_lines (e : string * list string) : list string :=
  match e.2 with
  | first :: rest => map (fun path => duplicate_line path first) rest
  | [] => []
  end.

Definition expected_log (m : gmap string (list string)) : list string :=
  flat_map entry_lines (map_to_list m).

(** A byte inside an extension or a stem: neither a separator nor a dot. *)
Definition inner (c : ascii) : Prop := is_slash c = false /\ is_dot c = false.

(** ** The index and the files

    Every path recorded under a checksum names a file with that checksum,
    and so does the path of a worker that waits for the lock. *)
Definition recorded_right (fs : os.FS) (m : gmap string (list string)) : Prop :=
  forall checksum paths, m !! checksum = Some paths ->
    Forall (fun q => calculateChecksum fs q = Some checksum) paths.

Definition checked (fs : os.FS) (wk : worker) : Prop :=
  match wk with
  | Locking path _ checksum => calculateChecksum fs path = Some checksum
  | _ => True
  end.

Definition sound (p : Pool) : Prop :=
  recorded_right (w_fs (p_world p)) (index p) /\
  Forall (checked (w_fs (p_world p))) (p_workers p).

(** * Properties *)

(** ** Byte strings and their characters *)

Lemma to_of_chars (cs : chars) : to_chars (of_chars cs) = cs.
Proof. apply list_ascii_of_string_of_list_ascii. Qed.

Lemma of_to_chars (s : string) : of_chars (to_chars s) = s.
Proof. apply string_of_list_ascii_of_string. Qed.

Lemma of_chars_inj (a b : chars) : of_chars a = of_chars b -> a = b.
Proof. intros H. rewrite <- (to_of_chars a), <- (to_of_chars b). by rewrite H. Qed.

Lemma to_chars_inj (a b : string) : to_chars a = to_chars b -> a = b.
Proof. intros H. rewrite <- (of_to_chars a), <- (of_to_chars b). by rewrite H. Qed.

Lemma to_chars_app (a b : string) : to_chars (a +:+ b) = (to_chars a ++ to_chars b)%list.
Proof. induction a as [|c a IH]; simpl; [done | by rewrite IH]. Qed.

Lemma to_chars_length (s : string) : length (to_chars s) = String.length s.
Proof. induction s; simpl; congruence. Qed.


Lemma is_slash_true c : is_slash c = true -> c = slash.
Proof. unfold is_slash. apply Ascii.eqb_eq. Qed.

(** ** The elements of a path *)

Lemma split_sep_cons (cs : chars) : exists e es, split_sep cs = e :: es.
Proof.
  induction cs as [|c r [e [es IH]]]; simpl; [eauto|].
  destruct (is_slash c); [eauto|]. rewrite IH. eauto.
Qed.

Lemma split_sep_slash_free (cs : chars) : slash_free cs -> split_sep cs = [cs].
Proof.
  induction 1 as [|c r Hc _ IH]; simpl; [done|]. by rewrite Hc, IH.
Qed.

Lemma split_sep_app (xs ys : chars) :
  split_sep (xs ++ slash :: ys) = (split_sep xs ++ split_sep ys)%list.
Proof.
  induction xs as [|c r IH]; simpl; [done|].
  destruct (is_slash c); [by rewrite IH|].
  rewrite IH. destruct (split_sep_cons r) as [e [es ->]]. done.
Qed.

Lemma join_sep_snoc (es : list chars) (e : chars) :
  join_sep (es ++ [e]) =
  (match es with [] => [] | _ => join_sep es ++ [slash] end ++ e)%list.
Proof.
  induction es as [|a es IH]; [done|].
  destruct es as [|b es]; [cbn; by rewrite <- app_assoc|].
  change (join_sep ((a :: b :: es) ++ [e])) with (a ++ slash :: join_sep ((b :: es) ++ [e]))%list.
  rewrite IH. change (join_sep (a :: b :: es)) with (a ++ slash :: join_sep (b :: es))%list.
  by rewrite <- !app_assoc.
Qed.



Lemma clean_step_plain rooted st name :
  is_dotdot name = false -> clean_step rooted st name = name :: st.
Proof. intros H. unfold clean_step. by rewrite H. Qed.

Lemma clean_chars_last (dir name : chars) :
  dir <> [] -> plain_name name ->
  clean_chars (dir ++ slash :: name) =
  (clean_front (match dir with c :: _ => is_slash c | [] => false end) dir ++ name)%list.
Proof.
  intros Hdir (Hsf & Hp & Hdd). unfold clean_chars, clean_front.
  destruct dir as [|c dir']; [done|]. cbn [app].
  set (rooted := is_slash c).
  change (c :: (dir' ++ slash :: name)%list) with ((c :: dir') ++ slash :: name)%list.
  rewrite split_sep_app, (split_sep_slash_free name Hsf), filter_app, fold_left_app.
  rewrite filter_cons_True, filter_nil by (by rewrite Hp).
  cbn [fold_left]. set (st := fold_left _ _ _).
  rewrite !clean_step_plain by done. cbn [rev]. rewrite join_sep_snoc.
  by destruct (rev st), rooted.
Qed.

Lemma clean_chars_single (name : chars) :
  plain_name name -> clean_chars name = name.
Proof.
  intros (Hsf & Hp & Hdd). unfold clean_chars.
  rewrite (split_sep_slash_free name Hsf), filter_cons_True, filter_nil by (by rewrite Hp).
  cbn [fold_left]. rewrite !clean_step_plain by done. cbn.
  destruct name as [|c r]; [done|]. inversion Hsf as [|? ? Hc]; subst. by rewrite Hc.
Qed.

(** [Join] of a directory and a plain name ends in that name. *)
Lemma Join_dir_name (dir : string) :
  exists front, forall name, plain_name (to_chars name) ->
    Join [dir; name] = of_chars (front ++ to_chars name)%list.
Proof.
  destruct (decide (dir = "")) as [->|Hdir].
  - exists []. intros name Hn. cbn [Join]. rewrite bool_decide_eq_true_2 by done.
    assert (name <> "") as Hne.
    { intros ->. destruct Hn as (_ & Hp & _). done. }
    rewrite bool_decide_eq_false_2 by done. cbn [concat_sep]. unfold Clean.
    by rewrite clean_chars_single.
  - exists (clean_front (match to_chars dir with c :: _ => is_slash c | [] => false end) (to_chars dir)).
    intros name Hn. cbn [Join]. rewrite bool_decide_eq_false_2 by done.
    cbn [concat_sep]. unfold Clean. rewrite !to_chars_app. cbn [to_chars list_ascii_of_string app].
    rewrite clean_chars_last; [done| |done].
    intros Hnil. apply Hdir. apply to_chars_inj. by rewrite Hnil.
Qed.

(** ** Decimal numbers *)


Lemma pretty_N_char_digit (x : N) : time.isDigit (pretty_N_char x) = true.
Proof. unfold pretty_N_char. by repeat case_match. Qed.

Lemma pretty_N_go_digits (x : N) (s : string) :
  digits (to_chars s) -> digits (to_chars (pretty_N_go x s)).
Proof.
  revert s. induction (N.lt_wf_0 x) as [x _ IH]; intros s Hs.
  destruct (decide (x = 0)%N) as [->|Hx]; [by rewrite pretty_N_go_0|].
  rewrite pretty_N_go_step by lia. apply IH.
  - apply N.div_lt; lia.
  - constructor; [apply pretty_N_char_digit | done].
Qed.

Lemma pretty_nat_digits (n : nat) : digits (to_chars (pretty n)).
Proof.
  unfold pretty, pretty_nat, pretty, pretty_N. case_decide.
  - by repeat constructor.
  - apply pretty_N_go_digits. constructor.
Qed.

Lemma digits_slash_free (cs : chars) : digits cs -> slash_free cs.
Proof.
  intros H. eapply Forall_impl; [exact H|]. intros c Hc. cbn beta in *.
  destruct (is_slash c) eqn:E; [|done]. apply is_slash_true in E. by subst.
Qed.

(** ** The names [resolveNamingConflict] tries *)



Lemma suffixed_chars base ext i :
  to_chars (suffixed base ext i) =
  (to_chars base ++ underscore :: to_chars (pretty i) ++ to_chars ext)%list.
Proof. unfold suffixed. by rewrite !to_chars_app. Qed.

Lemma suffixed_plain base ext i :
  slash_free (to_chars base) -> slash_free (to_chars ext) ->
  plain_name (to_chars (suffixed base ext i)).
Proof.
  intros Hb He. rewrite suffixed_chars. split; [|split].
  - apply Forall_app; split; [done|]. constructor; [done|].
    apply Forall_app; split; [|done]. apply digits_slash_free, pretty_nat_digits.
  - unfold proper. rewrite !bool_decide_eq_false_2; [done| |].
    + intros H. assert (underscore ∈ [dot]) as Hin by (rewrite <- H; set_solver).
      apply list_elem_of_singleton in Hin. discriminate.
    + intros H. by destruct (to_chars base).
  - unfold is_dotdot. rewrite bool_decide_eq_false_2; [done|].
    intros H. assert (underscore ∈ dotdot) as Hin by (rewrite <- H; set_solver).
    unfold dotdot in Hin. apply list_elem_of_In in Hin. simpl in Hin.
    destruct Hin as [Hin|[Hin|[]]]; discriminate.
Qed.

Lemma suffixed_inj base ext i j : suffixed base ext i = suffixed base ext j -> i = j.
Proof.
  intros H. apply (f_equal to_chars) in H. rewrite !suffixed_chars in H.
  apply app_inv_head in H. injection H as H. apply app_inv_tail in H.
  apply to_chars_inj in H. by apply (inj pretty).
Qed.

Lemma candidate_eq dir base ext i :
  photo.candidate dir base ext i = Join [dir; suffixed base ext i].
Proof. done. Qed.

Lemma candidate_inj dir base ext i j :
  slash_free (to_chars base) -> slash_free (to_chars ext) ->
  photo.candidate dir base ext i = photo.candidate dir base ext j -> i = j.
Proof.
  intros Hb He. rewrite !candidate_eq.
  destruct (Join_dir_name dir) as [front Hfront].
  rewrite !Hfront by by apply suffixed_plain.
  intros H. apply of_chars_inj, app_inv_head, to_chars_inj in H.
  by apply suffixed_inj in H.
Qed.

(** The file part of [Split] has no separator, nor have the extension and
    the stem taken from it. *)
Lemma split_scan_slash_free rcs acc :
  slash_free acc -> slash_free (split_scan rcs acc).2.
Proof.
  revert acc. induction rcs as [|c r IH]; intros acc Hacc; simpl; [done|].
  destruct (is_slash c) eqn:E; [done|]. apply IH. by constructor.
Qed.

Lemma Split_file_slash_free p : slash_free (to_chars (Split p).2).
Proof.
  unfold Split. pose proof (split_scan_slash_free (rev (to_chars p)) [] (Forall_nil_2 _)) as H.
  destruct (split_scan _ _) as [rdir file]. simpl in *. by rewrite to_of_chars.
Qed.

Lemma ext_scan_slash_free rcs acc :
  slash_free rcs -> slash_free acc -> slash_free (ext_scan rcs acc).
Proof.
  intros Hr. revert acc. induction Hr as [|c r Hc Hr IH]; intros acc Hacc; simpl; [constructor|].
  rewrite Hc. destruct (is_dot c); [by constructor|]. apply IH. by constructor.
Qed.

Lemma Ext_slash_free p : slash_free (to_chars p) -> slash_free (to_chars (Ext p)).
Proof.
  intros H. unfold Ext. rewrite to_of_chars. apply ext_scan_slash_free; [|constructor].
  by apply Forall_rev.
Qed.

Lemma TrimSuffix_slash_free s suffix :
  slash_free (to_chars s) -> slash_free (to_chars (TrimSuffix s suffix)).
Proof.
  intros H. unfold TrimSuffix. destruct (HasSuffix s suffix); [|done].
  rewrite to_of_chars. by apply Forall_take.
Qed.

(** ** [resolveNamingConflict] *)



Lemma free_iff fs p : free fs p <-> p ∉ occupied fs.
Proof.
  unfold free, occupied, os.Stat. rewrite not_elem_of_union, not_elem_of_dom.
  case_decide as Hd.
  - split; [done | tauto].
  - destruct (os.nodes fs !! p) as [[|f]|] eqn:E; split; try done; intros [? ?]; done.
Qed.

Lemma stat_not_exist_free fs p : os.stat_not_exist (os.Stat fs p) = true <-> free fs p.
Proof. unfold free. destruct (os.Stat fs p); simpl; split; congruence. Qed.

(** The loop returns the first free name at or after [i], when one lies
    within its rounds. *)
Lemma resolve_loop_first fs dir base ext fuel i j :
  i <= j < i + fuel ->
  free fs (candidate dir base ext j) ->
  (forall k, i <= k < j -> ~ free fs (candidate dir base ext k)) ->
  resolve_loop fuel fs dir base ext i = Some (candidate dir base ext j).
Proof.
  revert i. induction fuel as [|fuel IH]; intros i Hij Hfree Hmin; [lia|].
  cbn [resolve_loop]. destruct (decide (i = j)) as [->|Hne].
  - apply stat_not_exist_free in Hfree. by rewrite Hfree.
  - destruct (os.stat_not_exist _) eqn:E.
    + apply stat_not_exist_free in E. destruct (Hmin i); [lia | done].
    + apply IH; [lia | done |]. intros k Hk. apply Hmin. lia.
Qed.

(** Among more names than there are paths, one is free. *)
Lemma some_candidate_free fs dir base ext :
  slash_free (to_chars base) -> slash_free (to_chars ext) ->
  exists j, 1 <= j <= S (size (occupied fs)) /\ free fs (candidate dir base ext j).
Proof.
  intros Hb He.
  set (n := size (occupied fs)).
  set (names := candidate dir base ext <$> seq 1 (S n)).
  destruct (decide (Forall (fun p => p ∈ occupied fs) names)) as [Hall|Hsome].
  - exfalso.
    assert (NoDup names) as Hnd.
    { apply NoDup_fmap_2_strong; [|apply NoDup_seq].
      intros i j _ _. by apply candidate_inj. }
    assert (length names <= n); [|unfold names in *; rewrite length_fmap, length_seq in *; lia].
    unfold n. rewrite <- (size_list_to_set (C := gset string) names) by done.
    apply subseteq_size. intros p Hp. apply elem_of_list_to_set in Hp.
    rewrite Forall_forall in Hall. by apply Hall.
  - apply not_Forall_Exists in Hsome; [|apply _].
    apply Exists_exists in Hsome as (p & Hp & Hfree).
    apply list_elem_of_fmap in Hp as (j & -> & Hj). apply elem_of_seq in Hj.
    exists j. split; [lia|]. by apply free_iff.
Qed.

(** The least element of a non-empty decidable set of numbers. *)
Lemma least_from (P : nat -> Prop) `{!forall n, Decision (P n)} (i j : nat) :
  i <= j -> P j ->
  exists m, i <= m <= j /\ P m /\ forall k, i <= k < m -> ~ P k.
Proof.
  intros Hij Hj. remember (j - i) as d eqn:Hd. revert i Hij Hd.
  induction d as [|d IH]; intros i Hij Hd.
  - assert (i = j) as -> by lia. exists j. repeat split; [lia..|done|]. intros k Hk. lia.
  - destruct (decide (P i)) as [Hi|Hi].
    + exists i. repeat split; [lia..|done|]. intros k Hk. lia.
    + destruct (IH (S i)) as (m & Hm & HPm & Hmin); [lia..|].
      exists m. repeat split; [lia..|done|]. intros k Hk.
      destruct (decide (k = i)) as [->|]; [done|]. apply Hmin. lia.
Qed.


(** [resolveNamingConflict] returns, and what it returns is the first free
    name, counting from 1. *)
Lemma resolveNamingConflict_first fs path :
  let '(dir, file) := Split path in
  let ext := Ext file in
  let base := TrimSuffix file ext in
  exists i, 1 <= i /\
    resolve_loop (S (size (occupied fs))) fs dir base ext 1 = Some (candidate dir base ext i) /\
    resolveNamingConflict fs path = candidate dir base ext i /\
    free fs (candidate dir base ext i) /\
    forall j, 1 <= j < i -> ~ free fs (candidate dir base ext j).
Proof.
  unfold resolveNamingConflict.
  pose proof (Split_file_slash_free path) as Hfile.
  destruct (Split path) as [dir file]. simpl in Hfile. cbn zeta.
  assert (slash_free (to_chars (Ext file))) as He by by apply Ext_slash_free.
  assert (slash_free (to_chars (TrimSuffix file (Ext file)))) as Hb
    by by apply TrimSuffix_slash_free.
  destruct (some_candidate_free fs dir _ _ Hb He) as (j & Hj & Hfree).
  destruct (least_from (fun k => free fs (candidate dir (TrimSuffix file (Ext file)) (Ext file) k)) 1 j)
    as (m & Hm & HPm & Hmin); [lia | done |].
  exists m. assert (resolve_loop (S (size (occupied fs))) fs dir
                      (TrimSuffix file (Ext file)) (Ext file) 1
                    = Some (candidate dir (TrimSuffix file (Ext file)) (Ext file) m)) as Hloop.
  { apply resolve_loop_first; [lia | done | done]. }
  rewrite Hloop. repeat split; [lia | done..].
Qed.

(** The first free name is the only one the function can return. *)
Lemma resolveNamingConflict_eq fs path i :
  let dir := (Split path).1 in
  let file := (Split path).2 in
  let ext := Ext file in
  let base := TrimSuffix file ext in
  1 <= i ->
  free fs (candidate dir base ext i) ->
  (forall j, 1 <= j < i -> ~ free fs (candidate dir base ext j)) ->
  resolveNamingConflict fs path = candidate dir base ext i.
Proof.
  intros dir file ext base Hi Hfree Hmin.
  pose proof (resolveNamingConflict_first fs path) as H.
  subst dir file ext base. destruct (Split path) as [dir file]. cbn [fst snd] in *.
  destruct H as (m & Hm & _ & -> & Hfm & Hminm).
  destruct (Nat.lt_trichotomy m i) as [Hlt|[->|Hgt]]; [|done|].
  - destruct (Hmin m); [lia | done].
  - destruct (Hminm i); [lia | done].
Qed.

(** ** The file system under [copyFile] *)

Lemma with_nodes_denied fs m : os.denied (os.with_nodes fs m) = os.denied fs.
Proof. done. Qed.

Lemma touches_refl p fs : touches p fs fs.
Proof. by repeat split. Qed.

Lemma touches_trans p fs1 fs2 fs3 : touches p fs1 fs2 -> touches p fs2 fs3 -> touches p fs1 fs3.
Proof.
  intros (Hd1 & Hv1 & Ho1 & He1) (Hd2 & Hv2 & Ho2 & He2). repeat split.
  - congruence.
  - congruence.
  - intros q Hq. rewrite Ho2, Ho1; done.
  - intros q Hq. auto.
Qed.

Lemma touches_insert p fs n :
  touches p fs (os.with_nodes fs (<[p := n]> (os.nodes fs))).
Proof.
  repeat split; cbn.
  - intros q Hq. by rewrite lookup_insert_ne.
  - intros q Hq. destruct (decide (p = q)) as [->|Hne].
    + rewrite lookup_insert_eq. eauto.
    + by rewrite lookup_insert_ne.
Qed.

Lemma Create_touches fs p fs' : os.Create fs p = Some fs' ->
  touches p fs fs' /\ (p ∉ os.denied fs) /\
  exists f, os.nodes fs' !! p = Some (os.Reg f) /\ os.body f = os.empty_content.
Proof.
  unfold os.Create. case_decide as Hd; [done|].
  destruct (os.nodes fs !! p) as [[|f]|] eqn:E; [done| |]; intros [= <-];
    (split; [apply touches_insert|]); (split; [done|]); cbn;
    rewrite lookup_insert_eq; eauto.
Qed.

Lemma write_all_touches fs p c fs' : os.write_all fs p c = Some fs' ->
  touches p fs fs' /\ exists f, os.nodes fs' !! p = Some (os.Reg f) /\ os.body f = c.
Proof.
  unfold os.write_all. destruct (os.nodes fs !! p) as [[|f]|] eqn:E; [done| |done].
  intros [= <-]. split; [apply touches_insert|]. cbn. rewrite lookup_insert_eq. eauto.
Qed.

Lemma Chmod_touches fs p m fs' : os.Chmod fs p m = Some fs' ->
  touches p fs fs' /\
  forall f, os.nodes fs !! p = Some (os.Reg f) ->
    exists f', os.nodes fs' !! p = Some (os.Reg f') /\ os.body f' = os.body f.
Proof.
  unfold os.Chmod. case_decide as Hd; [done|].
  destruct (os.nodes fs !! p) as [[|f]|] eqn:E; [| |done]; intros [= <-].
  - split; [apply touches_refl|]. intros f Hf. congruence.
  - split; [apply touches_insert|]. intros f0 [= <-]. cbn. rewrite lookup_insert_eq. eauto.
Qed.

Lemma MkdirAll_touches fs p fs' : os.MkdirAll fs p = Some fs' ->
  touches p fs fs' /\ os.nodes fs' !! p = Some os.Dir.
Proof.
  unfold os.MkdirAll. case_decide as Hd; [done|].
  destruct (os.nodes fs !! p) as [[|f]|] eqn:E; [|done|]; intros [= <-].
  - split; [apply touches_refl | done].
  - split; [apply touches_insert|]. cbn. by rewrite lookup_insert_eq.
Qed.

(** [copyFile] changes the destination only, whatever it returns. *)
Lemma copyFile_touches fs src dest fs' err :
  copyFile fs src dest = (fs', err) -> touches dest fs fs'.
Proof.
  unfold copyFile. destruct (os.Open fs src); cbn [negb]; [|intros [= <- <-]; apply touches_refl].
  destruct (os.Create fs dest) as [fs1|] eqn:HC; [|intros [= <- <-]; apply touches_refl].
  apply Create_touches in HC as (HC & _).
  destruct (os.read_all fs1 src) as [c|] eqn:HR; cbn [mbind option_bind];
    [|intros [= <- <-]; done].
  destruct (os.write_all fs1 dest c) as [fs2|] eqn:HW; [|intros [= <- <-]; done].
  apply write_all_touches in HW as (HW & _).
  pose proof (touches_trans _ _ _ _ HC HW) as H2.
  destruct (os.Stat fs2 src) as [d perm| |]; [|intros [= <- <-]; done..].
  destruct (os.Chmod fs2 dest perm) as [fs3|] eqn:HM; intros [= <- <-]; [|done].
  apply Chmod_touches in HM as (HM & _). by eapply touches_trans.
Qed.

(** A successful [copyFile] leaves a regular file at the destination, with
    the bytes of the source. *)
Lemma copyFile_placed fs src dest fs' :
  copyFile fs src dest = (fs', None) ->
  (dest ∉ os.denied fs) /\
  exists f, os.nodes fs' !! dest = Some (os.Reg f) /\
            (src <> dest -> os.read_all fs src = Some (os.body f)).
Proof.
  unfold copyFile. destruct (os.Open fs src); cbn [negb]; [|done].
  destruct (os.Create fs dest) as [fs1|] eqn:HC; [|done].
  apply Create_touches in HC as (HC & Hnd & _).
  destruct (os.read_all fs1 src) as [c|] eqn:HR; cbn [mbind option_bind]; [|done].
  destruct (os.write_all fs1 dest c) as [fs2|] eqn:HW; [|done].
  apply write_all_touches in HW as (HW & f & Hf & Hc).
  destruct (os.Stat fs2 src) as [d perm| |]; [|done..].
  destruct (os.Chmod fs2 dest perm) as [fs3|] eqn:HM; [|done]. intros [= <-].
  apply Chmod_touches in HM as (HM & Hbody). destruct (Hbody f Hf) as (f' & Hf' & Hb').
  split; [done|]. exists f'. split; [done|]. intros Hne.
  rewrite Hb', Hc, <- HR. unfold os.read_all.
  destruct HC as (_ & _ & Ho & _). by rewrite Ho.
Qed.

Lemma touches_free p q fs fs' : touches p fs fs' -> q <> p -> free fs q -> free fs' q.
Proof.
  intros (Hd & _ & Ho & _) Hq. unfold free, os.Stat. by rewrite Hd, Ho.
Qed.



(** The unit test of [resolveNamingConflict]: [test_1.txt], then [test_2.txt]. *)
Example resolveNamingConflict_test :
  resolveNamingConflict Sample.fs_test "tmp/test.txt" = "tmp/test_1.txt" /\
  resolveNamingConflict (copyFile Sample.fs_test "tmp/test.txt" "tmp/test_1.txt").1 "tmp/test.txt"
    = "tmp/test_2.txt".
Proof. split; vm_compute; reflexivity. Qed.

(** ** One call of [processFile] *)

(** The branch of a checksum that is known. *)
Lemma critical_known path destDir duplicatesDir noDataDir date checksum w paths w' out :
  w_duplicates w !! checksum = Some paths ->
  critical path destDir duplicatesDir noDataDir date checksum w = (w', out) ->
  exists cerr,
    copyFile (w_fs w) path (unconflicted (w_fs w) (Join [duplicatesDir; Base path]))
      = (w_fs w', cerr) /\
    match cerr with
    | Some _ =>
        out = Returned (Some ErrCopyDuplicate) /\ w_duplicates w' = w_duplicates w /\
        w_state w' = w_state w /\ w_logFile w' = w_logFile w
    | None =>
        w_duplicates w' = <[checksum := (paths ++ [path])%list]> (w_duplicates w) /\
        w_state w' = IncrementDuplicates (w_state w) /\
        match paths with
        | first :: _ =>
            out = Returned None /\
            w_logFile w' = (w_logFile w ++ [duplicate_line path first])%list
        | [] => out = Panicked /\ w_logFile w' = w_logFile w
        end
    end.
Proof.
  intros Hk. unfold critical. rewrite Hk.
  destruct (copyFile _ _ _) as [fs1 [cerr|]] eqn:Hcopy.
  - intros [= <- <-]. exists (Some cerr). by repeat split.
  - destruct paths as [|first rest]; intros [= <- <-]; exists None; by repeat split.
Qed.

(** The branch of a checksum that is not known yet. *)
Lemma critical_unknown path destDir duplicatesDir noDataDir date checksum w w' out :
  w_duplicates w !! checksum = None ->
  critical path destDir duplicatesDir noDataDir date checksum w = (w', out) ->
  w_state w' = w_state w /\ w_logFile w' = w_logFile w /\
  match destination path destDir noDataDir date checksum (w_fs w) with
  | None => out = Returned (Some ErrMkdir) /\ w' = w
  | Some (fs1, destPath) =>
      exists cerr, copyFile fs1 path destPath = (w_fs w', cerr) /\
        match cerr with
        | Some _ => out = Returned (Some ErrCopy) /\ w_duplicates w' = w_duplicates w
        | None => out = Returned None /\
                  w_duplicates w' = <[checksum := [destPath]]> (w_duplicates w)
        end
  end.
Proof.
  intros Hk. unfold critical. rewrite Hk.
  destruct (destination _ _ _ _ _ _) as [[fs1 destPath]|]; [|by intros [= <- <-]].
  destruct (copyFile _ _ _) as [fs2 [cerr|]] eqn:Hcopy; intros [= <- <-].
  - repeat split. exists (Some cerr). by repeat split.
  - repeat split. exists None. by repeat split.
Qed.

(** [processFile] is its two parts. *)
Lemma processFile_prepared path destDir duplicatesDir noDataDir w date checksum :
  prepare (w_fs w) path = inr (date, checksum) ->
  processFile path destDir duplicatesDir noDataDir w
  = critical path destDir duplicatesDir noDataDir date checksum w.
Proof. intros H. unfold processFile. by rewrite H. Qed.

Lemma processFile_unprepared path destDir duplicatesDir noDataDir w err :
  prepare (w_fs w) path = inl err ->
  processFile path destDir duplicatesDir noDataDir w = (w, Returned (Some err)).
Proof. intros H. unfold processFile. by rewrite H. Qed.

(** An error of the critical section leaves the index, the counters and
    the log as they were. *)
Lemma critical_error path destDir duplicatesDir noDataDir date checksum w w' err :
  critical path destDir duplicatesDir noDataDir date checksum w = (w', Returned (Some err)) ->
  w_duplicates w' = w_duplicates w /\ w_state w' = w_state w /\ w_logFile w' = w_logFile w.
Proof.
  intros H. destruct (w_duplicates w !! checksum) as [paths|] eqn:Hk.
  - destruct (critical_known _ _ _ _ _ _ _ _ _ _ Hk H) as ([cerr|] & _ & Hc).
    + tauto.
    + destruct Hc as (_ & _ & Hc). destruct paths; destruct Hc; discriminate.
  - destruct (critical_unknown _ _ _ _ _ _ _ _ _ Hk H) as (Hs & Hl & Hc).
    repeat split; [|done..].
    destruct (destination _ _ _ _ _ _) as [[fs1 destPath]|].
    + destruct Hc as ([cerr|] & _ & Hc); [tauto|]. destruct Hc; discriminate.
    + destruct Hc as [_ ->]. done.
Qed.

(** C10: when [processFile] returns an error, the [duplicates] map is what
    it was (no checksum is registered and no path is appended), and so are
    the duplicate counter and the duplicate log. *)
Theorem C10_error_leaves_index (path destDir duplicatesDir noDataDir : string)
    (w w' : World) (err : error) :
  processFile path destDir duplicatesDir noDataDir w = (w', Returned (Some err)) ->
  w_duplicates w' = w_duplicates w /\
  duplicates (w_state w') = duplicates (w_state w) /\
  w_logFile w' = w_logFile w.
Proof.
  unfold processFile. destruct (prepare (w_fs w) path) as [e|[date checksum]].
  - by intros [= <- <-].
  - intros H. apply critical_error in H as (-> & -> & ->). done.
Qed.

Lemma C10_witness :
  Sample.run "src/B.jpg" Sample.wdA
    = ((Sample.run "src/B.jpg" Sample.wdA).1, Returned (Some ErrCopyDuplicate)) /\
  (w_duplicates (Sample.run "src/B.jpg" Sample.wdA).1 = w_duplicates Sample.wdA /\
   duplicates (w_state (Sample.run "src/B.jpg" Sample.wdA).1) = duplicates (w_state Sample.wdA) /\
   w_logFile (Sample.run "src/B.jpg" Sample.wdA).1 = w_logFile Sample.wdA).
Proof.
  split; [vm_compute; reflexivity|].
  apply (C10_error_leaves_index "src/B.jpg" "dest" (duplicatesDir_of "dest")
           (noDataDir_of "dest") Sample.wdA _ ErrCopyDuplicate).
  vm_compute; reflexivity.
Defined.

(** ** The index along a run *)

(** What the critical section does to the entry of a key: nothing, a first
    registration of one path, or one path appended. *)
Lemma critical_index path destDir duplicatesDir noDataDir date checksum w w' out k :
  critical path destDir duplicatesDir noDataDir date checksum w = (w', out) ->
  w_duplicates w' !! k = w_duplicates w !! k \/
  (w_duplicates w !! k = None /\ exists destPath, w_duplicates w' !! k = Some [destPath]) \/
  (exists paths p, w_duplicates w !! k = Some paths /\
                   w_duplicates w' !! k = Some (paths ++ [p])%list).
Proof.
  intros H. destruct (w_duplicates w !! checksum) as [paths|] eqn:Hk.
  - destruct (critical_known _ _ _ _ _ _ _ _ _ _ Hk H) as ([cerr|] & _ & Hc).
    + left. destruct Hc as (_ & -> & _). done.
    + destruct Hc as (-> & _). destruct (decide (k = checksum)) as [->|Hne].
      * right; right. exists paths, path. by rewrite lookup_insert_eq.
      * left. by rewrite lookup_insert_ne.
  - destruct (critical_unknown _ _ _ _ _ _ _ _ _ Hk H) as (_ & _ & Hc).
    destruct (destination _ _ _ _ _ _) as [[fs1 destPath]|].
    + destruct Hc as ([cerr|] & _ & _ & ->); [by left|].
      destruct (decide (k = checksum)) as [->|Hne].
      * right; left. split; [done|]. exists destPath. by rewrite lookup_insert_eq.
      * left. by rewrite lookup_insert_ne.
    + destruct Hc as [_ ->]. by left.
Qed.

Lemma step_index destDir p p' k :
  step destDir p p' ->
  index p' !! k = index p !! k \/
  (index p !! k = None /\ exists destPath, index p' !! k = Some [destPath]) \/
  (exists paths path, index p !! k = Some paths /\ index p' !! k = Some (paths ++ [path])%list).
Proof.
  destruct 1; unfold index; simpl; try (by left).
  by eapply critical_index.
Qed.

Lemma step_first_kept destDir p p' k first rest :
  step destDir p p' -> index p !! k = Some (first :: rest) ->
  exists later, index p' !! k = Some (first :: rest ++ later)%list.
Proof.
  intros Hs Hk. destruct (step_index destDir p p' k Hs) as [He|[[Hn _]|(paths & q & Hp & Hp')]].
  - exists []. by rewrite He, app_nil_r.
  - congruence.
  - exists [q]. rewrite Hk in Hp. injection Hp as <-. by rewrite Hp'.
Qed.

Lemma run_first_kept destDir p p' k first rest :
  rtc (step destDir) p p' -> index p !! k = Some (first :: rest) ->
  exists later, index p' !! k = Some (first :: rest ++ later)%list.
Proof.
  intros Hr. revert rest. induction Hr as [p|p q r Hs _ IH]; intros rest Hk.
  - exists []. by rewrite app_nil_r.
  - destruct (step_first_kept _ _ _ _ _ _ Hs Hk) as [l1 H1].
    destruct (IH _ H1) as [l2 H2]. exists (l1 ++ l2)%list. by rewrite app_assoc.
Qed.

Lemma run_key_kept destDir p p' k :
  rtc (step destDir) p p' -> is_Some (index p !! k) -> is_Some (index p' !! k).
Proof.
  induction 1 as [p|p q r Hs _ IH]; [done|]. intros Hk. apply IH.
  destruct (step_index destDir p q k Hs) as [He|[[Hn _]|(paths & path & _ & Hp')]].
  - by rewrite He.
  - rewrite Hn in Hk. by destruct Hk.
  - by rewrite Hp'.
Qed.

(** C1: along every run of the pool, the first path recorded for a checksum
    stays the first path of its entry; a step changes an entry only by
    registering one path for a checksum that was absent or by appending one
    path to the list of a checksum that was present; and a checksum that is
    present stays present, so that no later step registers it anew. *)
Theorem C1_first_path_kept (destDir : string) (p p' : Pool) (checksum : string) :
  rtc (step destDir) p p' ->
  (forall first rest, index p !! checksum = Some (first :: rest) ->
     exists later, index p' !! checksum = Some (first :: rest ++ later)%list) /\
  (forall p'', step destDir p' p'' ->
     index p'' !! checksum = index p' !! checksum \/
     (index p' !! checksum = None /\ exists destPath, index p'' !! checksum = Some [destPath]) \/
     (exists paths path, index p' !! checksum = Some paths /\
                         index p'' !! checksum = Some (paths ++ [path])%list)) /\
  (is_Some (index p !! checksum) ->
     is_Some (index p' !! checksum) /\
     forall p'', step destDir p' p'' -> index p' !! checksum <> None).
Proof.
  intros Hr. split; [|split].
  - intros first rest. by apply (run_first_kept destDir).
  - intros p''. apply step_index.
  - intros Hk. pose proof (run_key_kept destDir _ _ _ Hr Hk) as Hk'. split; [done|].
    intros _ _ Hn. rewrite Hn in Hk'. by destruct Hk'.
Qed.

Lemma C1_witness :
  rtc (step "dest") Sample.pool_B Sample.pool_B' /\
  ((forall first rest, index Sample.pool_B !! Sample.sum_X = Some (first :: rest) ->
      exists later, index Sample.pool_B' !! Sample.sum_X = Some (first :: rest ++ later)%list) /\
   (forall p'', step "dest" Sample.pool_B' p'' ->
      index p'' !! Sample.sum_X = index Sample.pool_B' !! Sample.sum_X \/
      (index Sample.pool_B' !! Sample.sum_X = None /\
       exists destPath, index p'' !! Sample.sum_X = Some [destPath]) \/
      (exists paths path, index Sample.pool_B' !! Sample.sum_X = Some paths /\
                          index p'' !! Sample.sum_X = Some (paths ++ [path])%list)) /\
   (is_Some (index Sample.pool_B !! Sample.sum_X) ->
      is_Some (index Sample.pool_B' !! Sample.sum_X) /\
      forall p'', step "dest" Sample.pool_B' p'' -> index Sample.pool_B' !! Sample.sum_X <> None)).
Proof.
  assert (Hrun : rtc (step "dest") Sample.pool_B Sample.pool_B').
  { apply rtc_once.
    apply (step_critical "dest" (Closed false)
             [Locking "src/B.jpg" Sample.may_2020 Sample.sum_X] Sample.wA [] 0
             "src/B.jpg" Sample.may_2020 Sample.sum_X Sample.wAB (Returned None)).
    - reflexivity.
    - vm_compute; reflexivity. }
  split; [exact Hrun|].
  apply (C1_first_path_kept "dest" Sample.pool_B Sample.pool_B' Sample.sum_X Hrun).
Defined.

(** The two photos of the sample tree: the first is registered, the second
    is appended behind it. *)
Example index_after_two_photos :
  w_duplicates Sample.wA !! Sample.sum_X = Some ["dest/2020/05/01/A_02129bb8.jpg"] /\
  exists later,
    w_duplicates Sample.wAB !! Sample.sum_X = Some ("dest/2020/05/01/A_02129bb8.jpg" :: later).
Proof. split; [vm_compute; reflexivity|]. eexists. vm_compute. reflexivity. Qed.

(** ** The run of [ProcessFiles] *)

Lemma insert_split {A} (l : list A) i y x :
  l !! i = Some y -> exists l1 l2, l = (l1 ++ y :: l2)%list /\ <[i:=x]> l = (l1 ++ x :: l2)%list.
Proof.
  intros H. exists (take i l), (drop (S i) l). split.
  - by rewrite take_drop_middle.
  - by apply insert_take_drop, lookup_lt_Some with y.
Qed.

Lemma tally_insert f ws i y x :
  ws !! i = Some y ->
  tally f (<[i:=x]> ws) + (if f y then 1 else 0) = tally f ws + (if f x then 1 else 0).
Proof.
  intros H. destruct (insert_split ws i y x H) as (l1 & l2 & -> & ->).
  unfold tally. rewrite !sum_list_with_app. simpl. lia.
Qed.

Lemma rank_insert ws i y x :
  ws !! i = Some y ->
  sum_list_with rank (<[i:=x]> ws) + rank y = sum_list_with rank ws + rank x.
Proof.
  intros H. destruct (insert_split ws i y x H) as (l1 & l2 & -> & ->).
  rewrite !sum_list_with_app. simpl. lia.
Qed.

Lemma in_flight_insert ws i y x :
  ws !! i = Some y ->
  (in_flight (<[i:=x]> ws) ++ option_list (holding y))%list
  ≡ₚ (in_flight ws ++ option_list (holding x))%list.
Proof.
  intros H. destruct (insert_split ws i y x H) as (l1 & l2 & -> & ->).
  unfold in_flight. rewrite !omap_app. simpl.
  destruct (holding x), (holding y); simpl; rewrite ?app_nil_r; try done.
  - rewrite <- !app_assoc. simpl. apply Permutation_app_head.
    rewrite <- !Permutation_cons_append. apply perm_swap.
  - rewrite <- !app_assoc. apply Permutation_app_head. apply Permutation_cons_append.
  - rewrite <- !app_assoc. apply Permutation_app_head. symmetry.
    apply Permutation_cons_append.
Qed.

Lemma in_flight_held ws i y x :
  ws !! i = Some y -> holding x = holding y -> in_flight (<[i:=x]> ws) = in_flight ws.
Proof.
  intros H Hh. destruct (insert_split ws i y x H) as (l1 & l2 & -> & ->).
  unfold in_flight. rewrite !omap_app. simpl. by rewrite Hh.
Qed.

Lemma in_flight_taken ws i y x path :
  ws !! i = Some y -> holding y = None -> holding x = Some path ->
  in_flight (<[i:=x]> ws) ≡ₚ path :: in_flight ws.
Proof.
  intros H Hy Hx. pose proof (in_flight_insert ws i y x H) as HP.
  rewrite Hy, Hx in HP. simpl in HP. rewrite app_nil_r in HP.
  by rewrite HP, <- Permutation_cons_append.
Qed.

Lemma in_flight_released ws i y x path :
  ws !! i = Some y -> holding y = Some path -> holding x = None ->
  path :: in_flight (<[i:=x]> ws) ≡ₚ in_flight ws.
Proof.
  intros H Hy Hx. pose proof (in_flight_insert ws i y x H) as HP.
  rewrite Hy, Hx in HP. simpl in HP. rewrite app_nil_r in HP.
  by rewrite <- HP, <- Permutation_cons_append.
Qed.

Lemma recorded_insert_new m k paths :
  m !! k = None -> recorded (<[k:=paths]> m) = length paths + recorded m.
Proof.
  intros H. unfold recorded. rewrite map_fold_insert_L; [done| |done].
  intros. lia.
Qed.

Lemma recorded_lookup m k paths :
  m !! k = Some paths -> recorded m = length paths + recorded (delete k m).
Proof.
  intros H. unfold recorded. rewrite (map_fold_delete_L _ _ k paths m); [done| |done].
  intros. lia.
Qed.

Lemma recorded_append m k paths path :
  m !! k = Some paths -> recorded (<[k:=(paths ++ [path])%list]> m) = S (recorded m).
Proof.
  intros H. rewrite (recorded_lookup m k paths H).
  rewrite <- insert_delete_eq. rewrite recorded_insert_new by apply lookup_delete_eq.
  rewrite length_app. simpl. lia.
Qed.

Lemma size_insert_present {A} (m : gmap string A) k x :
  is_Some (m !! k) -> size (<[k:=x]> m) = size m.
Proof.
  intros [y Hy]. rewrite <- (insert_delete_eq m k x).
  rewrite map_size_insert_None by apply lookup_delete_eq.
  rewrite <- (insert_delete_id m k y Hy) at 2.
  by rewrite map_size_insert_None by apply lookup_delete_eq.
Qed.

(** What the critical section does to the accounts. *)
Lemma critical_accounts path destDir duplicatesDir noDataDir date checksum w w' out :
  critical path destDir duplicatesDir noDataDir date checksum w = (w', out) ->
  map_Forall (fun _ paths => paths <> []) (w_duplicates w) ->
  processed (w_state w') = processed (w_state w) /\
  errorCount (w_state w') = errorCount (w_state w) /\
  total (w_state w') = total (w_state w) /\
  map_Forall (fun _ paths => paths <> []) (w_duplicates w') /\
  match out with
  | Panicked => False
  | Returned (Some _) =>
      w_duplicates w' = w_duplicates w /\ w_logFile w' = w_logFile w /\
      duplicates (w_state w') = duplicates (w_state w)
  | Returned None =>
      recorded (w_duplicates w') = S (recorded (w_duplicates w)) /\
      ((size (w_duplicates w') = S (size (w_duplicates w)) /\
        w_logFile w' = w_logFile w /\
        duplicates (w_state w') = duplicates (w_state w)) \/
       (size (w_duplicates w') = size (w_duplicates w) /\
        (exists line, w_logFile w' = (w_logFile w ++ [line])%list) /\
        duplicates (w_state w') = bump (duplicates (w_state w))))
  end.
Proof.
  intros H Hne. destruct (w_duplicates w !! checksum) as [paths|] eqn:Hk.
  - destruct (critical_known _ _ _ _ _ _ _ _ _ _ Hk H) as ([cerr|] & _ & Hc).
    + destruct Hc as (-> & -> & -> & ->). done.
    + destruct Hc as (-> & -> & Hc). pose proof (Hne _ _ Hk) as Hp.
      destruct paths as [|first rest]; [done|]. destruct Hc as [-> ->].
      repeat split.
      * apply map_Forall_insert_2; [|done]. by destruct rest.
      * by apply recorded_append.
      * right. split; [by apply size_insert_present|]. split; [by eexists|done].
  - destruct (critical_unknown _ _ _ _ _ _ _ _ _ Hk H) as (Hs & Hl & Hc).
    rewrite Hs. do 3 (split; [done|]).
    destruct (destination _ _ _ _ _ _) as [[fs1 destPath]|].
    + destruct Hc as ([cerr|] & _ & -> & ->); [by rewrite Hl|]. split.
      * by apply map_Forall_insert_2.
      * split; [by rewrite recorded_insert_new|]. left.
        by rewrite map_size_insert_None, Hl.
    + destruct Hc as [-> ->]. done.
Qed.

Lemma failures_snoc ticks path failed :
  length (failures (ticks ++ [(path, failed)]))
  = length (failures ticks) + (if failed then 1 else 0).
Proof.
  unfold failures. rewrite filter_app, length_app. f_equal.
  by destruct failed.
Qed.

Lemma after_S n z : after (S n) z = bump (after n z).
Proof. done. Qed.

Ltac tallies H x :=
  pose proof (tally_insert is_counted _ _ _ x H);
  pose proof (tally_insert is_error_counted _ _ _ x H);
  pose proof (tally_insert is_succeeded _ _ _ x H);
  pose proof (tally_insert is_crashed _ _ _ x H);
  pose proof (tally_insert is_exited _ _ _ x H);
  simpl in *.

Ltac count_same H := rewrite H; f_equal; lia.
Ltac count_next H :=
  match goal with
  | |- int_wrap (?a + 1) = _ =>
      change (int_wrap (a + 1)) with (bump a); rewrite H, <- after_S; f_equal; lia
  end.

(** Every step keeps the accounts. *)
Lemma step_accounted destDir vs0 s0 p p' :
  accounted vs0 s0 p -> step destDir p p' -> accounted vs0 s0 p'.
Proof.
  intros [Hf Hp He Hd Ht Hfl Hn Hc Ho Hr Hop] Hs.
  destruct Hs as [path name isDir vs ws w t Hel
                 |path name isDir vs ws w t i Hel Hi
                 |path vs ws w t
                 |ws w t
                 |err ws w t i Hi
                 |pr ws w t i path Hi
                 |pr ws w t i path date checksum w' out Hi Hcr
                 |pr ws w t i path err Hi
                 |pr ws w t i path Hi
                 |pr ws w t i path Hi
                 |pr ws w t i path failed Hi]; unfold index in *; simpl in *.
  - (* skip *)
    rewrite Hel in Hf. by split.
  - (* send *)
    rewrite Hel in Hf. tallies Hi (Received path).
    split; simpl; unfold index; simpl; try done.
    + rewrite Hf. apply Permutation_app_head.
      rewrite (in_flight_taken ws i Waiting (Received path) path Hi eq_refl eq_refl).
      simpl. by rewrite Permutation_middle.
    + count_same Hp.
    + count_same He.
    + lia.
    + lia.
    + lia.
  - (* walk error *)
    split; simpl; unfold index; simpl; try done.
  - (* walk end *)
    split; simpl; unfold index; simpl; try done.
  - (* exit *)
    tallies Hi Exited.
    split; simpl; unfold index; simpl; try done.
    + by rewrite (in_flight_held ws i Waiting Exited Hi eq_refl).
    + count_same Hp.
    + count_same He.
    + lia.
    + lia.
  - (* prepare *)
    assert (Hh : holding (match prepare (w_fs w) path with
                          | inl err => Finished path (Some err)
                          | inr (date, checksum) => Locking path date checksum
                          end) = holding (Received path)).
    { by destruct (prepare (w_fs w) path) as [?|[? ?]]. }
    split; simpl; unfold index; simpl; try done.
    + by rewrite (in_flight_held ws i _ _ Hi Hh).
    + destruct (prepare (w_fs w) path) as [?|[? ?]];
        [tallies Hi (Finished path (Some e))|tallies Hi (Locking path t0 s)]; count_same Hp.
    + destruct (prepare (w_fs w) path) as [?|[? ?]];
        [tallies Hi (Finished path (Some e))|tallies Hi (Locking path t0 s)]; count_same He.
    + destruct (prepare (w_fs w) path) as [?|[? ?]];
        [tallies Hi (Finished path (Some e))|tallies Hi (Locking path t0 s)]; lia.
    + destruct (prepare (w_fs w) path) as [?|[? ?]];
        [tallies Hi (Finished path (Some e))|tallies Hi (Locking path t0 s)]; lia.
    + destruct pr; [|done].
      destruct (prepare (w_fs w) path) as [?|[? ?]];
        [tallies Hi (Finished path (Some e))|tallies Hi (Locking path t0 s)]; lia.
  - (* critical *)
    destruct (critical_accounts _ _ _ _ _ _ _ _ _ Hcr Hn) as (Hp' & He' & Ht' & Hn' & Hout).
    destruct out as [[err|]|]; [| |done].
    + destruct Hout as (Hi1 & Hi2 & Hi3).
      tallies Hi (Finished path (Some err)).
      split; simpl; unfold index; simpl; rewrite ?Hi1, ?Hi2, ?Hi3, ?Hp', ?He', ?Ht'; try done.
      * by rewrite (in_flight_held ws i _ (Finished path (Some err)) Hi eq_refl).
      * count_same Hp.
      * count_same He.
      * lia.
      * lia.
      * destruct pr; [lia|done].
    + destruct Hout as (Hrec & Hcase).
      tallies Hi (Finished path None).
      split; simpl; unfold index; simpl; rewrite ?Hp', ?He', ?Ht'; try done.
      * by rewrite (in_flight_held ws i _ (Finished path None) Hi eq_refl).
      * count_same Hp.
      * count_same He.
      * destruct Hcase as [(_ & -> & ->)|(_ & [line ->] & ->)]; [done|].
        by rewrite Hd, length_app, Nat.add_1_r.
      * lia.
      * destruct Hcase as [(-> & -> & _)|(-> & [line ->] & _)];
          rewrite ?length_app; simpl; lia.
      * destruct Hcase as [(-> & -> & _)|(-> & [line ->] & _)];
          rewrite ?length_app; simpl; lia.
      * destruct pr; [lia|done].
  - (* error *)
    tallies Hi (ErrorCounted path).
    split; simpl; unfold index; simpl; try done.
    + by rewrite (in_flight_held ws i _ (ErrorCounted path) Hi eq_refl).
    + count_same Hp.
    + count_next He.
    + lia.
    + lia.
    + destruct pr; [lia|done].
  - (* processed, no error *)
    tallies Hi (Counted path false).
    split; simpl; unfold index; simpl; try done.
    + by rewrite (in_flight_held ws i _ (Counted path false) Hi eq_refl).
    + count_next Hp.
    + count_same He.
    + lia.
    + lia.
    + destruct pr; [lia|done].
  - (* processed, after an error *)
    tallies Hi (Counted path true).
    split; simpl; unfold index; simpl; try done.
    + by rewrite (in_flight_held ws i _ (Counted path true) Hi eq_refl).
    + count_next Hp.
    + count_same He.
    + lia.
    + lia.
    + destruct pr; [lia|done].
  - (* tick *)
    tallies Hi Waiting.
    pose proof (failures_snoc t path failed) as Hfs.
    split; simpl; unfold index; simpl; try done.
    + rewrite Hf, map_app. simpl. rewrite <- !app_assoc. apply Permutation_app_head.
      simpl. rewrite <- (in_flight_released ws i (Counted path failed) Waiting path Hi eq_refl eq_refl).
      done.
    + rewrite length_app. simpl. count_same Hp.
    + rewrite Hfs. destruct failed; count_same He.
    + lia.
    + rewrite Hfs, length_app. simpl. destruct failed; lia.
    + destruct pr; [lia|done].
Qed.

Lemma tally_replicate f n wk : f wk = false -> tally f (replicate n wk) = 0.
Proof. intros H. unfold tally. induction n as [|n IH]; simpl; [done|]. by rewrite H, IH. Qed.

Lemma tally_zero f ws wk : tally f ws = 0 -> wk ∈ ws -> f wk = false.
Proof.
  unfold tally. induction ws as [|a ws IH]; simpl; intros H Hin; [by apply elem_of_nil in Hin|].
  apply elem_of_cons in Hin as [->|Hin].
  - destruct (f a); [lia|done].
  - apply IH; [lia|done].
Qed.

Lemma tally_all f ws : Forall (fun wk => f wk = true) ws -> tally f ws = length ws.
Proof. unfold tally. induction 1 as [|a ws Ha _ IH]; simpl; [done|]. by rewrite Ha, IH. Qed.

Lemma in_flight_replicate n : in_flight (replicate n Waiting) = [].
Proof. unfold in_flight. induction n as [|n IH]; simpl; done. Qed.

(** The pool that [ProcessFiles] starts with. *)
Lemma start_accounted vs destDir logFilePath state fs numWorkers p0 :
  ProcessFiles_start vs destDir logFilePath state fs numWorkers = Some p0 ->
  accounted vs state p0 /\ length (p_workers p0) = numWorkers /\
  p_producer p0 = Walking vs /\ p_ticks p0 = [] /\ w_state (p_world p0) = state.
Proof.
  unfold ProcessFiles_start. intros H.
  destruct (os.MkdirAll fs _) as [fs1|]; [simpl in H|done].
  destruct (os.MkdirAll fs1 _) as [fs2|]; [simpl in H|done].
  destruct (open_log fs2 _) as [fs3|]; [simpl in H|done].
  injection H as <-. simpl. split; [|by rewrite length_replicate].
  split; unfold index; simpl; rewrite ?in_flight_replicate, ?tally_replicate by done;
    done || apply map_Forall_empty.
Qed.

Lemma run_accounted destDir vs0 s0 p p' :
  rtc (step destDir) p p' -> accounted vs0 s0 p -> accounted vs0 s0 p'.
Proof. induction 1; [done|]. intros. eauto using step_accounted. Qed.

Lemma step_workers_length destDir p p' :
  step destDir p p' -> length (p_workers p') = length (p_workers p).
Proof. destruct 1; simpl; by rewrite ?length_insert. Qed.

Lemma run_workers_length destDir p p' :
  rtc (step destDir) p p' -> length (p_workers p') = length (p_workers p).
Proof.
  induction 1 as [|p q r Hs _ IH]; [done|]. rewrite IH. by eapply step_workers_length.
Qed.

Lemma completed_idle p : completed p ->
  in_flight (p_workers p) = [] /\ remaining (p_producer p) = [] /\
  (forall f, f Exited = false -> tally f (p_workers p) = 0).
Proof.
  intros [[err Herr] Hall]. rewrite Herr. split; [|split; [done|]].
  - unfold in_flight. induction Hall as [|wk ws -> _ IH]; simpl; done.
  - intros f Hf. unfold tally. induction Hall as [|wk ws -> _ IH]; simpl; [done|].
    by rewrite Hf.
Qed.

Lemma after_bump n z : after n (bump z) = bump (after n z).
Proof. unfold after. by rewrite <- Nat.iter_succ_r. Qed.

Lemma int_wrap_small z : (- 2 ^ 63 <= z <= max_int)%Z -> int_wrap z = z.
Proof.
  unfold int_wrap, max_int. intros H.
  rewrite Z.mod_small by lia. lia.
Qed.

Lemma after_small n z :
  (0 <= z)%Z -> (z + Z.of_nat n <= max_int)%Z -> after n z = (z + Z.of_nat n)%Z.
Proof.
  intros Hz. induction n as [|n IH]; intros Hn.
  - simpl. lia.
  - rewrite after_S, IH by lia. unfold bump. rewrite int_wrap_small; unfold max_int in *; lia.
Qed.

(** [CountFiles] counts what the walk of [ProcessFiles] sends. *)
Lemma count_walk_walked vs z :
  count_walk vs z = if walk_fails vs then None else Some (after (length (walked vs)) z).
Proof.
  revert z. induction vs as [|[path name isDir|path] vs IH]; intros z; simpl; [done| |done].
  unfold eligible. destruct (negb isDir && negb (HasPrefix name ".")); simpl.
  - rewrite IH. destruct (walk_fails vs); [done|].
    by rewrite <- after_bump.
  - apply IH.
Qed.

(** X1: every file the walk sends is processed once: when [ProcessFiles]
    returns, the messenger was sent one tick for each of them, the
    [processed] counter was incremented once for each of them and the error
    counter once for each of those that failed; the result is the error of
    the walk, whose files up to the error are processed all the same. *)
Theorem ProcessFiles_every_file_once vs destDir logFilePath state fs numWorkers p0 p :
  ProcessFiles_start vs destDir logFilePath state fs numWorkers = Some p0 ->
  rtc (step destDir) p0 p ->
  completed p ->
  map fst (p_ticks p) ≡ₚ walked vs /\
  processed (w_state (p_world p)) = after (length (walked vs)) (processed state) /\
  errorCount (w_state (p_world p)) = after (length (failures (p_ticks p))) (errorCount state) /\
  total (w_state (p_world p)) = total state /\
  ProcessFiles_result p = walk_fails vs.
Proof.
  intros Hstart Hrun Hdone.
  destruct (start_accounted _ _ _ _ _ _ _ Hstart) as (Hacc & _).
  destruct (run_accounted _ _ _ _ _ Hrun Hacc) as [Hf Hp He _ Ht Hfl _ _ _ _ _].
  destruct (completed_idle p Hdone) as (Hin & Hrem & Htally).
  rewrite Hin, Hrem, !app_nil_r in Hf.
  rewrite Htally in Hp by done. rewrite Htally in He by done.
  rewrite Nat.add_0_r in Hp, He.
  assert (length (p_ticks p) = length (walked vs)) as Hlen.
  { by rewrite Hf, length_map. }
  rewrite Hlen in Hp. repeat split; try done.
  destruct Hdone as [[err Herr] _]. unfold ProcessFiles_result.
  rewrite Herr in *. by simpl in Hfl.
Qed.

(** X2: no worker panics: the list that [paths[0]] indexes is never empty. *)
Theorem ProcessFiles_never_panics vs destDir logFilePath state fs numWorkers p0 p :
  ProcessFiles_start vs destDir logFilePath state fs numWorkers = Some p0 ->
  rtc (step destDir) p0 p ->
  (forall path, Crashed path ∉ p_workers p) /\
  (forall checksum paths, index p !! checksum = Some paths -> exists first rest, paths = first :: rest).
Proof.
  intros Hstart Hrun.
  destruct (start_accounted _ _ _ _ _ _ _ Hstart) as (Hacc & _).
  destruct (run_accounted _ _ _ _ _ Hrun Hacc) as [_ _ _ _ _ _ Hn Hc _ _ _].
  split.
  - intros path Hin. by pose proof (tally_zero _ _ _ Hc Hin).
  - intros checksum paths Hk. apply Hn in Hk. destruct paths as [|first rest]; [done|eauto].
Qed.

(** X3: every file that was processed without an error is either the first of
    its checksum, with an entry of its own in the index, or a duplicate,
    with a line of its own in the log, a path of its own behind the first
    one and one increment of the duplicate counter. *)
Theorem ProcessFiles_outcomes vs destDir logFilePath state fs numWorkers p0 p :
  ProcessFiles_start vs destDir logFilePath state fs numWorkers = Some p0 ->
  rtc (step destDir) p0 p ->
  completed p ->
  size (index p) + length (w_logFile (p_world p)) + length (failures (p_ticks p))
    = length (walked vs) /\
  recorded (index p) = size (index p) + length (w_logFile (p_world p)) /\
  duplicates (w_state (p_world p))
    = after (length (w_logFile (p_world p))) (duplicates state).
Proof.
  intros Hstart Hrun Hdone.
  destruct (start_accounted _ _ _ _ _ _ _ Hstart) as (Hacc & _).
  destruct (run_accounted _ _ _ _ _ Hrun Hacc) as [Hf _ _ Hd _ _ _ _ Ho Hr _].
  destruct (completed_idle p Hdone) as (Hin & Hrem & Htally).
  rewrite Hin, Hrem, !app_nil_r in Hf.
  rewrite Htally in Ho by done.
  assert (length (p_ticks p) = length (walked vs)) as Hlen.
  { by rewrite Hf, length_map. }
  repeat split; [lia|done..].
Qed.

(** ** Termination *)

Lemma step_measure destDir p p' : step destDir p p' -> measure p' < measure p.
Proof.
  destruct 1 as [path name isDir vs ws w t Hel
                |path name isDir vs ws w t i Hel Hi
                |path vs ws w t
                |ws w t
                |err ws w t i Hi
                |pr ws w t i path Hi
                |pr ws w t i path date checksum w' out Hi Hcr
                |pr ws w t i path err Hi
                |pr ws w t i path Hi
                |pr ws w t i path Hi
                |pr ws w t i path failed Hi]; unfold measure; simpl; try lia.
  - pose proof (rank_insert ws i _ (Received path) Hi). simpl in *. lia.
  - pose proof (rank_insert ws i _ Exited Hi). simpl in *. lia.
  - destruct (prepare (w_fs w) path) as [e|[d c]].
    + pose proof (rank_insert ws i _ (Finished path (Some e)) Hi). simpl in *. lia.
    + pose proof (rank_insert ws i _ (Locking path d c) Hi). simpl in *. lia.
  - destruct out as [e|].
    + pose proof (rank_insert ws i _ (Finished path e) Hi). simpl in *. lia.
    + pose proof (rank_insert ws i _ (Crashed path) Hi). simpl in *. lia.
  - pose proof (rank_insert ws i _ (ErrorCounted path) Hi). simpl in *. lia.
  - pose proof (rank_insert ws i _ (Counted path false) Hi). simpl in *. lia.
  - pose proof (rank_insert ws i _ (Counted path true) Hi). simpl in *. lia.
  - pose proof (rank_insert ws i _ Waiting Hi). simpl in *. lia.
Qed.

Lemma nsteps_measure destDir k p p' :
  nsteps (step destDir) k p p' -> k + measure p' <= measure p.
Proof.
  induction 1 as [|k p q r Hs _ IH]; [lia|].
  apply step_measure in Hs. lia.
Qed.

Lemma rank_replicate n : sum_list_with rank (replicate n Waiting) = n.
Proof. induction n as [|n IH]; simpl; [done|]. by rewrite IH. Qed.


(** A worker that is neither waiting nor gone can always go on. *)
Lemma busy_worker_steps destDir pr ws w t i wk :
  ws !! i = Some wk -> 2 <= rank wk -> exists p', step destDir (mkPool pr ws w t) p'.
Proof.
  intros Hi Hr. destruct wk as [|path|path date checksum|path [err|]|path|path failed|path|];
    simpl in Hr; try lia.
  - eexists. by eapply step_prepare.
  - destruct (critical path destDir (duplicatesDir_of destDir) (noDataDir_of destDir)
                date checksum w) as [w' out] eqn:Hcr.
    eexists. by eapply step_critical.
  - eexists. by eapply step_error.
  - eexists. by eapply step_processed_ok.
  - eexists. by eapply step_processed_failed.
  - eexists. by eapply step_tick.
Qed.

(** A pool whose accounts are right, with a worker, has completed or can
    take a step. *)
Lemma accounted_progress destDir vs s0 p :
  accounted vs s0 p -> 1 <= length (p_workers p) ->
  completed p \/ exists p', step destDir p p'.
Proof.
  intros [_ _ _ _ _ _ _ Hc _ _ Hop] Hlen'.
  destruct p as [pr ws w t]. simpl in *.
  destruct (decide (Exists (fun wk => 2 <= rank wk) ws)) as [Hbusy|Hidle].
  { right. apply Exists_exists in Hbusy as (wk & Hin & Hr).
    apply list_elem_of_lookup in Hin as [i Hi]. by eapply busy_worker_steps. }
  apply not_Exists_Forall in Hidle; [|intros wk; apply _].
  assert (Hstate : forall wk, wk ∈ ws -> wk = Waiting \/ wk = Exited).
  { intros wk Hin. pose proof (tally_zero _ _ _ Hc Hin) as Hcr.
    rewrite Forall_forall in Hidle. specialize (Hidle wk Hin). simpl in Hidle.
    destruct wk; simpl in *; try lia; try done; auto. }
  destruct pr as [[|[path name isDir|path] rest]|err].
  - right. eexists. apply step_walk_end.
  - right. destruct (eligible name isDir) eqn:Hel.
    + destruct ws as [|wk ws']; [simpl in Hlen'; lia|].
      assert (wk = Waiting) as ->.
      { destruct (Hstate wk) as [->| ->]; [by left|done|].
        by pose proof (tally_zero _ _ Exited Hop (list_elem_of_here _ _)). }
      eexists. by apply (step_send destDir path name isDir rest (Waiting :: ws') w t 0).
    + eexists. by apply step_skip.
  - right. eexists. apply step_walk_error.
  - destruct (decide (Exists (fun wk => rank wk = 1) ws)) as [Hw|Hnone].
    + right. apply Exists_exists in Hw as (wk & Hin & Hr).
      destruct (Hstate wk Hin) as [->| ->]; [|done].
      apply list_elem_of_lookup in Hin as [i Hi].
      eexists. by apply (step_exit destDir err ws w t i).
    + left. split; [by exists err|]. simpl.
      apply not_Exists_Forall in Hnone; [|intros wk; apply _].
      rewrite Forall_forall in Hnone |- *. intros wk Hin.
      destruct (Hstate wk Hin) as [->| ->]; [|done]. by destruct (Hnone _ Hin).
Qed.


(** ** The schedule is a run *)

Lemma list_find_lookup {A} (P : A -> Prop) `{!forall x, Decision (P x)} (l : list A) i x :
  list_find P l = Some (i, x) -> l !! i = Some x /\ P x.
Proof. intros Hf. apply list_find_Some in Hf. tauto. Qed.

Lemma idle_waiting wk : idle wk -> wk = Waiting.
Proof. unfold idle. by destruct wk. Qed.

Lemma advance_step destDir p p' : advance destDir p = Some p' -> step destDir p p'.
Proof.
  destruct p as [pr ws w t]. unfold advance.
  destruct (list_find busy ws) as [[i wk]|] eqn:Hfind.
  - apply list_find_lookup in Hfind as [Hi _].
    destruct wk as [|path|path date checksum|path [err|]|path|path failed|path|]; try done.
    + intros [= <-]. by apply step_prepare.
    + destruct (critical _ _ _ _ _ _ _) as [w' out] eqn:Hcr.
      intros [= <-]. by eapply step_critical.
    + intros [= <-]. by eapply step_error.
    + intros [= <-]. by apply step_processed_ok.
    + intros [= <-]. by apply step_processed_failed.
    + intros [= <-]. by apply step_tick.
  - destruct pr as [[|[path name isDir|path] vs]|err].
    + intros [= <-]. apply step_walk_end.
    + destruct (eligible name isDir) eqn:Hel.
      * destruct (list_find idle ws) as [[i wk]|] eqn:Hidle; [|done].
        apply list_find_lookup in Hidle as [Hi Hw]. apply idle_waiting in Hw as ->.
        intros [= <-]. by apply step_send.
      * intros [= <-]. by apply step_skip.
    + intros [= <-]. apply step_walk_error.
    + destruct (list_find idle ws) as [[i wk]|] eqn:Hidle; [|done].
      apply list_find_lookup in Hidle as [Hi Hw]. apply idle_waiting in Hw as ->.
      intros [= <-]. by apply step_exit.
Qed.

Lemma schedule_nsteps destDir n p :
  nsteps (step destDir) (schedule destDir n p).1 p (schedule destDir n p).2.
Proof.
  revert p. induction n as [|n IH]; intros p; simpl; [constructor|].
  destruct (advance destDir p) as [p'|] eqn:Hadv; [|constructor].
  specialize (IH p'). destruct (schedule destDir n p') as [k q]. simpl in *.
  econstructor; [by apply advance_step|done].
Qed.

Lemma schedule_rtc destDir n p : rtc (step destDir) p (schedule destDir n p).2.
Proof. eapply rtc_nsteps_2, schedule_nsteps. Qed.

(** ** The run on the sample tree *)

Lemma start_of_run :
  ProcessFiles_start Run.walk "dest" "duplicates.log" (NewState 4) Sample.fs0 2
  = Some Run.start.
Proof. vm_compute; reflexivity. Qed.

Lemma finish_completed : completed Run.finish.
Proof.
  split; [exists false; vm_compute; reflexivity|].
  vm_compute. repeat constructor.
Qed.

Lemma ProcessFiles_every_file_once_witness :
  ProcessFiles_start Run.walk "dest" "duplicates.log" (NewState 4) Sample.fs0 2
    = Some Run.start /\
  rtc (step "dest") Run.start Run.finish /\
  completed Run.finish /\
  (map fst (p_ticks Run.finish) ≡ₚ walked Run.walk /\
   processed (w_state (p_world Run.finish))
     = after (length (walked Run.walk)) (processed (NewState 4)) /\
   errorCount (w_state (p_world Run.finish))
     = after (length (failures (p_ticks Run.finish))) (errorCount (NewState 4)) /\
   total (w_state (p_world Run.finish)) = total (NewState 4) /\
   ProcessFiles_result Run.finish = walk_fails Run.walk).
Proof.
  split; [exact start_of_run|]. split; [apply schedule_rtc|].
  split; [exact finish_completed|].
  apply (ProcessFiles_every_file_once Run.walk "dest" "duplicates.log" (NewState 4)
           Sample.fs0 2 Run.start Run.finish).
  - vm_compute; reflexivity.
  - apply schedule_rtc.
  - exact finish_completed.
Defined.

Lemma ProcessFiles_never_panics_witness :
  ProcessFiles_start Run.walk "dest" "duplicates.log" (NewState 4) Sample.fs0 2
    = Some Run.start /\
  rtc (step "dest") Run.start Run.finish /\
  ((forall path, Crashed path ∉ p_workers Run.finish) /\
   (forall checksum paths, index Run.finish !! checksum = Some paths ->
      exists first rest, paths = first :: rest)).
Proof.
  split; [exact start_of_run|]. split; [apply schedule_rtc|].
  apply (ProcessFiles_never_panics Run.walk "dest" "duplicates.log" (NewState 4)
           Sample.fs0 2 Run.start Run.finish).
  - vm_compute; reflexivity.
  - apply schedule_rtc.
Defined.

Lemma ProcessFiles_outcomes_witness :
  ProcessFiles_start Run.walk "dest" "duplicates.log" (NewState 4) Sample.fs0 2
    = Some Run.start /\
  rtc (step "dest") Run.start Run.finish /\
  completed Run.finish /\
  (size (index Run.finish) + length (w_logFile (p_world Run.finish))
     + length (failures (p_ticks Run.finish)) = length (walked Run.walk) /\
   recorded (index Run.finish)
     = size (index Run.finish) + length (w_logFile (p_world Run.finish)) /\
   duplicates (w_state (p_world Run.finish))
     = after (length (w_logFile (p_world Run.finish))) (duplicates (NewState 4))).
Proof.
  split; [exact start_of_run|]. split; [apply schedule_rtc|].
  split; [exact finish_completed|].
  apply (ProcessFiles_outcomes Run.walk "dest" "duplicates.log" (NewState 4)
           Sample.fs0 2 Run.start Run.finish).
  - vm_compute; reflexivity.
  - apply schedule_rtc.
  - exact finish_completed.
Defined.



(** The run on the sample tree: four files, one duplicate, one failure. *)
Example run_of_sample_tree :
  (schedule "dest" 100 Run.start).1 = 25 /\
  p_ticks Run.finish
    = [("src/A.jpg", false); ("src/B.jpg", false); ("src/C.txt", false);
       ("src/gone.jpg", true)] /\
  GetProcessedCount (w_state (p_world Run.finish)) = 4%Z /\
  GetDuplicateCount (w_state (p_world Run.finish)) = 1%Z /\
  GetErrorCount (w_state (p_world Run.finish)) = 1%Z.
Proof. vm_compute. repeat split; reflexivity. Qed.

(** ** Transfers *)

Lemma extends_refl fs : extends fs fs.
Proof. by repeat split. Qed.

Lemma extends_trans fs1 fs2 fs3 : extends fs1 fs2 -> extends fs2 fs3 -> extends fs1 fs3.
Proof.
  intros (Hd1 & Hv1 & Hn1) (Hd2 & Hv2 & Hn2). repeat split; [congruence..|auto].
Qed.

Lemma touches_extends p fs fs' :
  touches p fs fs' -> os.nodes fs !! p = None -> extends fs fs'.
Proof.
  intros (Hd & Hv & Ho & _) Hp. repeat split; [done..|].
  intros q n Hq. rewrite Ho; [done|]. intros ->. congruence.
Qed.

Lemma Create_inv fs p fs' :
  os.Create fs p = Some fs' ->
  (p ∉ os.denied fs) /\
  exists g0, fs' = os.with_nodes fs (<[p := os.Reg g0]> (os.nodes fs)) /\
    match os.nodes fs !! p with
    | Some os.Dir => False
    | Some (os.Reg g) => g0 = os.mkFile os.empty_content (os.mode g) (os.seekable g) (os.readable g)
    | None => g0 = os.mkFile os.empty_content 0x1a4 true true
    end.
Proof.
  unfold os.Create. case_decide as Hd; [done|].
  destruct (os.nodes fs !! p) as [[|g]|]; [done|..]; intros [= <-]; eauto.
Qed.

Ltac fs_simpl := cbn [os.nodes os.with_nodes os.denied os.dev os.body os.mode os.seekable
                        os.readable mbind option_bind].

Ltac fs_go :=
  repeat (progress (fs_simpl; rewrite ?lookup_insert_eq; rewrite ?lookup_insert_ne by done;
                    rewrite ?decide_False by done)).

(** What a successful [copyFile] finds and what it leaves. *)
Lemma copyFile_success fs src dest fs' :
  copyFile fs src dest = (fs', None) ->
  (src ∉ os.denied fs) /\ (dest ∉ os.denied fs) /\
  exists f, os.nodes fs !! src = Some (os.Reg f) /\
    match os.nodes fs !! dest with
    | Some os.Dir => False
    | Some (os.Reg g) =>
        os.readable (if decide (src = dest) then g else f) = true /\
        fs' = os.with_nodes fs
                (<[dest := os.Reg (os.mkFile
                                     (if decide (src = dest) then os.empty_content else os.body f)
                                     (os.mode (if decide (src = dest) then g else f))
                                     (os.seekable g) (os.readable g))]> (os.nodes fs))
    | None =>
        os.readable f = true /\
        fs' = os.with_nodes fs
                (<[dest := os.Reg (os.mkFile (os.body f) (os.mode f) true true)]> (os.nodes fs))
    end.
Proof.
  unfold copyFile, os.Open. case_decide as Hsd; [done|].
  case_bool_decide as Hsrc; cbn [negb]; [|done].
  destruct (os.Create fs dest) as [fs1|] eqn:HC; [|done].
  apply Create_inv in HC as (Hdd & g0 & -> & Hg0).
  unfold os.read_all, os.write_all, os.Stat, os.Chmod.
  destruct (decide (src = dest)) as [->|Hne].
  - destruct (os.nodes fs !! dest) as [[|g]|] eqn:Hdest; [done| |by destruct Hsrc].
    subst g0. fs_go. destruct (os.readable g) eqn:Hr; [|done]. fs_go.
    intros [= <-]. do 2 (split; [done|]).
    exists g. split; [done|]. split; [done|]. unfold os.with_nodes. fs_simpl.
    by rewrite !insert_insert_eq.
  - fs_go.
    destruct (os.nodes fs !! src) as [[|f]|] eqn:Hs; [done| |by destruct Hsrc].
    destruct (os.readable f) eqn:Hr; [|done]. fs_go. rewrite Hs. fs_go.
    intros [= <-]. do 2 (split; [done|]). exists f. split; [done|].
    destruct (os.nodes fs !! dest) as [[|g]|] eqn:Hdest; [done|..]; subst g0;
      (split; [done|]); unfold os.with_nodes; fs_simpl; by rewrite !insert_insert_eq.
Qed.

(** X6: a successful [copyFile] to another path leaves at the destination a
    regular file with the bytes and the permission bits of the source; the
    source and every other path are as before. *)
Theorem copyFile_copies (fs : os.FS) (src dest : string) (fs' : os.FS) :
  copyFile fs src dest = (fs', None) ->
  src <> dest ->
  exists f f',
    os.nodes fs !! src = Some (os.Reg f) /\
    os.nodes fs' !! dest = Some (os.Reg f') /\
    os.body f' = os.body f /\ os.mode f' = os.mode f /\
    os.Stat fs' dest = os.Stat fs src /\
    forall q, q <> dest -> os.nodes fs' !! q = os.nodes fs !! q.
Proof.
  intros H Hne. destruct (copyFile_success _ _ _ _ H) as (Hsd & Hdd & f & Hs & Hcase).
  assert (exists f', fs' = os.with_nodes fs (<[dest := os.Reg f']> (os.nodes fs)) /\
                     os.body f' = os.body f /\ os.mode f' = os.mode f) as (f' & -> & Hb & Hm).
  { destruct (os.nodes fs !! dest) as [[|g]|]; [done|..];
      destruct (decide (src = dest)); try done; destruct Hcase as [_ ->];
      eexists; (split; [reflexivity|]); split; reflexivity. }
  exists f, f'. fs_simpl. rewrite lookup_insert_eq.
  repeat split; try done.
  - unfold os.Stat. fs_simpl. rewrite !decide_False by done.
    by rewrite lookup_insert_eq, Hs, Hm.
  - intros q Hq. by rewrite lookup_insert_ne.
Qed.

Lemma copyFile_copies_witness :
  copyFile Sample.fs0 "src/A.jpg" "dest/A.jpg"
    = ((copyFile Sample.fs0 "src/A.jpg" "dest/A.jpg").1, None) /\
  "src/A.jpg" <> "dest/A.jpg" /\
  (exists f f',
     os.nodes Sample.fs0 !! "src/A.jpg" = Some (os.Reg f) /\
     os.nodes (copyFile Sample.fs0 "src/A.jpg" "dest/A.jpg").1 !! "dest/A.jpg"
       = Some (os.Reg f') /\
     os.body f' = os.body f /\ os.mode f' = os.mode f /\
     os.Stat (copyFile Sample.fs0 "src/A.jpg" "dest/A.jpg").1 "dest/A.jpg"
       = os.Stat Sample.fs0 "src/A.jpg" /\
     forall q, q <> "dest/A.jpg" ->
       os.nodes (copyFile Sample.fs0 "src/A.jpg" "dest/A.jpg").1 !! q
       = os.nodes Sample.fs0 !! q).
Proof.
  split; [vm_compute; reflexivity|]. split; [done|].
  apply (copyFile_copies Sample.fs0 "src/A.jpg" "dest/A.jpg").
  - vm_compute; reflexivity.
  - done.
Defined.

(** X7: a successful [copyFile] of a file onto itself empties it:
    [os.Create] truncates the file before [io.Copy] reads it. *)
Theorem copyFile_onto_itself (fs : os.FS) (path : string) (fs' : os.FS) :
  copyFile fs path path = (fs', None) ->
  os.read_all fs' path = Some os.empty_content /\
  exists f, os.nodes fs !! path = Some (os.Reg f) /\ os.Stat fs' path = os.Stat fs path.
Proof.
  intros H. destruct (copyFile_success _ _ _ _ H) as (Hsd & _ & f & Hs & Hcase).
  rewrite Hs in Hcase. destruct (decide (path = path)) as [_|Hn]; [|done].
  destruct Hcase as [Hr ->]. split.
  - unfold os.read_all. fs_simpl. rewrite lookup_insert_eq. fs_simpl. by rewrite Hr.
  - exists f. split; [done|]. unfold os.Stat. fs_simpl.
    rewrite !decide_False by done. by rewrite lookup_insert_eq, Hs.
Qed.

Lemma copyFile_onto_itself_witness :
  copyFile Sample.fs0 "src/A.jpg" "src/A.jpg"
    = ((copyFile Sample.fs0 "src/A.jpg" "src/A.jpg").1, None) /\
  (os.read_all (copyFile Sample.fs0 "src/A.jpg" "src/A.jpg").1 "src/A.jpg"
     = Some os.empty_content /\
   exists f, os.nodes Sample.fs0 !! "src/A.jpg" = Some (os.Reg f) /\
     os.Stat (copyFile Sample.fs0 "src/A.jpg" "src/A.jpg").1 "src/A.jpg"
     = os.Stat Sample.fs0 "src/A.jpg").
Proof.
  split; [vm_compute; reflexivity|].
  apply (copyFile_onto_itself Sample.fs0 "src/A.jpg").
  vm_compute; reflexivity.
Defined.

(** X8: a [copyFile] that fails changes no path but the destination; when
    it fails on opening the source or on creating the destination the file
    system is as before, and when it fails later the file it created stays
    at the destination. *)
Theorem copyFile_failure (fs : os.FS) (src dest : string) (fs' : os.FS) (err : copy_error) :
  copyFile fs src dest = (fs', Some err) ->
  touches dest fs fs' /\
  match err with
  | CopyOpen | CopyCreate => fs' = fs
  | CopyContents | CopyStat | CopyChmod =>
      exists f, os.nodes fs' !! dest = Some (os.Reg f)
  end.
Proof.
  intros H. split; [by eapply copyFile_touches|]. revert H.
  unfold copyFile. destruct (os.Open fs src); cbn [negb]; [|by intros [= <- <-]].
  destruct (os.Create fs dest) as [fs1|] eqn:HC; [|by intros [= <- <-]].
  apply Create_touches in HC as (_ & _ & f1 & Hf1 & _).
  destruct (os.read_all fs1 src) as [c|] eqn:HR; cbn [mbind option_bind];
    [|intros [= <- <-]; eauto].
  destruct (os.write_all fs1 dest c) as [fs2|] eqn:HW; [|intros [= <- <-]; eauto].
  apply write_all_touches in HW as (_ & f2 & Hf2 & _).
  destruct (os.Stat fs2 src) as [d perm| |]; [|intros [= <- <-]; eauto..].
  destruct (os.Chmod fs2 dest perm) as [fs3|] eqn:HM; intros [= <- <-]. eauto.
Qed.

Lemma copyFile_failure_witness :
  copyFile Sample.fs0 "dest" "dest/copy"
    = ((copyFile Sample.fs0 "dest" "dest/copy").1, Some CopyContents) /\
  (touches "dest/copy" Sample.fs0 (copyFile Sample.fs0 "dest" "dest/copy").1 /\
   exists f, os.nodes (copyFile Sample.fs0 "dest" "dest/copy").1 !! "dest/copy"
             = Some (os.Reg f)).
Proof.
  split; [vm_compute; reflexivity|].
  apply (copyFile_failure Sample.fs0 "dest" "dest/copy" _ CopyContents).
  vm_compute; reflexivity.
Defined.

(** ** [moveFile] *)



(** [moveFile] does not cross volumes: between two paths on different
    volumes it fails and the file system is as it was. *)
Theorem moveFile_across_volumes (fs : os.FS) (src dest : string) :
  os.dev fs src <> os.dev fs dest -> moveFile fs src dest = (fs, false).
Proof.
  intros Hdev. unfold moveFile, os.Rename.
  case_decide; [done|]. case_decide; [done|].
  apply Nat.eqb_neq in Hdev. by rewrite Hdev.
Qed.

Lemma moveFile_across_volumes_witness :
  os.dev fs_two_volumes "src/A.jpg" <> os.dev fs_two_volumes "dest/A.jpg" /\
  moveFile fs_two_volumes "src/A.jpg" "dest/A.jpg" = (fs_two_volumes, false).
Proof.
  split; [vm_compute; lia|].
  apply (moveFile_across_volumes fs_two_volumes "src/A.jpg" "dest/A.jpg").
  vm_compute; lia.
Defined.

(** ** What [processFile] leaves in place *)

(** The target [processFile] copies to is never an existing file. *)
Lemma unconflicted_not_ok fs target :
  os.stat_ok (os.Stat fs (unconflicted fs target)) = false.
Proof.
  unfold unconflicted. destruct (os.stat_ok (os.Stat fs target)) eqn:Hok; [|done].
  pose proof (resolveNamingConflict_first fs target) as H.
  destruct (Split target) as [dir file]. cbn zeta in H.
  destruct H as (i & _ & _ & -> & Hfree & _). unfold free in Hfree. by rewrite Hfree.
Qed.

Lemma copyFile_extends fs src dest fs' err :
  os.stat_ok (os.Stat fs dest) = false ->
  copyFile fs src dest = (fs', err) -> extends fs fs'.
Proof.
  intros Hok H. unfold os.Stat in Hok. case_decide as Hd.
  - (* out of reach: nothing is created *)
    assert (fs' = fs) as ->; [|apply extends_refl].
    revert H. unfold copyFile. destruct (os.Open fs src); cbn [negb]; [|by intros [= <- _]].
    unfold os.Create. rewrite decide_True by done. by intros [= <- _].
  - apply copyFile_touches in H. apply (touches_extends dest); [done|].
    by destruct (os.nodes fs !! dest) as [[|f]|].
Qed.

Lemma MkdirAll_extends fs p fs' : os.MkdirAll fs p = Some fs' -> extends fs fs'.
Proof.
  unfold os.MkdirAll. case_decide; [done|].
  destruct (os.nodes fs !! p) as [[|f]|] eqn:Hp; [|done|]; intros [= <-].
  - apply extends_refl.
  - apply (touches_extends p); [apply touches_insert|done].
Qed.

Lemma destination_extends path destDir noDataDir date checksum fs fs1 destPath :
  destination path destDir noDataDir date checksum fs = Some (fs1, destPath) ->
  extends fs fs1 /\ os.stat_ok (os.Stat fs1 destPath) = false.
Proof.
  unfold destination. destruct (time.IsZero date).
  - intros [= <- <-]. split; [apply extends_refl|apply unconflicted_not_ok].
  - destruct (os.MkdirAll fs _) as [fs2|] eqn:Hm; [|done]. intros [= <- <-].
    split; [by eapply MkdirAll_extends|apply unconflicted_not_ok].
Qed.

Lemma critical_extends path destDir duplicatesDir noDataDir date checksum w w' out :
  critical path destDir duplicatesDir noDataDir date checksum w = (w', out) ->
  extends (w_fs w) (w_fs w').
Proof.
  intros H. destruct (w_duplicates w !! checksum) as [paths|] eqn:Hk.
  - destruct (critical_known _ _ _ _ _ _ _ _ _ _ Hk H) as (cerr & Hcopy & _).
    eapply copyFile_extends; [|exact Hcopy]. apply unconflicted_not_ok.
  - destruct (critical_unknown _ _ _ _ _ _ _ _ _ Hk H) as (_ & _ & Hc).
    destruct (destination _ _ _ _ _ _) as [[fs1 destPath]|] eqn:Hdest.
    + apply destination_extends in Hdest as [He Hok].
      destruct Hc as (cerr & Hcopy & _).
      eapply extends_trans; [exact He|]. by eapply copyFile_extends.
    + destruct Hc as [_ ->]. apply extends_refl.
Qed.



(** A copy to a target that was not an existing file. *)
Lemma copyFile_fresh fs src dest fs' :
  os.stat_ok (os.Stat fs dest) = false ->
  copyFile fs src dest = (fs', None) ->
  os.Stat fs dest = os.StatNotExist /\ src <> dest /\
  calculateChecksum fs' dest = calculateChecksum fs src /\
  os.Stat fs' dest = os.Stat fs src.
Proof.
  intros Hok H. destruct (copyFile_success _ _ _ _ H) as (Hsd & Hdd & f & Hs & Hcase).
  unfold os.Stat in Hok |- *. rewrite !decide_False in * by done.
  destruct (os.nodes fs !! dest) as [[|g]|] eqn:Hd; [done..|].
  destruct Hcase as [Hr ->]. split; [done|]. split; [congruence|].
  unfold calculateChecksum, os.read_all. fs_simpl.
  rewrite !decide_False by done. by rewrite lookup_insert_eq, Hs, Hr.
Qed.

Lemma prepare_checksum fs path date checksum :
  prepare fs path = inr (date, checksum) ->
  calculateChecksum fs path = Some checksum /\ date = resolveDate fs path.
Proof.
  unfold prepare. destruct (os.Open fs path); cbn [negb]; [|done].
  destruct (os.Seek_start fs path); cbn [negb]; [|done].
  destruct (calculateChecksum fs path); [|done]. by intros [= <- <-].
Qed.

(** X11: a file whose checksum is in the index is copied to the duplicates
    directory, under its own name or the first unused numbered one, a name
    that did not exist; the copy has the checksum of the source.  What is
    appended to the entry of the checksum is the path of the source, which is
    another path than that of the copy; the duplicate counter goes up by one
    and the log gets one line that names the source and the first path of
    the entry. *)
Theorem processFile_duplicate (path destDir duplicatesDir noDataDir : string)
    (w w' : World) (date : time.Time) (checksum : string) (paths : list string) :
  prepare (w_fs w) path = inr (date, checksum) ->
  w_duplicates w !! checksum = Some paths ->
  processFile path destDir duplicatesDir noDataDir w = (w', Returned None) ->
  let placed := unconflicted (w_fs w) (Join [duplicatesDir; Base path]) in
  w_duplicates w' = <[checksum := (paths ++ [path])%list]> (w_duplicates w) /\
  os.Stat (w_fs w) placed = os.StatNotExist /\
  calculateChecksum (w_fs w') placed = Some checksum /\
  placed <> path /\
  GetDuplicateCount (w_state w') = bump (GetDuplicateCount (w_state w)) /\
  exists first rest,
    paths = first :: rest /\
    w_logFile w' = (w_logFile w ++ [duplicate_line path first])%list.
Proof.
  intros Hprep Hk H placed. subst placed.
  rewrite (processFile_prepared _ _ _ _ _ _ _ Hprep) in H.
  destruct (critical_known _ _ _ _ _ _ _ _ _ _ Hk H) as ([cerr|] & Hcopy & Hc).
  { by destruct Hc as [[=] _]. }
  destruct Hc as (Hidx & Hst & Hlog).
  destruct (copyFile_fresh _ _ _ _ (unconflicted_not_ok _ _) Hcopy) as (Hfree & Hne & Hsum & _).
  apply prepare_checksum in Hprep as [Hprep _].
  split; [done|]. split; [done|]. split; [by rewrite Hsum|]. split; [done|].
  split; [by rewrite Hst|].
  destruct paths as [|first rest]; [by destruct Hlog|]. destruct Hlog as [_ ->]. eauto.
Qed.

Lemma processFile_duplicate_witness :
  prepare (w_fs Sample.wA) "src/B.jpg" = inr (Sample.may_2020, Sample.sum_X) /\
  w_duplicates Sample.wA !! Sample.sum_X = Some ["dest/2020/05/01/A_02129bb8.jpg"] /\
  Sample.run "src/B.jpg" Sample.wA = (Sample.wAB, Returned None) /\
  (let placed := unconflicted (w_fs Sample.wA) (Join [duplicatesDir_of "dest"; Base "src/B.jpg"]) in
   w_duplicates Sample.wAB
     = <[Sample.sum_X := (["dest/2020/05/01/A_02129bb8.jpg"] ++ ["src/B.jpg"])%list]>
         (w_duplicates Sample.wA) /\
   os.Stat (w_fs Sample.wA) placed = os.StatNotExist /\
   calculateChecksum (w_fs Sample.wAB) placed = Some Sample.sum_X /\
   placed <> "src/B.jpg" /\
   GetDuplicateCount (w_state Sample.wAB) = bump (GetDuplicateCount (w_state Sample.wA)) /\
   exists first rest,
     ["dest/2020/05/01/A_02129bb8.jpg"] = first :: rest /\
     w_logFile Sample.wAB
       = (w_logFile Sample.wA ++ [duplicate_line "src/B.jpg" first])%list).
Proof.
  split; [vm_compute; reflexivity|]. split; [vm_compute; reflexivity|].
  split; [vm_compute; reflexivity|].
  apply (processFile_duplicate "src/B.jpg" "dest" (duplicatesDir_of "dest")
           (noDataDir_of "dest") Sample.wA Sample.wAB Sample.may_2020 Sample.sum_X
           ["dest/2020/05/01/A_02129bb8.jpg"]).
  - vm_compute; reflexivity.
  - vm_compute; reflexivity.
  - vm_compute; reflexivity.
Defined.

(** X12: a file whose checksum is not in the index is copied to the
    destination [processFile] determines, a name that did not exist; the
    index gets the entry of that one path, the file there has the checksum
    of the entry, and the counters and the log are as they were. *)
Theorem processFile_first_of_checksum (path destDir duplicatesDir noDataDir : string)
    (w w' : World) (date : time.Time) (checksum : string) :
  prepare (w_fs w) path = inr (date, checksum) ->
  w_duplicates w !! checksum = None ->
  processFile path destDir duplicatesDir noDataDir w = (w', Returned None) ->
  exists fs1 destPath,
    destination path destDir noDataDir date checksum (w_fs w) = Some (fs1, destPath) /\
    w_duplicates w' = <[checksum := [destPath]]> (w_duplicates w) /\
    os.Stat fs1 destPath = os.StatNotExist /\
    calculateChecksum (w_fs w') destPath = Some checksum /\
    os.Stat (w_fs w') destPath = os.Stat (w_fs w) path /\
    w_state w' = w_state w /\ w_logFile w' = w_logFile w.
Proof.
  intros Hprep Hk H. rewrite (processFile_prepared _ _ _ _ _ _ _ Hprep) in H.
  destruct (critical_unknown _ _ _ _ _ _ _ _ _ Hk H) as (Hst & Hlog & Hc).
  destruct (destination _ _ _ _ _ _) as [[fs1 destPath]|] eqn:Hdest;
    [|by destruct Hc as [[=] _]].
  destruct Hc as ([cerr|] & Hcopy & Hc); [by destruct Hc as [[=] _]|].
  destruct Hc as [_ Hidx].
  destruct (destination_extends _ _ _ _ _ _ _ _ Hdest) as [(Hden & _ & Hext) Hok].
  destruct (copyFile_fresh _ _ _ _ Hok Hcopy) as (Hfree & Hne & Hsum & Hstat).
  apply prepare_checksum in Hprep as [Hprep _].
  assert (exists f, os.nodes (w_fs w) !! path = Some (os.Reg f) /\ os.readable f = true)
    as (f & Hf & Hr).
  { revert Hprep. unfold calculateChecksum, os.read_all.
    destruct (os.nodes (w_fs w) !! path) as [[|f]|]; [done| |done].
    destruct (os.readable f) eqn:Hr; [eauto|done]. }
  pose proof (Hext _ _ Hf) as Hf1.
  assert (path ∉ os.denied (w_fs w)) as Hnd.
  { destruct (copyFile_success _ _ _ _ Hcopy) as (Hsd & _). by rewrite Hden in Hsd. }
  exists fs1, destPath. repeat split; try done.
  - rewrite Hsum, <- Hprep. unfold calculateChecksum, os.read_all. by rewrite Hf, Hf1.
  - rewrite Hstat. unfold os.Stat. rewrite Hden, Hf, Hf1. done.
Qed.

Lemma processFile_first_of_checksum_witness :
  prepare (w_fs Sample.w0) "src/A.jpg" = inr (Sample.may_2020, Sample.sum_X) /\
  w_duplicates Sample.w0 !! Sample.sum_X = None /\
  Sample.run "src/A.jpg" Sample.w0 = (Sample.wA, Returned None) /\
  (exists fs1 destPath,
     destination "src/A.jpg" "dest" (noDataDir_of "dest") Sample.may_2020 Sample.sum_X
       (w_fs Sample.w0) = Some (fs1, destPath) /\
     w_duplicates Sample.wA = <[Sample.sum_X := [destPath]]> (w_duplicates Sample.w0) /\
     os.Stat fs1 destPath = os.StatNotExist /\
     calculateChecksum (w_fs Sample.wA) destPath = Some Sample.sum_X /\
     os.Stat (w_fs Sample.wA) destPath = os.Stat (w_fs Sample.w0) "src/A.jpg" /\
     w_state Sample.wA = w_state Sample.w0 /\ w_logFile Sample.wA = w_logFile Sample.w0).
Proof.
  split; [vm_compute; reflexivity|]. split; [vm_compute; reflexivity|].
  split; [vm_compute; reflexivity|].
  apply (processFile_first_of_checksum "src/A.jpg" "dest" (duplicatesDir_of "dest")
           (noDataDir_of "dest") Sample.w0 Sample.wA Sample.may_2020 Sample.sum_X).
  - vm_compute; reflexivity.
  - vm_compute; reflexivity.
  - vm_compute; reflexivity.
Defined.


(** ** [CountFiles] *)

Lemma walked_length vs : length (walked vs) <= length vs.
Proof.
  induction vs as [|[path name isDir|path] vs IH]; simpl; [lia| |lia].
  destruct (eligible name isDir); simpl; lia.
Qed.

(** X13: [CountFiles] fails when the walk meets an error, and otherwise
    returns the number of entries that are neither directories nor named
    with a leading dot, which is the number of files the walk of
    [ProcessFiles] sends to the workers. *)
Theorem CountFiles_counts (vs : list visit) :
  (Z.of_nat (length vs) <= max_int)%Z ->
  CountFiles vs = if walk_fails vs then None else Some (Z.of_nat (length (walked vs))).
Proof.
  intros Hlen. unfold CountFiles. rewrite count_walk_walked.
  destruct (walk_fails vs); [done|]. f_equal.
  pose proof (walked_length vs). rewrite after_small; lia.
Qed.

Lemma CountFiles_counts_witness :
  (Z.of_nat (length Run.walk) <= max_int)%Z /\
  CountFiles Run.walk
  = if walk_fails Run.walk then None else Some (Z.of_nat (length (walked Run.walk))).
Proof.
  split; [vm_compute; discriminate|].
  apply (CountFiles_counts Run.walk). vm_compute; discriminate.
Defined.

(** ** The counters of [State] *)

Lemma calls_snoc ms m s : calls (ms ++ [m]) s = call (calls ms s) m.
Proof. unfold calls. by rewrite fold_left_app. Qed.

Lemma times_snoc f ms m : times f (ms ++ [m]) = times f ms + (if f m then 1 else 0).
Proof. unfold times. rewrite sum_list_with_app. simpl. lia. Qed.

Lemma times_length f ms : times f ms <= length ms.
Proof. unfold times. induction ms as [|m ms IH]; simpl; [lia|]. destruct (f m); lia. Qed.

(** X14: after any sequence of calls of the methods of [State], begun at
    [NewState total], each counter is the number of calls of its increment
    method, [total] is the number given to [NewState], the message is that
    of the last [UpdateMessage] (or the initial one), and [Status] returns
    the state itself. *)
Theorem State_counts (total : Z) (ms : list method) :
  (Z.of_nat (length ms) <= max_int)%Z ->
  let s := calls ms (NewState total) in
  GetProcessedCount s = Z.of_nat (times is_IncrementProcessed ms) /\
  GetDuplicateCount s = Z.of_nat (times is_IncrementDuplicates ms) /\
  GetErrorCount s = Z.of_nat (times is_IncrementError ms) /\
  GetTotalCount s = total /\
  message s = default "Initializing..." (last (omap message_of ms)) /\
  Status s = s.
Proof.
  induction ms as [|m ms IH] using rev_ind; [done|].
  rewrite length_app. simpl. intros Hlen. rewrite calls_snoc, !times_snoc, omap_app.
  destruct IH as (Hp & Hd & He & Ht & Hm & _); [lia|].
  pose proof (times_length is_IncrementProcessed ms).
  pose proof (times_length is_IncrementDuplicates ms).
  pose proof (times_length is_IncrementError ms).
  unfold GetProcessedCount, GetDuplicateCount, GetErrorCount, GetTotalCount, Status in *.
  destruct m as [| | |msg]; simpl; rewrite ?app_nil_r, ?last_snoc, ?Nat.add_0_r;
    rewrite ?Hp, ?Hd, ?He; repeat split; try done;
    rewrite int_wrap_small; unfold max_int in *; lia.
Qed.

Lemma State_counts_witness :
  (Z.of_nat (length [CallIncrementProcessed; CallUpdateMessage "Working";
                     CallIncrementError; CallIncrementProcessed]) <= max_int)%Z /\
  (let s := calls [CallIncrementProcessed; CallUpdateMessage "Working";
                   CallIncrementError; CallIncrementProcessed] (NewState 1) in
   GetProcessedCount s
     = Z.of_nat (times is_IncrementProcessed
                   [CallIncrementProcessed; CallUpdateMessage "Working";
                    CallIncrementError; CallIncrementProcessed]) /\
   GetDuplicateCount s
     = Z.of_nat (times is_IncrementDuplicates
                   [CallIncrementProcessed; CallUpdateMessage "Working";
                    CallIncrementError; CallIncrementProcessed]) /\
   GetErrorCount s
     = Z.of_nat (times is_IncrementError
                   [CallIncrementProcessed; CallUpdateMessage "Working";
                    CallIncrementError; CallIncrementProcessed]) /\
   GetTotalCount s = 1%Z /\
   message s
     = default "Initializing..."
         (last (omap message_of [CallIncrementProcessed; CallUpdateMessage "Working";
                                 CallIncrementError; CallIncrementProcessed])) /\
   Status s = s).
Proof.
  split; [vm_compute; discriminate|].
  apply (State_counts 1 [CallIncrementProcessed; CallUpdateMessage "Working";
                         CallIncrementError; CallIncrementProcessed]).
  vm_compute; discriminate.
Defined.

(** ** [main] *)

(** X15: a run of [main] that has completed, on a source tree that the two
    walks see alike, has processed as many files as it had counted: the
    [processed] counter equals [total], whatever the number of files that
    failed, and [ProcessFiles] returns no error. *)
Theorem main_processed_equals_total (Args : list string) (fs : os.FS) (vs : list visit)
    (numCPU : nat) (destDir : string) (p0 p : Pool) :
  main.start Args fs vs vs numCPU = inr (destDir, p0) ->
  rtc (step destDir) p0 p ->
  completed p ->
  GetProcessedCount (w_state (p_world p)) = GetTotalCount (w_state (p_world p)) /\
  ProcessFiles_result p = false /\
  map fst (p_ticks p) ≡ₚ walked vs.
Proof.
  unfold main.start. destruct Args as [|prog [|sourceDir [|dest rest]]]; try done.
  destruct (os.stat_not_exist _); [done|].
  destruct (os.MkdirAll fs dest) as [fs1|]; [|done].
  destruct (CountFiles vs) as [totalFiles|] eqn:Hcount; [|done].
  destruct (ProcessFiles_start vs dest _ _ fs1 numCPU) as [q|] eqn:Hstart; [|done].
  intros [= <- <-] Hrun Hdone.
  destruct (start_accounted _ _ _ _ _ _ _ Hstart) as (Hacc & _).
  destruct (run_accounted _ _ _ _ _ Hrun Hacc) as [Hf Hp _ _ Ht Hfl _ _ _ _ _].
  destruct (completed_idle p Hdone) as (Hin & Hrem & Htally).
  rewrite Hin, Hrem, !app_nil_r in Hf. rewrite Htally, Nat.add_0_r in Hp by done.
  unfold CountFiles in Hcount. rewrite count_walk_walked in Hcount.
  destruct (walk_fails vs) eqn:Hw; [done|]. injection Hcount as <-.
  unfold GetProcessedCount, GetTotalCount. rewrite Hp, Ht. simpl.
  split; [by rewrite Hf, length_map|]. split; [|done].
  destruct Hdone as [[err Herr] _]. unfold ProcessFiles_result.
  rewrite Herr in *. by simpl in Hfl.
Qed.

Lemma main_finish_completed : completed main_finish.
Proof.
  split; [exists false; vm_compute; reflexivity|].
  vm_compute. repeat constructor.
Qed.

Lemma main_processed_equals_total_witness :
  main.start ["dedupe"; "src"; "dest"] fs_main Run.walk Run.walk 2
    = inr ("dest", main_start) /\
  rtc (step "dest") main_start main_finish /\
  completed main_finish /\
  (GetProcessedCount (w_state (p_world main_finish))
     = GetTotalCount (w_state (p_world main_finish)) /\
   ProcessFiles_result main_finish = false /\
   map fst (p_ticks main_finish) ≡ₚ walked Run.walk).
Proof.
  split; [vm_compute; reflexivity|]. split; [apply schedule_rtc|].
  split; [exact main_finish_completed|].
  apply (main_processed_equals_total ["dedupe"; "src"; "dest"] fs_main Run.walk 2 "dest"
           main_start main_finish).
  - vm_compute; reflexivity.
  - apply schedule_rtc.
  - exact main_finish_completed.
Defined.

(** Without two arguments [main] prints its usage and exits. *)
Example main_usage fs counted walked numCPU :
  main.start ["dedupe"; "src"] fs counted walked numCPU = inl main.Usage.
Proof. done. Qed.


(** ** Metadata *)

Lemma videoExtensions_lower ext : ext ∈ videoExtensions -> ToLower ext = ext.
Proof.
  unfold videoExtensions. rewrite !elem_of_cons, elem_of_nil.
  intros [->|[->|[->|[->|[->|[]]]]]]; reflexivity.
Qed.

Lemma lower_ascii_idemp c : lower_ascii (lower_ascii c) = lower_ascii c.
Proof.
  unfold lower_ascii.
  destruct ((65 <=? nat_of_ascii c)%nat && (nat_of_ascii c <=? 90)%nat) eqn:H; [|by rewrite H].
  apply andb_true_iff in H as [H1 H2]. apply Nat.leb_le in H1, H2.
  rewrite nat_ascii_embedding by lia.
  destruct ((65 <=? nat_of_ascii c + 32)%nat && (nat_of_ascii c + 32 <=? 90)%nat) eqn:H3;
    [|done].
  apply andb_true_iff in H3 as [_ H3]. apply Nat.leb_le in H3. lia.
Qed.

Lemma ToLower_idemp s : ToLower (ToLower s) = ToLower s.
Proof.
  unfold ToLower. rewrite to_of_chars, map_map. f_equal.
  apply map_ext. intros c. apply lower_ascii_idemp.
Qed.

Lemma isVideoFile_spec extension :
  isVideoFile extension = true <-> ToLower extension ∈ videoExtensions.
Proof.
  unfold isVideoFile. rewrite existsb_exists. split.
  - intros (ext & Hin & Heq). apply list_elem_of_In in Hin.
    unfold EqualFold in Heq. apply String.eqb_eq in Heq.
    rewrite (videoExtensions_lower ext Hin) in Heq. by rewrite Heq.
  - intros Hin. exists (ToLower extension). split; [by apply list_elem_of_In|].
    unfold EqualFold. apply String.eqb_eq.
    by rewrite ToLower_idemp.
Qed.

(** X16: on an extension of ASCII bytes, [isVideoFile] holds exactly when
    the extension is, letter case apart, one of [.mp4], [.avi], [.mov],
    [.mkv] and [.wmv]; lowering the extension first, as [processFile] does,
    changes nothing, so that [getVideoCreationDate] never refuses as "not a
    valid video file" a path that [processFile] took for a video. *)
Theorem isVideoFile_extensions (extension : string) :
  ascii_only extension ->
  (isVideoFile extension = true <->
   ToLower extension ∈ [".mp4"; ".avi"; ".mov"; ".mkv"; ".wmv"]) /\
  isVideoFile (ToLower extension) = isVideoFile extension /\
  (forall fs path, Ext path = extension -> isVideoFile (ToLower extension) = true ->
     (getVideoCreationDate fs path).2 <> Some NotVideo).
Proof.
  intros _. split; [apply isVideoFile_spec|].
  assert (isVideoFile (ToLower extension) = isVideoFile extension) as Hlow.
  { apply eq_true_iff_eq. by rewrite !isVideoFile_spec, ToLower_idemp. }
  split; [done|]. intros fs path <- Hv. rewrite Hlow in Hv.
  unfold getVideoCreationDate. rewrite Hv. cbn [negb].
  destruct (yami_GetMediaInfo _ _ _) as [info|]; [|done].
  destruct (yami.GetFirstVideoTrack info) as [track|]; [|done].
  case_bool_decide; [done|]. by destruct (time.Parse_tagged _).
Qed.

Lemma isVideoFile_extensions_witness :
  ascii_only ".MoV" /\
  ((isVideoFile ".MoV" = true <->
    ToLower ".MoV" ∈ [".mp4"; ".avi"; ".mov"; ".mkv"; ".wmv"]) /\
   isVideoFile (ToLower ".MoV") = isVideoFile ".MoV" /\
   (forall fs path, Ext path = ".MoV" -> isVideoFile (ToLower ".MoV") = true ->
      (getVideoCreationDate fs path).2 <> Some NotVideo)).
Proof.
  split; [by vm_compute; repeat constructor|].
  apply (isVideoFile_extensions ".MoV"). vm_compute. repeat constructor.
Defined.



(** ** The tagged date *)

Lemma cutspace_suffix cs : time.cutspace cs `suffix_of` cs.
Proof.
  induction cs as [|c cs IH]; simpl; [done|].
  destruct (time.is_space c); [by apply suffix_cons_r|done].
Qed.

Lemma skip_suffix value prefix sp v :
  time.skip value prefix sp = Some v -> v `suffix_of` value.
Proof.
  revert value sp. induction prefix as [|p prefix IH]; intros value sp; simpl.
  - by intros [= ->].
  - destruct (time.is_space p).
    + destruct sp; [apply IH|].
      destruct value as [|c value']; [apply IH|].
      destruct (time.is_space c); [|done]. intros H. apply IH in H.
      etrans; [exact H|]. apply (cutspace_suffix (c :: value')).
    + destruct value as [|c value']; [done|].
      destruct (Ascii.eqb c p); [|done]. intros H. apply IH in H. by apply suffix_cons_r.
Qed.

Lemma getnum_suffix cs fixed n v : time.getnum cs fixed = Some (n, v) -> v `suffix_of` cs.
Proof.
  unfold time.getnum. destruct cs as [|a [|b r]]; [done|..];
    destruct (time.isDigit a); try done.
  - destruct fixed; [done|]. intros [= _ <-]. by apply suffix_cons_r.
  - destruct (time.isDigit b).
    + intros [= _ <-]. by do 2 apply suffix_cons_r.
    + destruct fixed; [done|]. intros [= _ <-]. by apply suffix_cons_r.
Qed.

Lemma getyear_suffix cs year v :
  time.getyear cs = Some (year, v) -> v `suffix_of` cs /\ (Z.of_nat year <= 9999)%Z.
Proof.
  unfold time.getyear. destruct (_ && _) eqn:Hb; [|done]. intros [= <- <-].
  split; [apply suffix_drop|].
  apply andb_true_iff in Hb as [Hlen Hd]. apply Nat.leb_le in Hlen.
  destruct cs as [|a [|b [|c [|d r]]]]; simpl in Hlen; try lia.
  cbn [take firstn forallb] in *. 
  apply andb_true_iff in Hd as [H Hd]. apply andb_true_iff in Hd as [H0 Hd].
  apply andb_true_iff in Hd as [H1 Hd]. apply andb_true_iff in Hd as [H2 Hd].
  assert (forall x, time.isDigit x = true -> time.digit_val x <= 9) as Hv.
  { intros x Hx. unfold time.isDigit in Hx. unfold time.digit_val.
    apply andb_true_iff in Hx as [_ Hx]. apply Nat.leb_le in Hx. lia. }
  unfold time.atoi. rewrite take_0. cbn [fold_left].
  pose proof (Hv a H). pose proof (Hv b H0). pose proof (Hv c H1). pose proof (Hv d H2). lia.
Qed.

Lemma span_digits_suffix cs : (time.span_digits cs).2 `suffix_of` cs.
Proof.
  induction cs as [|c cs IH]; simpl; [done|].
  destruct (time.isDigit c); [|done].
  destruct (time.span_digits cs) as [d r]. simpl in *. by apply suffix_cons_r.
Qed.

Lemma fraction_suffix cs : (time.fraction cs).2 `suffix_of` cs.
Proof.
  unfold time.fraction. destruct cs as [|c [|d r]]; [done..|].
  destruct (_ && _); [|done].
  pose proof (span_digits_suffix (tail (c :: d :: r))) as H.
  destruct (time.span_digits _) as [ds r']. simpl in *. by apply suffix_cons_r.
Qed.

Lemma is_space_eq c : time.is_space c = true -> c = " "%char.
Proof. unfold time.is_space. by intros H%Ascii.eqb_eq. Qed.

Lemma cutspace_inv cs :
  exists n, cs = (replicate n " "%char ++ time.cutspace cs)%list.
Proof.
  induction cs as [|c cs [n IH]]; [by exists 0|]. simpl.
  destruct (time.is_space c) eqn:Hc; [|by exists 0].
  apply is_space_eq in Hc as ->. exists (S n). simpl. by rewrite <- IH.
Qed.

(** The value that the literal [" UTC"] of the layout matches to its end. *)
Lemma skip_UTC v :
  time.skip v (to_chars " UTC") false = Some [] ->
  exists body, v = (body ++ to_chars " UTC")%list.
Proof.
  cbn [to_chars list_ascii_of_string time.skip].
  change (time.is_space " ") with true. cbn iota.
  destruct v as [|c v']; [done|].
  destruct (time.is_space c) eqn:Hc; [|done]. apply is_space_eq in Hc as ->.
  destruct (cutspace_inv (" "%char :: v')) as [n Hn].
  destruct (time.cutspace (" "%char :: v')) as [|u [|t [|c r]]] eqn:Hcut; simpl;
    [done|by destruct (Ascii.eqb u "U")
    |by destruct (Ascii.eqb u "U"), (Ascii.eqb t "T")|].
  destruct (Ascii.eqb u "U") eqn:HU; [|done]. apply Ascii.eqb_eq in HU as ->.
  destruct (Ascii.eqb t "T") eqn:HT; [|done]. apply Ascii.eqb_eq in HT as ->.
  destruct (Ascii.eqb c "C") eqn:HC; [|done]. apply Ascii.eqb_eq in HC as ->.
  intros [= ->]. destruct n as [|n]; [done|].
  exists (replicate n " "%char). rewrite Hn.
  change (S n) with (1 + n). rewrite Nat.add_comm, replicate_add.
  by rewrite <- app_assoc.
Qed.

(** X18: a tagged date that [getVideoCreationDate] can parse ends in the
    letters [UTC] after a space, whatever the zone it was written for: the
    layout has these letters as literal text.  The time it parses to is a
    date and a time of day that exist. *)
Theorem Parse_tagged_UTC (value : string) (t : time.Time) :
  time.Parse_tagged value = Some t ->
  (exists body, value = body +:+ " UTC") /\ valid t.
Proof.
  unfold time.Parse_tagged. intros H.
  apply bind_Some in H as ([year v1] & Hy & H).
  apply bind_Some in H as (v2 & H2 & H).
  apply bind_Some in H as ([month v3] & H3 & H).
  apply bind_Some in H as (Hmonth & _ & H).
  apply bind_Some in H as (v4 & H4 & H).
  apply bind_Some in H as ([day v5] & H5 & H).
  apply bind_Some in H as (v6 & H6 & H).
  apply bind_Some in H as ([hour v7] & H7 & H).
  apply bind_Some in H as (Hhour & _ & H).
  apply bind_Some in H as (v8 & H8 & H).
  apply bind_Some in H as ([min v9] & H9 & H).
  apply bind_Some in H as (Hmin & _ & H).
  apply bind_Some in H as (v10 & H10 & H).
  apply bind_Some in H as ([sec v11] & H11 & H).
  apply bind_Some in H as (Hsec & _ & H).
  pose proof (fraction_suffix v11) as Hfr.
  destruct (time.fraction v11) as [nsec v12]. simpl in Hfr.
  apply bind_Some in H as (v13 & H13 & H).
  apply bind_Some in H as (-> & _ & H).
  apply bind_Some in H as (Hday & _ & H).
  injection H as <-. apply getyear_suffix in Hy as [Hy Hyear]. split.
  - assert (v12 `suffix_of` to_chars value) as [k Hk].
    { etrans; [exact Hfr|]. etrans; [by eapply getnum_suffix|].
      etrans; [by eapply skip_suffix|]. etrans; [by eapply getnum_suffix|].
      etrans; [by eapply skip_suffix|]. etrans; [by eapply getnum_suffix|].
      etrans; [by eapply skip_suffix|]. etrans; [by eapply getnum_suffix|].
      etrans; [by eapply skip_suffix|]. etrans; [by eapply getnum_suffix|].
      etrans; [by eapply skip_suffix|]. done. }
    apply skip_UTC in H13 as [body ->].
    exists (of_chars (k ++ body)). apply to_chars_inj.
    by rewrite to_chars_app, to_of_chars, Hk, app_assoc.
  - unfold valid. simpl. lia.
Qed.

Lemma Parse_tagged_UTC_witness :
  time.Parse_tagged "2021-07-04 12:30:45 UTC" = Some (time.mkTime 2021 7 4 12 30 45 0) /\
  ((exists body, "2021-07-04 12:30:45 UTC" = body +:+ " UTC") /\
   valid (time.mkTime 2021 7 4 12 30 45 0)).
Proof.
  split; [vm_compute; reflexivity|].
  apply (Parse_tagged_UTC "2021-07-04 12:30:45 UTC"). vm_compute; reflexivity.
Defined.

(** A date written for another zone is not parsed. *)
Example Parse_tagged_other_zone :
  time.Parse_tagged "2021-07-04 12:30:45 PST" = None /\
  time.Parse_tagged "2021-07-04 12:30:45 +0200" = None /\
  time.Parse_tagged "2021-07-04 12:30:45" = None.
Proof. vm_compute. done. Qed.

Lemma reads_back2_all : forallb reads_back2 (seq 0 100) = true.
Proof. vm_compute. reflexivity. Qed.

Lemma reads_back4_all : forallb reads_back4 (seq 0 (100 * 100)) = true.
Proof. vm_compute. reflexivity. Qed.

Lemma pad2_chars n :
  n < 100 ->
  exists a b, to_chars (pad 2 n) = [a; b] /\ time.isDigit a = true /\
              time.isDigit b = true /\ 10 * time.digit_val a + time.digit_val b = n.
Proof.
  intros Hn. pose proof reads_back2_all as H. rewrite forallb_forall in H.
  specialize (H n). unfold reads_back2 in H.
  destruct (to_chars (pad 2 n)) as [|a [|b [|? ?]]];
    try (by discriminate H; apply in_seq; lia).
  exists a, b. assert (In n (seq 0 100)) as Hin by (apply in_seq; lia).
  apply H in Hin. apply andb_true_iff in Hin as [Hin Heq].
  apply andb_true_iff in Hin as [Ha Hb]. apply Nat.eqb_eq in Heq. done.
Qed.

Lemma pad4_chars n :
  (Z.of_nat n <= 9999)%Z ->
  exists cs, to_chars (pad 4 n) = cs /\ length cs = 4 /\
             forallb time.isDigit cs = true /\ time.atoi cs = n.
Proof.
  intros Hn. pose proof reads_back4_all as H. rewrite forallb_forall in H.
  assert (In n (seq 0 (100 * 100))) as Hin by (apply in_seq; lia).
  apply H in Hin. unfold reads_back4 in Hin.
  destruct (to_chars (pad 4 n)) as [|a [|b [|c [|d [|? ?]]]]]; try done.
  apply andb_true_iff in Hin as [Hd Heq]. apply Nat.eqb_eq in Heq.
  by exists [a; b; c; d].
Qed.

Lemma getyear_digits cs rest :
  length cs = 4 -> forallb time.isDigit cs = true ->
  time.getyear (cs ++ rest) = Some (time.atoi cs, rest).
Proof.
  intros Hlen Hd. unfold time.getyear.
  rewrite take_app_length' by done. rewrite drop_app_length' by done.
  rewrite Hd, length_app, Hlen. done.
Qed.

Lemma getnum_digits a b rest fixed :
  time.isDigit a = true -> time.isDigit b = true ->
  time.getnum (a :: b :: rest) fixed
  = Some (10 * time.digit_val a + time.digit_val b, rest).
Proof. intros Ha Hb. unfold time.getnum. by rewrite Ha, Hb. Qed.

Lemma digit_not_space a : time.isDigit a = true -> time.is_space a = false.
Proof.
  unfold time.isDigit, time.is_space. intros H.
  apply andb_true_iff in H as [H _]. apply Nat.leb_le in H.
  apply Ascii.eqb_neq. intros ->. vm_compute in H. lia.
Qed.

Ltac parse_step tac := apply bind_Some; eexists; split; [tac|]; cbn beta iota.

(** X19: the round trip of the tagged date: a date and a time of day that
    exist, written in the layout of the tagged date, are parsed to the same
    time. *)
Theorem Parse_tagged_Format (t : time.Time) :
  valid t -> time.Nanosecond t = 0%N ->
  time.Parse_tagged (Format_tagged t) = Some t.
Proof.
  intros (Hy & Hmo & Hd & Hh & Hmi & Hs) Hn.
  destruct t as [year month day hour min sec nsec]. simpl in *. subst nsec.
  destruct (pad4_chars year Hy) as (ys & Hys & Hlen & Hdig & Hval).
  assert (day < 100) as Hd'.
  { destruct Hd as [_ Hd]. unfold time.daysIn in Hd. repeat case_match; lia. }
  destruct (pad2_chars month) as (m1 & m2 & Hm & Hm1 & Hm2 & Hmv); [lia|].
  destruct (pad2_chars day) as (d1 & d2 & Hdd & Hd1 & Hd2 & Hdv); [lia|].
  destruct (pad2_chars hour) as (h1 & h2 & Hhh & Hh1 & Hh2 & Hhv); [lia|].
  destruct (pad2_chars min) as (i1 & i2 & Hii & Hi1 & Hi2 & Hiv); [lia|].
  destruct (pad2_chars sec) as (s1 & s2 & Hss & Hs1 & Hs2 & Hsv); [lia|].
  unfold time.Parse_tagged, Format_tagged. cbn [time.Year time.Month time.Day time.Hour
    time.Minute time.Second].
  rewrite !to_chars_app, Hys, Hm, Hdd, Hhh, Hii, Hss.
  change (to_chars "-") with ["-"%char]. change (to_chars ":") with [":"%char].
  change (to_chars " ") with [" "%char]. cbn [app].
  parse_step ltac:(by apply getyear_digits).
  parse_step ltac:(reflexivity).
  parse_step ltac:(by apply getnum_digits).
  rewrite Hmv, option_guard_True by done.
  parse_step ltac:(reflexivity).
  parse_step ltac:(by apply getnum_digits).
  parse_step ltac:(cbn [time.skip time.cutspace]; change (time.is_space " ") with true;
                   cbn iota; rewrite (digit_not_space h1) by done; reflexivity).
  parse_step ltac:(by apply getnum_digits).
  rewrite Hhv, option_guard_True by done.
  parse_step ltac:(reflexivity).
  parse_step ltac:(by apply getnum_digits).
  rewrite Hiv, option_guard_True by done.
  parse_step ltac:(reflexivity).
  parse_step ltac:(by apply getnum_digits).
  rewrite Hsv, option_guard_True by done.
  change (time.fraction (to_chars " UTC")) with (0%N, to_chars " UTC"). cbn beta iota.
  parse_step ltac:(reflexivity).
  rewrite option_guard_True by done. rewrite Hdv, Hval, option_guard_True by done.
  done.
Qed.

Lemma Parse_tagged_Format_witness :
  valid (time.mkTime 2021 7 4 12 30 45 0) /\ time.Nanosecond (time.mkTime 2021 7 4 12 30 45 0) = 0%N /\
  time.Parse_tagged (Format_tagged (time.mkTime 2021 7 4 12 30 45 0))
  = Some (time.mkTime 2021 7 4 12 30 45 0).
Proof.
  assert (valid (time.mkTime 2021 7 4 12 30 45 0)) as Hv.
  { unfold valid. simpl. lia. }
  split; [exact Hv|]. split; [reflexivity|].
  apply (Parse_tagged_Format (time.mkTime 2021 7 4 12 30 45 0)); [|reflexivity].
  unfold valid. simpl. lia.
Defined.

(** The video of the sample: its date is that of the tagged date of its
    first video track, and a prober that takes eleven seconds gives none. *)
Example resolveDate_video :
  resolveDate fs_video "src/V.MP4" = time.mkTime 2021 7 4 12 30 45 0 /\
  resolveDate
    (os.with_nodes Sample.fs0
       (<["src/V.MP4" :=
            os.Reg (os.mkFile
                      (os.mkContent "V" None
                         (yami.mkProbe 11000000000%N
                            (Some (yami.mkInfo
                                     (Some (yami.mkTrack "2021-07-04 12:30:45 UTC"))))))
                      0x1a4 true true)]> Sample.tree))
    "src/V.MP4" = time.zero.
Proof. vm_compute. done. Qed.


(** ** The checksum *)

Lemma of_chars_length cs : String.length (of_chars cs) = length cs.
Proof. by rewrite <- to_chars_length, to_of_chars. Qed.

Lemma le_bytes_length n x : length (md5.le_bytes n x) = n.
Proof. unfold md5.le_bytes. by rewrite length_map, length_seq. Qed.

Lemma Sum_length data : length (md5.Sum data) = 16.
Proof. unfold md5.Sum. by rewrite !length_app, !le_bytes_length. Qed.

Lemma digit_lower_hex n : lower_hex (hex.digit n).
Proof.
  unfold lower_hex, hex.digit. apply list_elem_of_In, nth_In.
  change (length hex.hextable) with 16.
  change 0xf%N with (N.ones 4). rewrite N.land_ones.
  pose proof (N.mod_lt n (2 ^ 4)%N). lia.
Qed.

Lemma EncodeToString_hex bs :
  String.length (hex.EncodeToString bs) = 2 * length bs /\
  Forall lower_hex (to_chars (hex.EncodeToString bs)).
Proof.
  unfold hex.EncodeToString. rewrite of_chars_length, to_of_chars.
  induction bs as [|b bs [IH1 IH2]]; simpl; [by split|]. split; [lia|].
  apply Forall_cons; split; [apply digit_lower_hex|].
  apply Forall_cons; split; [apply digit_lower_hex|done].
Qed.

Lemma lower_hex_slash_free cs : Forall lower_hex cs -> slash_free cs.
Proof.
  intros H. eapply Forall_impl; [exact H|]. intros c Hc. cbn beta.
  unfold lower_hex, hex.hextable in Hc.
  apply list_elem_of_In in Hc. simpl in Hc.
  repeat (destruct Hc as [<-|Hc]; [done|]). done.
Qed.

(** X20: the checksum [calculateChecksum] returns has thirty-two digits,
    each of them one of [0123456789abcdef]; so the slice [checksum[:8]] of
    [processFile] is within bounds and has eight of these digits, and the
    same bytes give the same checksum whatever the file they are read
    from. *)
Theorem calculateChecksum_hex (fs : os.FS) (file checksum : string) :
  calculateChecksum fs file = Some checksum ->
  String.length checksum = 32 /\
  Forall lower_hex (to_chars checksum) /\
  String.length (prefix 8 checksum) = 8 /\
  Forall lower_hex (to_chars (prefix 8 checksum)) /\
  forall fs' file' c c',
    os.read_all fs file = Some c -> os.read_all fs' file' = Some c' ->
    os.data c' = os.data c -> calculateChecksum fs' file' = Some checksum.
Proof.
  unfold calculateChecksum. intros H.
  apply bind_Some in H as (c & Hc & [= <-]).
  destruct (EncodeToString_hex (md5.Sum (os.data c))) as [Hlen Hhex].
  rewrite Sum_length in Hlen. split; [done|]. split; [done|].
  unfold prefix. rewrite of_chars_length, to_of_chars, length_take, to_chars_length, Hlen.
  split; [done|]. split; [by apply Forall_take|].
  intros fs' file' c0 c' Hc0 Hc' Hdata. rewrite Hc in Hc0. injection Hc0 as <-.
  rewrite Hc'. simpl. by rewrite Hdata.
Qed.

Lemma calculateChecksum_hex_witness :
  calculateChecksum Sample.fs0 "src/A.jpg" = Some Sample.sum_X /\
  (String.length Sample.sum_X = 32 /\
   Forall lower_hex (to_chars Sample.sum_X) /\
   String.length (prefix 8 Sample.sum_X) = 8 /\
   Forall lower_hex (to_chars (prefix 8 Sample.sum_X)) /\
   forall fs' file' c c',
     os.read_all Sample.fs0 "src/A.jpg" = Some c -> os.read_all fs' file' = Some c' ->
     os.data c' = os.data c -> calculateChecksum fs' file' = Some Sample.sum_X).
Proof.
  split; [vm_compute; reflexivity|].
  apply (calculateChecksum_hex Sample.fs0 "src/A.jpg" Sample.sum_X).
  vm_compute; reflexivity.
Defined.

(** ** The text of the destination paths *)

Lemma split_sep_join es :
  Forall slash_free es -> es <> [] -> split_sep (join_sep es) = es.
Proof.
  induction 1 as [|e es He Hes IH]; [done|]. intros _.
  destruct es as [|e2 es]; [by apply split_sep_slash_free|].
  change (join_sep (e :: e2 :: es)) with (e ++ slash :: join_sep (e2 :: es))%list.
  rewrite split_sep_app, (split_sep_slash_free e He), IH; done.
Qed.

Lemma fold_clean_step rooted es st :
  Forall (fun e => is_dotdot e = false) es ->
  fold_left (clean_step rooted) es st = (rev es ++ st)%list.
Proof.
  intros H. revert st. induction H as [|e es He _ IH]; intros st; [done|].
  cbn [fold_left]. rewrite clean_step_plain by done. rewrite IH. cbn [rev].
  by rewrite <- app_assoc.
Qed.

Lemma filter_proper es :
  Forall plain_name es -> filter (fun e => Is_true (proper e)) es = es.
Proof.
  induction 1 as [|e es (_ & Hp & _) _ IH]; [done|].
  rewrite filter_cons_True by (by rewrite Hp). by rewrite IH.
Qed.

Lemma plain_head e es : plain_name e -> exists c r, (join_sep (e :: es)) = c :: r /\ is_slash c = false.
Proof.
  intros (Hsf & Hp & _). destruct e as [|c r]; [done|].
  inversion Hsf as [|? ? Hc _]; subst. exists c.
  destruct es; simpl; eauto.
Qed.

Lemma clean_chars_simple (rooted : bool) es :
  es <> [] -> Forall plain_name es ->
  clean_chars ((if rooted then [slash] else []) ++ join_sep es)
  = ((if rooted then [slash] else []) ++ join_sep es)%list.
Proof.
  intros Hne Hall.
  assert (Forall slash_free es) as Hsf by (eapply Forall_impl; [exact Hall|]; by intros e [? _]).
  assert (Forall (fun e => is_dotdot e = false) es) as Hdd
    by (eapply Forall_impl; [exact Hall|]; by intros e (_ & _ & ?)).
  unfold clean_chars. destruct rooted; cbn [app].
  - change (is_slash slash) with true. cbn [split_sep]. change (is_slash slash) with true.
    cbn iota. rewrite (split_sep_join es Hsf Hne).
    rewrite filter_cons_False by (cbn; tauto). rewrite (filter_proper es Hall).
    by rewrite fold_clean_step, app_nil_r, rev_involutive.
  - destruct es as [|e es]; [done|]. inversion Hall as [|? ? He _]; subst.
    destruct (plain_head e es He) as (c & r & Hcr & Hc).
    rewrite (split_sep_join (e :: es) Hsf Hne), (filter_proper _ Hall).
    rewrite fold_clean_step, app_nil_r by done. rewrite Hcr, Hc, <- Hcr.
    rewrite rev_involutive.
    destruct (rev (e :: es)) eqn:Hrev; [|done].
    apply (f_equal (@length chars)) in Hrev. by rewrite length_rev in Hrev.
Qed.

Lemma Clean_simple s : simple s -> Clean s = s.
Proof.
  intros (rooted & es & Hne & Hall & Hs). unfold Clean.
  rewrite Hs, clean_chars_simple by done. by rewrite <- Hs, of_to_chars.
Qed.

Lemma simple_snoc s name :
  simple s -> plain_name (to_chars name) -> simple (s +:+ "/" +:+ name).
Proof.
  intros (rooted & es & Hne & Hall & Hs) Hn.
  exists rooted, (es ++ [to_chars name])%list. split; [by destruct es|].
  split; [apply Forall_app; split; [done|by constructor]|].
  rewrite !to_chars_app, Hs, join_sep_snoc. destruct es as [|e es]; [done|].
  cbn [to_chars list_ascii_of_string]. by rewrite <- !app_assoc.
Qed.

Lemma simple_nonempty s : simple s -> s <> "".
Proof.
  intros (rooted & es & Hne & Hall & Hs) ->. destruct es as [|e es]; [done|].
  inversion Hall as [|? ? He _]; subst.
  destruct (plain_head e es He) as (c & r & Hcr & _). rewrite Hcr in Hs.
  by destruct rooted.
Qed.

(** [Join] of a clean path and a plain name is the text of the two with a
    separator between them. *)
Lemma Join_simple s name :
  simple s -> plain_name (to_chars name) ->
  Join [s; name] = s +:+ "/" +:+ name /\ simple (s +:+ "/" +:+ name).
Proof.
  intros Hs Hn. pose proof (simple_snoc s name Hs Hn) as Hsn. split; [|done].
  cbn [Join]. rewrite bool_decide_eq_false_2 by by apply simple_nonempty.
  cbn [concat_sep]. by apply Clean_simple.
Qed.

Lemma string_app_assoc (a b c : string) : (a +:+ b) +:+ c = a +:+ (b +:+ c).
Proof. apply to_chars_inj. by rewrite !to_chars_app, app_assoc. Qed.

Lemma Join_simple3 s a b c :
  simple s -> plain_name (to_chars a) -> plain_name (to_chars b) ->
  plain_name (to_chars c) ->
  Join [s; a; b; c] = s +:+ "/" +:+ a +:+ "/" +:+ b +:+ "/" +:+ c /\
  simple (s +:+ "/" +:+ a +:+ "/" +:+ b +:+ "/" +:+ c).
Proof.
  intros Hs Ha Hb Hc.
  pose proof (simple_snoc _ c (simple_snoc _ b (simple_snoc s a Hs Ha) Hb) Hc) as H.
  rewrite !string_app_assoc in H. split; [|done].
  cbn [Join]. rewrite bool_decide_eq_false_2 by by apply simple_nonempty.
  cbn [concat_sep]. by apply Clean_simple.
Qed.

Lemma digits_plain cs : digits cs -> cs <> [] -> plain_name cs.
Proof.
  intros Hd Hne. split; [by apply digits_slash_free|].
  destruct cs as [|c r]; [done|]. inversion Hd as [|? ? Hc _]; subst.
  assert (c <> dot) as Hdot by (intros ->; discriminate Hc).
  unfold proper, is_dotdot, dotdot.
  rewrite !bool_decide_eq_false_2; [done|congruence..].
Qed.

Lemma pad_plain w n : 1 <= w -> plain_name (to_chars (pad w n)).
Proof.
  intros Hw. unfold pad. rewrite to_chars_app, to_of_chars. apply digits_plain.
  - apply Forall_app. split; [by apply Forall_replicate|apply pretty_nat_digits].
  - intros H. apply (f_equal (@length ascii)) in H.
    rewrite length_app, length_replicate, to_chars_length in H. simpl in H. lia.
Qed.

Lemma underscore_plain a b :
  slash_free a -> slash_free b -> plain_name (a ++ underscore :: b).
Proof.
  intros Ha Hb. split; [|split].
  - apply Forall_app; split; [done|]. by constructor.
  - unfold proper. rewrite !bool_decide_eq_false_2; [done| |].
    + intros H. assert (underscore ∈ [dot]) as Hin by (rewrite <- H; set_solver).
      apply list_elem_of_singleton in Hin. discriminate.
    + intros H. by destruct a.
  - unfold is_dotdot. rewrite bool_decide_eq_false_2; [done|].
    intros H. assert (underscore ∈ dotdot) as Hin by (rewrite <- H; set_solver).
    unfold dotdot in Hin. apply list_elem_of_In in Hin. simpl in Hin.
    destruct Hin as [Hin|[Hin|[]]]; discriminate.
Qed.

Lemma ext_scan_no_slash rcs acc : slash_free acc -> slash_free (ext_scan rcs acc).
Proof.
  revert acc. induction rcs as [|c r IH]; intros acc Hacc; simpl; [constructor|].
  destruct (is_slash c) eqn:Hc; [constructor|].
  destruct (is_dot c); [by constructor|]. apply IH. by constructor.
Qed.

Lemma Ext_no_slash p : slash_free (to_chars (Ext p)).
Proof. unfold Ext. rewrite to_of_chars. apply ext_scan_no_slash. constructor. Qed.

Lemma destFileName_plain path checksum :
  slash_free (to_chars (Base path)) -> Forall lower_hex (to_chars checksum) ->
  plain_name (to_chars (destFileName path checksum)).
Proof.
  intros Hb Hc. unfold destFileName. rewrite !to_chars_app.
  change (to_chars "_") with [underscore]. cbn [app].
  apply underscore_plain; [by apply TrimSuffix_slash_free|].
  apply Forall_app. split; [|apply Ext_no_slash].
  apply lower_hex_slash_free. unfold prefix. rewrite to_of_chars. by apply Forall_take.
Qed.

(** X21: for a destination directory in clean form, the path [processFile]
    determines for a file with a date is, as text,
    [destDir/YYYY/MM/DD/<stem>_<8 digits of the checksum><ext>], with the
    year in four digits and the month and the day in two; the folder is
    created, and the file goes to that path, or, when the path exists, to
    the name [resolveNamingConflict] finds for it. *)
Theorem destination_dated (path destDir noDataDir : string) (date : time.Time)
    (checksum : string) (fs : os.FS) :
  simple destDir ->
  slash_free (to_chars (Base path)) ->
  Forall lower_hex (to_chars checksum) ->
  time.IsZero date = false ->
  let folder := destDir +:+ "/" +:+ pad 4 (time.Year date) +:+ "/"
                  +:+ pad 2 (time.Month date) +:+ "/" +:+ pad 2 (time.Day date) in
  let name := TrimSuffix (Base path) (Ext path) +:+ "_" +:+ prefix 8 checksum +:+ Ext path in
  destination path destDir noDataDir date checksum fs
  = match os.MkdirAll fs folder with
    | None => None
    | Some fs1 =>
        Some (fs1, if os.stat_ok (os.Stat fs1 (folder +:+ "/" +:+ name))
                   then resolveNamingConflict fs1 (folder +:+ "/" +:+ name)
                   else folder +:+ "/" +:+ name)
    end.
Proof.
  intros Hd Hb Hc Hz folder name. unfold destination. rewrite Hz.
  destruct (Join_simple3 destDir (pad 4 (time.Year date)) (pad 2 (time.Month date))
              (pad 2 (time.Day date)) Hd) as [Hfolder Hsimple];
    [apply pad_plain; lia..|].
  unfold destFolder, time.Format_year, time.Format_month, time.Format_day.
  rewrite Hfolder. fold folder. fold folder in Hsimple.
  destruct (Join_simple folder (destFileName path checksum) Hsimple) as [Hjoin _];
    [by apply destFileName_plain|].
  rewrite Hjoin. done.
Qed.

Lemma destination_dated_witness :
  simple "dest" /\
  slash_free (to_chars (Base "src/A.jpg")) /\
  Forall lower_hex (to_chars Sample.sum_X) /\
  time.IsZero Sample.may_2020 = false /\
  (let folder := "dest" +:+ "/" +:+ pad 4 (time.Year Sample.may_2020) +:+ "/"
                   +:+ pad 2 (time.Month Sample.may_2020) +:+ "/"
                   +:+ pad 2 (time.Day Sample.may_2020) in
   let name := TrimSuffix (Base "src/A.jpg") (Ext "src/A.jpg") +:+ "_"
                 +:+ prefix 8 Sample.sum_X +:+ Ext "src/A.jpg" in
   destination "src/A.jpg" "dest" (noDataDir_of "dest") Sample.may_2020 Sample.sum_X Sample.fs0
   = match os.MkdirAll Sample.fs0 folder with
     | None => None
     | Some fs1 =>
         Some (fs1, if os.stat_ok (os.Stat fs1 (folder +:+ "/" +:+ name))
                    then resolveNamingConflict fs1 (folder +:+ "/" +:+ name)
                    else folder +:+ "/" +:+ name)
     end).
Proof.
  assert (simple "dest") as Hs.
  { exists false, [to_chars "dest"]. split; [done|]. split; [|done].
    constructor; [|done]. split; [by repeat constructor|done]. }
  assert (slash_free (to_chars (Base "src/A.jpg"))) as Hb by (by repeat constructor).
  assert (Forall lower_hex (to_chars Sample.sum_X)) as Hc
    by (apply (bool_decide_unpack _); vm_compute; exact I).
  split; [exact Hs|]. split; [exact Hb|]. split; [exact Hc|]. split; [reflexivity|].
  apply (destination_dated "src/A.jpg" "dest" (noDataDir_of "dest") Sample.may_2020
           Sample.sum_X Sample.fs0 Hs Hb Hc). reflexivity.
Defined.

(** The dated path of the first photo of the sample tree. *)
Example destination_of_sample_photo :
  (destination "src/A.jpg" "dest" (noDataDir_of "dest") Sample.may_2020 Sample.sum_X
     Sample.fs0) ≫= (fun r => Some r.2)
  = Some "dest/2020/05/01/A_02129bb8.jpg".
Proof. vm_compute. reflexivity. Qed.

(** X22: for a destination directory in clean form and a source path whose
    last element is a plain name, the directories of [ProcessFiles] are
    [destDir/duplicates] and [destDir/nodata]; a duplicate is aimed at
    [destDir/duplicates/<name>] and a file without a date at
    [destDir/nodata/<name>], each under the name of the source, or under the
    one [resolveNamingConflict] finds when that path exists. *)
Theorem bucket_paths (path destDir checksum : string) (fs : os.FS) :
  simple destDir ->
  plain_name (to_chars (Base path)) ->
  duplicatesDir_of destDir = destDir +:+ "/duplicates" /\
  noDataDir_of destDir = destDir +:+ "/nodata" /\
  Join [duplicatesDir_of destDir; Base path] = destDir +:+ "/duplicates/" +:+ Base path /\
  destination path destDir (noDataDir_of destDir) time.zero checksum fs
  = Some (fs, if os.stat_ok (os.Stat fs (destDir +:+ "/nodata/" +:+ Base path))
              then resolveNamingConflict fs (destDir +:+ "/nodata/" +:+ Base path)
              else destDir +:+ "/nodata/" +:+ Base path).
Proof.
  intros Hd Hb.
  assert (plain_name (to_chars "duplicates")) as Hdup by (split; [by repeat constructor|done]).
  assert (plain_name (to_chars "nodata")) as Hnod by (split; [by repeat constructor|done]).
  destruct (Join_simple destDir "duplicates" Hd Hdup) as [Hj1 Hs1].
  destruct (Join_simple destDir "nodata" Hd Hnod) as [Hj2 Hs2].
  destruct (Join_simple _ (Base path) Hs1 Hb) as [Hj3 _].
  destruct (Join_simple _ (Base path) Hs2 Hb) as [Hj4 _].
  unfold duplicatesDir_of, noDataDir_of. rewrite Hj1, Hj2.
  split; [done|]. split; [done|].
  change (destDir +:+ "/" +:+ "duplicates") with (destDir +:+ "/duplicates") in Hj3.
  change (destDir +:+ "/" +:+ "nodata") with (destDir +:+ "/nodata") in Hj4.
  rewrite string_app_assoc in Hj3, Hj4.
  split; [exact Hj3|]. unfold destination.
  change (time.IsZero time.zero) with true. cbn iota. unfold unconflicted.
  change (destDir +:+ "/" +:+ "nodata") with (destDir +:+ "/nodata"). by rewrite Hj4.
Qed.

Lemma bucket_paths_witness :
  simple "dest" /\
  plain_name (to_chars (Base "src/C.txt")) /\
  (duplicatesDir_of "dest" = "dest" +:+ "/duplicates" /\
   noDataDir_of "dest" = "dest" +:+ "/nodata" /\
   Join [duplicatesDir_of "dest"; Base "src/C.txt"]
     = "dest" +:+ "/duplicates/" +:+ Base "src/C.txt" /\
   destination "src/C.txt" "dest" (noDataDir_of "dest") time.zero Sample.sum_Y Sample.fs0
   = Some (Sample.fs0,
           if os.stat_ok (os.Stat Sample.fs0 ("dest" +:+ "/nodata/" +:+ Base "src/C.txt"))
           then resolveNamingConflict Sample.fs0 ("dest" +:+ "/nodata/" +:+ Base "src/C.txt")
           else "dest" +:+ "/nodata/" +:+ Base "src/C.txt")).
Proof.
  assert (simple "dest") as Hs.
  { exists false, [to_chars "dest"]. split; [done|]. split; [|done].
    constructor; [|done]. split; [by repeat constructor|done]. }
  assert (plain_name (to_chars (Base "src/C.txt"))) as Hb.
  { split; [by repeat constructor|done]. }
  split; [exact Hs|]. split; [exact Hb|].
  apply (bucket_paths "src/C.txt" "dest" Sample.sum_Y Sample.fs0 Hs Hb).
Defined.


(** ** What a run leaves in place *)

Lemma step_extends destDir p p' :
  step destDir p p' -> extends (w_fs (p_world p)) (w_fs (p_world p')).
Proof.
  destruct 1; simpl; try apply extends_refl. by eapply critical_extends.
Qed.

Lemma run_extends destDir p p' :
  rtc (step destDir) p p' -> extends (w_fs (p_world p)) (w_fs (p_world p')).
Proof.
  induction 1 as [|p q r Hs _ IH]; [apply extends_refl|].
  eapply extends_trans; [by eapply step_extends|done].
Qed.

Lemma open_log_extends fs p fs' : open_log fs p = Some fs' -> extends fs fs'.
Proof.
  unfold open_log. case_decide; [done|].
  destruct (os.nodes fs !! p) as [[|f]|] eqn:Hp; [done|..]; intros [= <-].
  - apply extends_refl.
  - apply (touches_extends p); [apply touches_insert|done].
Qed.

Lemma start_extends vs destDir logFilePath state fs numWorkers p0 :
  ProcessFiles_start vs destDir logFilePath state fs numWorkers = Some p0 ->
  extends fs (w_fs (p_world p0)).
Proof.
  unfold ProcessFiles_start. intros H.
  destruct (os.MkdirAll fs _) as [fs1|] eqn:H1; [simpl in H|done].
  destruct (os.MkdirAll fs1 _) as [fs2|] eqn:H2; [simpl in H|done].
  destruct (open_log fs2 _) as [fs3|] eqn:H3; [simpl in H|done].
  injection H as <-. simpl.
  eapply extends_trans; [by eapply MkdirAll_extends|].
  eapply extends_trans; [by eapply MkdirAll_extends|]. by eapply open_log_extends.
Qed.



(** ** Errors *)



(** ** Files with the same bytes *)

Lemma extends_checksum fs fs' path checksum :
  extends fs fs' -> calculateChecksum fs path = Some checksum ->
  calculateChecksum fs' path = Some checksum.
Proof.
  intros (_ & _ & Hn). unfold calculateChecksum, os.read_all.
  destruct (os.nodes fs !! path) as [n|] eqn:Hp; [|done]. by rewrite (Hn _ _ Hp).
Qed.

Lemma processFile_success_prepared path destDir duplicatesDir noDataDir w w' :
  processFile path destDir duplicatesDir noDataDir w = (w', Returned None) ->
  exists date checksum, prepare (w_fs w) path = inr (date, checksum).
Proof.
  unfold processFile. destruct (prepare (w_fs w) path) as [e|[date checksum]]; [done|eauto].
Qed.

Lemma processFile_success_indexed path destDir duplicatesDir noDataDir w w' date checksum :
  prepare (w_fs w) path = inr (date, checksum) ->
  processFile path destDir duplicatesDir noDataDir w = (w', Returned None) ->
  exists first rest, w_duplicates w' !! checksum = Some (first :: rest).
Proof.
  intros Hprep H. rewrite (processFile_prepared _ _ _ _ _ _ _ Hprep) in H.
  destruct (w_duplicates w !! checksum) as [paths|] eqn:Hk.
  - destruct (critical_known _ _ _ _ _ _ _ _ _ _ Hk H) as ([cerr|] & _ & Hc).
    { by destruct Hc as [[=] _]. }
    destruct Hc as (-> & _ & Hc). rewrite lookup_insert_eq.
    destruct paths as [|first rest]; [by destruct Hc|]. simpl. eauto.
  - destruct (critical_unknown _ _ _ _ _ _ _ _ _ Hk H) as (_ & _ & Hc).
    destruct (destination _ _ _ _ _ _) as [[fs1 destPath]|]; [|by destruct Hc as [[=] _]].
    destruct Hc as ([cerr|] & _ & Hc); [by destruct Hc as [[=] _]|].
    destruct Hc as [_ ->]. rewrite lookup_insert_eq. eauto.
Qed.

(** X25: what deduplication comes to.  Once [processFile] has succeeded on
    a file, a later successful call on a file with the same bytes, whatever
    its name and its date, takes that file for a duplicate: the first path
    of the checksum stays, the path of the second file is appended last, the
    duplicate counter goes up by one, and the copy is made in the duplicates
    directory. *)
Theorem equal_bytes_are_duplicates (path1 path2 destDir duplicatesDir noDataDir : string)
    (w w1 w2 : World) (checksum : string) :
  calculateChecksum (w_fs w) path1 = Some checksum ->
  calculateChecksum (w_fs w) path2 = Some checksum ->
  processFile path1 destDir duplicatesDir noDataDir w = (w1, Returned None) ->
  processFile path2 destDir duplicatesDir noDataDir w1 = (w2, Returned None) ->
  exists first rest,
    w_duplicates w1 !! checksum = Some (first :: rest) /\
    w_duplicates w2 !! checksum = Some (first :: rest ++ [path2])%list /\
    GetDuplicateCount (w_state w2) = bump (GetDuplicateCount (w_state w1)) /\
    calculateChecksum (w_fs w2)
      (unconflicted (w_fs w1) (Join [duplicatesDir; Base path2])) = Some checksum.
Proof.
  intros Hc1 Hc2 H1 H2.
  destruct (processFile_success_prepared _ _ _ _ _ _ H1) as (d1 & c1 & Hp1).
  destruct (prepare_checksum _ _ _ _ Hp1) as [Hc1' _].
  rewrite Hc1 in Hc1'. injection Hc1' as <-.
  destruct (processFile_success_indexed _ _ _ _ _ _ _ _ Hp1 H1) as (first & rest & Hidx).
  assert (extends (w_fs w) (w_fs w1)) as Hext.
  { rewrite (processFile_prepared _ _ _ _ _ _ _ Hp1) in H1. by eapply critical_extends. }
  destruct (processFile_success_prepared _ _ _ _ _ _ H2) as (d2 & c2 & Hp2).
  destruct (prepare_checksum _ _ _ _ Hp2) as [Hc2' _].
  rewrite (extends_checksum _ _ _ _ Hext Hc2) in Hc2'. injection Hc2' as <-.
  rewrite (processFile_prepared _ _ _ _ _ _ _ Hp2) in H2.
  destruct (critical_known _ _ _ _ _ _ _ _ _ _ Hidx H2) as ([cerr|] & Hcopy & Hc).
  { by destruct Hc as [[=] _]. }
  destruct Hc as (Hidx2 & Hst & _).
  destruct (copyFile_fresh _ _ _ _ (unconflicted_not_ok _ _) Hcopy) as (_ & _ & Hsum & _).
  exists first, rest. split; [done|].
  split; [by rewrite Hidx2, lookup_insert_eq|]. split; [by rewrite Hst|].
  rewrite Hsum. by eapply extends_checksum.
Qed.

Lemma equal_bytes_are_duplicates_witness :
  calculateChecksum (w_fs Sample.w0) "src/A.jpg" = Some Sample.sum_X /\
  calculateChecksum (w_fs Sample.w0) "src/B.jpg" = Some Sample.sum_X /\
  Sample.run "src/A.jpg" Sample.w0 = (Sample.wA, Returned None) /\
  Sample.run "src/B.jpg" Sample.wA = (Sample.wAB, Returned None) /\
  (exists first rest,
     w_duplicates Sample.wA !! Sample.sum_X = Some (first :: rest) /\
     w_duplicates Sample.wAB !! Sample.sum_X = Some (first :: rest ++ ["src/B.jpg"])%list /\
     GetDuplicateCount (w_state Sample.wAB) = bump (GetDuplicateCount (w_state Sample.wA)) /\
     calculateChecksum (w_fs Sample.wAB)
       (unconflicted (w_fs Sample.wA) (Join [duplicatesDir_of "dest"; Base "src/B.jpg"]))
     = Some Sample.sum_X).
Proof.
  split; [vm_compute; reflexivity|]. split; [vm_compute; reflexivity|].
  split; [vm_compute; reflexivity|]. split; [vm_compute; reflexivity|].
  apply (equal_bytes_are_duplicates "src/A.jpg" "src/B.jpg" "dest" (duplicatesDir_of "dest")
           (noDataDir_of "dest") Sample.w0 Sample.wA Sample.wAB Sample.sum_X).
  - vm_compute; reflexivity.
  - vm_compute; reflexivity.
  - vm_compute; reflexivity.
  - vm_compute; reflexivity.
Defined.

(** ** The log and the index *)

Lemma expected_log_new m k paths :
  m !! k = None -> expected_log (<[k:=paths]> m) ≡ₚ (entry_lines (k, paths) ++ expected_log m)%list.
Proof.
  intros H. unfold expected_log. by rewrite (map_to_list_insert m k paths H).
Qed.

Lemma expected_log_lookup m k paths :
  m !! k = Some paths ->
  expected_log m ≡ₚ (entry_lines (k, paths) ++ expected_log (delete k m))%list.
Proof.
  intros H. unfold expected_log. by rewrite <- (map_to_list_delete m k paths H).
Qed.

Lemma expected_log_append m k paths path :
  m !! k = Some paths ->
  expected_log (<[k:=(paths ++ [path])%list]> m)
  ≡ₚ (match paths with
      | first :: _ => [duplicate_line path first]
      | [] => []
      end ++ expected_log m)%list.
Proof.
  intros H. rewrite (expected_log_lookup m k paths H), <- insert_delete_eq.
  rewrite expected_log_new by apply lookup_delete_eq.
  unfold entry_lines. simpl. destruct paths as [|first rest]; simpl; [done|].
  rewrite map_app. simpl. rewrite <- !app_assoc. simpl.
  by rewrite <- Permutation_middle.
Qed.

Lemma critical_log path destDir duplicatesDir noDataDir date checksum w w' out :
  critical path destDir duplicatesDir noDataDir date checksum w = (w', out) ->
  w_logFile w ≡ₚ expected_log (w_duplicates w) ->
  w_logFile w' ≡ₚ expected_log (w_duplicates w').
Proof.
  intros H Hlog. destruct (w_duplicates w !! checksum) as [paths|] eqn:Hk.
  - destruct (critical_known _ _ _ _ _ _ _ _ _ _ Hk H) as ([cerr|] & _ & Hc).
    + destruct Hc as (_ & -> & _ & ->). done.
    + destruct Hc as (-> & _ & Hc). rewrite (expected_log_append _ _ _ _ Hk).
      destruct paths as [|first rest]; destruct Hc as [_ ->]; [done|].
      by rewrite Hlog, <- Permutation_cons_append.
  - destruct (critical_unknown _ _ _ _ _ _ _ _ _ Hk H) as (_ & Hl & Hc).
    rewrite Hl. destruct (destination _ _ _ _ _ _) as [[fs1 destPath]|].
    + destruct Hc as ([cerr|] & _ & _ & ->); [done|].
      by rewrite (expected_log_new _ _ _ Hk).
    + by destruct Hc as [_ ->].
Qed.

Lemma step_log destDir p p' :
  step destDir p p' ->
  w_logFile (p_world p) ≡ₚ expected_log (index p) ->
  w_logFile (p_world p') ≡ₚ expected_log (index p').
Proof.
  destruct 1; unfold index; simpl; try done. by eapply critical_log.
Qed.

Lemma run_log destDir p p' :
  rtc (step destDir) p p' ->
  w_logFile (p_world p) ≡ₚ expected_log (index p) ->
  w_logFile (p_world p') ≡ₚ expected_log (index p').
Proof. induction 1; [done|]. intros. eauto using step_log. Qed.

(** X26: the duplicate log and the index agree at every point of a run:
    the lines written are, in some order, one line for each path that
    follows the first path of an entry of the index, and that line names
    this path as the duplicate and the first path of the entry as the file
    it is a duplicate of. *)
Theorem ProcessFiles_log_lines (vs : list visit) (destDir logFilePath : string)
    (state : State) (fs : os.FS) (numWorkers : nat) (p0 p : Pool) :
  ProcessFiles_start vs destDir logFilePath state fs numWorkers = Some p0 ->
  rtc (step destDir) p0 p ->
  w_logFile (p_world p) ≡ₚ expected_log (index p) /\
  forall line, line ∈ w_logFile (p_world p) ->
    exists checksum first rest path,
      index p !! checksum = Some (first :: rest) /\ path ∈ rest /\
      line = duplicate_line path first.
Proof.
  intros Hstart Hrun.
  assert (w_logFile (p_world p) ≡ₚ expected_log (index p)) as Hlog.
  { apply (run_log _ _ _ Hrun). unfold ProcessFiles_start in Hstart.
    destruct (os.MkdirAll fs _) as [fs1|]; [simpl in Hstart|done].
    destruct (os.MkdirAll fs1 _) as [fs2|]; [simpl in Hstart|done].
    destruct (open_log fs2 _) as [fs3|]; [simpl in Hstart|done].
    injection Hstart as <-. unfold index, expected_log. simpl.
    by rewrite map_to_list_empty. }
  split; [done|]. intros line Hin. rewrite Hlog in Hin.
  unfold expected_log in Hin. apply list_elem_of_In, in_flat_map in Hin.
  destruct Hin as ([checksum paths] & Hentry & Hline).
  apply list_elem_of_In, elem_of_map_to_list in Hentry.
  unfold entry_lines in Hline. simpl in Hline.
  destruct paths as [|first rest]; [done|].
  apply list_elem_of_In, list_elem_of_fmap in Hline as (path & -> & Hpath).
  eauto 10.
Qed.

Lemma ProcessFiles_log_lines_witness :
  ProcessFiles_start Run.walk "dest" "duplicates.log" (NewState 4) Sample.fs0 2
    = Some Run.start /\
  rtc (step "dest") Run.start Run.finish /\
  (w_logFile (p_world Run.finish) ≡ₚ expected_log (index Run.finish) /\
   forall line, line ∈ w_logFile (p_world Run.finish) ->
     exists checksum first rest path,
       index Run.finish !! checksum = Some (first :: rest) /\ path ∈ rest /\
       line = duplicate_line path first).
Proof.
  split; [exact start_of_run|]. split; [apply schedule_rtc|].
  apply (ProcessFiles_log_lines Run.walk "dest" "duplicates.log" (NewState 4)
           Sample.fs0 2 Run.start Run.finish).
  - vm_compute; reflexivity.
  - apply schedule_rtc.
Defined.

(** ** The extension of a resolved name *)

Lemma ext_scan_inner r rest acc :
  Forall inner r -> ext_scan (rev r ++ rest) acc = ext_scan rest (r ++ acc).
Proof.
  revert acc. induction r as [|c r IH] using rev_ind; intros acc H; [done|].
  apply Forall_app in H as [Hr Hc]. inversion Hc as [|? ? [Hs Hd] _]; subst.
  rewrite rev_app_distr. cbn [rev app ext_scan]. rewrite Hs, Hd, IH by done.
  by rewrite <- app_assoc.
Qed.

(** How a reversed path splits at the first dot or separator from its end. *)
Lemma ext_scan_split rcs acc :
  exists r rest, rcs = (rev r ++ rest)%list /\ Forall inner r /\
    match rest with
    | [] => ext_scan rcs acc = []
    | c :: _ => if is_slash c then ext_scan rcs acc = []
                else is_dot c = true /\ ext_scan rcs acc = c :: (r ++ acc)%list
    end.
Proof.
  revert acc. induction rcs as [|c rcs IH]; intros acc.
  - by exists [], [].
  - destruct (is_slash c) eqn:Hs; [|destruct (is_dot c) eqn:Hd].
    + exists [], (c :: rcs). simpl. by rewrite Hs.
    + exists [], (c :: rcs). simpl. by rewrite Hs, Hd.
    + destruct (IH (c :: acc)) as (r & rest & -> & Hr & Hrest).
      exists (r ++ [c])%list, rest. rewrite rev_app_distr. split; [done|].
      split; [apply Forall_app; split; [done|by repeat constructor]|].
      simpl. rewrite Hs, Hd. destruct rest as [|d rest]; [done|].
      destruct (is_slash d); [done|]. by rewrite <- app_assoc.
Qed.

Lemma ext_scan_stop xs tl acc :
  slash_free xs ->
  match tl with [] => True | c :: _ => is_slash c = true end ->
  ext_scan (xs ++ tl) acc = ext_scan xs acc.
Proof.
  intros Hxs Htl. revert acc. induction Hxs as [|c xs Hc _ IH]; intros acc; simpl.
  - destruct tl as [|d tl]; [done|]. simpl. by rewrite Htl.
  - rewrite Hc. destruct (is_dot c); [done|]. apply IH.
Qed.

Lemma split_scan_spec rcs acc :
  exists f, (split_scan rcs acc).2 = (rev f ++ acc)%list /\
    rcs = (f ++ (split_scan rcs acc).1)%list /\ slash_free f /\
    match (split_scan rcs acc).1 with [] => True | c :: _ => is_slash c = true end.
Proof.
  revert acc. induction rcs as [|c rcs IH]; intros acc; simpl.
  - exists []. repeat split. constructor.
  - destruct (is_slash c) eqn:Hc; simpl.
    + exists []. repeat split; [constructor|done].
    + destruct (IH (c :: acc)) as (f & Hf & Hr & Hsf & Hd).
      exists (c :: f). simpl. rewrite Hf, <- app_assoc. split; [done|].
      split; [by rewrite <- Hr|]. split; [by constructor|done].
Qed.

(** The extension of a path is that of its file part. *)
Lemma Ext_Split path : Ext (Split path).2 = Ext path.
Proof.
  unfold Ext, Split.
  destruct (split_scan_spec (rev (to_chars path)) []) as (f & Hf & Hr & Hsf & Hd).
  destruct (split_scan (rev (to_chars path)) []) as [rdir file]. simpl in *.
  rewrite to_of_chars, Hf, app_nil_r, rev_involutive, Hr. f_equal.
  symmetry. by apply ext_scan_stop.
Qed.

Lemma clean_front_end rooted dir :
  clean_front rooted dir = [] \/ exists f, clean_front rooted dir = (f ++ [slash])%list.
Proof.
  unfold clean_front. destruct (rev _) as [|e es].
  - destruct rooted; [right; by exists []|by left].
  - right. eexists. by rewrite app_assoc.
Qed.

(** [Join] of a directory and a plain name: what stands before the name is
    empty or ends in a separator. *)
Lemma Join_dir_front (dir : string) :
  exists front,
    (front = [] \/ exists f, front = (f ++ [slash])%list) /\
    forall name, plain_name (to_chars name) ->
      Join [dir; name] = of_chars (front ++ to_chars name)%list.
Proof.
  destruct (decide (dir = "")) as [->|Hdir].
  - exists []. split; [by left|]. intros name Hn. cbn [Join].
    rewrite bool_decide_eq_true_2 by done.
    assert (name <> "") as Hne.
    { intros ->. destruct Hn as (_ & Hp & _). done. }
    rewrite bool_decide_eq_false_2 by done. cbn [concat_sep]. unfold Clean.
    by rewrite clean_chars_single.
  - eexists. split; [apply clean_front_end|].
    intros name Hn. cbn [Join]. rewrite bool_decide_eq_false_2 by done.
    cbn [concat_sep]. unfold Clean. rewrite !to_chars_app.
    cbn [to_chars list_ascii_of_string app].
    rewrite clean_chars_last; [done| |done].
    intros Hnil. apply Hdir. apply to_chars_inj. by rewrite Hnil.
Qed.

Lemma Ext_front front name :
  (front = [] \/ exists f, front = (f ++ [slash])%list) ->
  slash_free (to_chars name) ->
  Ext (of_chars (front ++ to_chars name)) = Ext name.
Proof.
  intros Hfront Hn. unfold Ext. rewrite to_of_chars, rev_app_distr. f_equal.
  apply ext_scan_stop; [by apply Forall_rev|].
  destruct Hfront as [->|[f ->]]; [done|].
  rewrite rev_app_distr. simpl. done.
Qed.

Lemma TrimSuffix_empty s : TrimSuffix s "" = s.
Proof.
  unfold TrimSuffix, HasSuffix. simpl.
  assert (HasPrefix (of_chars (rev (to_chars s))) "" = true) as -> by by destruct (of_chars _).
  rewrite Nat.sub_0_r, <- to_chars_length, firstn_all. apply of_to_chars.
Qed.

Lemma digits_inner cs : digits cs -> Forall inner cs.
Proof.
  intros H. eapply Forall_impl; [exact H|]. intros c Hc. cbn beta in Hc.
  unfold time.isDigit in Hc. apply andb_true_iff in Hc as [H1 H2].
  apply Nat.leb_le in H1, H2.
  split; [unfold is_slash|unfold is_dot]; apply Ascii.eqb_neq; intros ->;
    vm_compute in H1; lia.
Qed.

(** The name with a number has the extension it was made with. *)
Lemma Ext_suffixed file i :
  slash_free (to_chars file) ->
  Ext (suffixed (TrimSuffix file (Ext file)) (Ext file) i) = Ext file.
Proof.
  intros Hsf.
  destruct (ext_scan_split (rev (to_chars file)) []) as (r & rest & Hrev & Hr & Hrest).
  assert (to_chars file = (rev rest ++ r)%list) as Hfile.
  { rewrite <- (rev_involutive (to_chars file)), Hrev, rev_app_distr.
    by rewrite rev_involutive. }
  destruct rest as [|c rest].
  - (* no dot: the stem is the whole name *)
    assert (Ext file = "") as -> by (unfold Ext; by rewrite Hrest).
    rewrite TrimSuffix_empty.
    unfold Ext. rewrite suffixed_chars. simpl in Hfile. rewrite Hfile.
    change (to_chars "") with (@nil ascii). rewrite app_nil_r.
    rewrite <- (app_nil_r (rev _)), ext_scan_inner; [done|].
    apply Forall_app. split; [done|]. constructor; [done|].
    apply digits_inner, pretty_nat_digits.
  - assert (is_slash c = false) as Hc.
    { rewrite Hfile in Hsf. apply Forall_app in Hsf as [Hsf _].
      apply Forall_rev in Hsf. rewrite rev_involutive in Hsf.
      by inversion Hsf. }
    rewrite Hc in Hrest. destruct Hrest as [Hd Hrest]. rewrite app_nil_r in Hrest.
    assert (Ext file = of_chars (c :: r)) as -> by (unfold Ext; by rewrite Hrest).
    unfold Ext. rewrite suffixed_chars, to_of_chars. f_equal.
    rewrite !app_comm_cons, !app_assoc, rev_app_distr. cbn [rev].
    rewrite <- app_assoc. rewrite ext_scan_inner by done. cbn [app ext_scan].
    by rewrite Hc, Hd, app_nil_r.
Qed.

(** X27: the name [resolveNamingConflict] returns has the extension of the
    path it was given: the number goes before the extension, so that a file
    moved out of the way of another keeps its type. *)
Theorem resolveNamingConflict_keeps_extension (fs : os.FS) (path : string) :
  Ext (resolveNamingConflict fs path) = Ext path /\
  isVideoFile (Ext (resolveNamingConflict fs path)) = isVideoFile (Ext path).
Proof.
  assert (Ext (resolveNamingConflict fs path) = Ext path) as H; [|by rewrite H].
  pose proof (resolveNamingConflict_first fs path) as Hfirst.
  pose proof (Split_file_slash_free path) as Hfile.
  pose proof (Ext_Split path) as Hext.
  destruct (Split path) as [dir file]. simpl in *. cbn zeta in Hfirst.
  destruct Hfirst as (i & _ & _ & -> & _).
  rewrite candidate_eq. destruct (Join_dir_front dir) as (front & Hfront & HJ).
  assert (plain_name (to_chars (suffixed (TrimSuffix file (Ext file)) (Ext file) i))) as Hp.
  { apply suffixed_plain; [by apply TrimSuffix_slash_free|apply Ext_no_slash]. }
  rewrite HJ by done. rewrite Ext_front; [|done|by destruct Hp].
  by rewrite Ext_suffixed.
Qed.

(** The extension of the names of the unit test. *)
Example resolveNamingConflict_extension :
  Ext (resolveNamingConflict Sample.fs_test "tmp/test.txt") = ".txt".
Proof. vm_compute. reflexivity. Qed.

(** ** The index names files with the checksum they are recorded under *)

Lemma recorded_right_extends fs fs' m :
  extends fs fs' -> recorded_right fs m -> recorded_right fs' m.
Proof.
  intros Hext H k paths Hk. eapply Forall_impl; [by apply (H k)|].
  intros q Hq. by eapply extends_checksum.
Qed.

Lemma checked_extends fs fs' ws :
  extends fs fs' -> Forall (checked fs) ws -> Forall (checked fs') ws.
Proof.
  intros Hext Hws. eapply Forall_impl; [exact Hws|].
  intros [] H; simpl in *; try done. by eapply extends_checksum.
Qed.

Lemma critical_sound path destDir duplicatesDir noDataDir date checksum w w' out :
  calculateChecksum (w_fs w) path = Some checksum ->
  recorded_right (w_fs w) (w_duplicates w) ->
  critical path destDir duplicatesDir noDataDir date checksum w = (w', out) ->
  recorded_right (w_fs w') (w_duplicates w').
Proof.
  intros Hsum Hrec H. pose proof (critical_extends _ _ _ _ _ _ _ _ _ H) as Hext.
  pose proof (recorded_right_extends _ _ _ Hext Hrec) as Hrec'.
  destruct (w_duplicates w !! checksum) as [paths|] eqn:Hk.
  - destruct (critical_known _ _ _ _ _ _ _ _ _ _ Hk H) as ([cerr|] & _ & Hc).
    + destruct Hc as (_ & -> & _). done.
    + destruct Hc as (-> & _). intros k ps Hps.
      destruct (decide (k = checksum)) as [->|Hne].
      * rewrite lookup_insert_eq in Hps. injection Hps as <-.
        apply Forall_app. split; [by apply (Hrec' checksum)|].
        constructor; [by eapply extends_checksum|done].
      * rewrite lookup_insert_ne in Hps by done. by apply (Hrec' k).
  - destruct (critical_unknown _ _ _ _ _ _ _ _ _ Hk H) as (_ & _ & Hc).
    destruct (destination _ _ _ _ _ _) as [[fs1 destPath]|] eqn:Hdest.
    + destruct (destination_extends _ _ _ _ _ _ _ _ Hdest) as [Hext1 Hok].
      destruct Hc as ([cerr|] & Hcopy & _ & ->); [done|].
      destruct (copyFile_fresh _ _ _ _ Hok Hcopy) as (_ & _ & Hs & _).
      intros k ps Hps. destruct (decide (k = checksum)) as [->|Hne].
      * rewrite lookup_insert_eq in Hps. injection Hps as <-.
        constructor; [|done]. rewrite Hs. by eapply extends_checksum.
      * rewrite lookup_insert_ne in Hps by done. by apply (Hrec' k).
    + by destruct Hc as [_ ->].
Qed.

Lemma step_sound destDir p p' : step destDir p p' -> sound p -> sound p'.
Proof.
  intros Hs [Hrec Hws].
  destruct Hs as [path name isDir vs ws w t Hel
                 |path name isDir vs ws w t i Hel Hi
                 |path vs ws w t
                 |ws w t
                 |err ws w t i Hi
                 |pr ws w t i path Hi
                 |pr ws w t i path date checksum w' out Hi Hcr
                 |pr ws w t i path err Hi
                 |pr ws w t i path Hi
                 |pr ws w t i path Hi
                 |pr ws w t i path failed Hi]; unfold sound, index in *; simpl in *;
    try (split; [done|]; try done; by apply Forall_insert).
  - split; [done|]. apply Forall_insert; [done|].
    destruct (prepare (w_fs w) path) as [e|[date checksum]] eqn:Hp; [done|].
    simpl. by apply prepare_checksum in Hp as [Hp _].
  - assert (calculateChecksum (w_fs w) path = Some checksum) as Hsum.
    { rewrite Forall_lookup in Hws. by apply (Hws _ _ Hi). }
    split; [by eapply critical_sound|].
    apply Forall_insert; [|by destruct out].
    eapply checked_extends; [|done]. by eapply critical_extends.
Qed.

Lemma run_sound destDir p p' : rtc (step destDir) p p' -> sound p -> sound p'.
Proof. induction 1; [done|]. intros. eauto using step_sound. Qed.



(** ** Completion *)

Lemma accounted_completes destDir vs s0 n p :
  measure p <= n -> accounted vs s0 p -> 1 <= length (p_workers p) ->
  exists p', rtc (step destDir) p p' /\ completed p'.
Proof.
  revert p. induction n as [|n IH]; intros p Hm Hacc Hlen;
    destruct (accounted_progress destDir vs s0 p Hacc Hlen) as [Hdone|[q Hq]];
    try (by exists p).
  - apply step_measure in Hq. lia.
  - pose proof (step_measure _ _ _ Hq) as Hlt.
    destruct (IH q) as (p' & Hrun & Hdone); [lia|by eapply step_accounted| |].
    + by rewrite (step_workers_length _ _ _ Hq).
    + exists p'. split; [by eapply rtc_l|done].
Qed.


